(** * Clocktower session server: rooms, seating, role assignment, overlays, chat

    A shallow embedding of the Express handlers of the game server
    (the in-memory stores [rooms], [players], [playerRoles], [deadPlayers],
    [drunkPlayers], [playerOrder], [chatMessages] and the routes that
    read and write them), followed by the properties of the room
    life cycle, the seating order, the role assignment, the status
    overlays and the chat log.

    Conventions of the embedding.
    - A JavaScript string is the Rocq string of its UTF-8 encoding, one
      [ascii] for each byte.  [js_length] counts its UTF-16 code units,
      as [s.length] does, and [trim] removes the white space and line
      terminators of ECMAScript.  [toUpperCase] and [toLowerCase] fold
      the letters of the ASCII range and leave every other byte alone;
      they are the functions of the platform on ASCII strings, and the
      two properties about the folding itself (a code that names no room
      is refused, codes are matched without regard to case) are stated
      for ASCII codes ([is_ascii]).
    - A JavaScript [Map] is a [gmap], a [Set] a [gset]; no handler
      iterates over a store, so insertion order is not observable.
    - [null]/[undefined] fields are [option]s; the truthiness tests of
      the source ([!x], [x && ...], [x || d]) are written out.
    - Every handler is a function from the request and the stores to a
      reply and the new stores.  Objects fetched from a store are
      references in the source: a field assignment on them is an update
      of the store entry ([alter]), also where the source omits the
      redundant [set].
    - Outcomes of [Math.random], [uuidv4] and [Date.now] are arguments
      of the handler that consumes them.
    - Socket emissions do not touch the stores and are left out. *)

From Stdlib Require Import ZArith Ascii.
From stdpp Require Import base decidable option list strings pretty gmap.

Local Open Scope Z_scope.
Local Open Scope nat_scope.

(** ** Strings *)

Definition upper_char (c : ascii) : ascii :=
  let n := nat_of_ascii c in
  if (97 <=? n) && (n <=? 122) then ascii_of_nat (n - 32) else c.

Definition lower_char (c : ascii) : ascii :=
  let n := nat_of_ascii c in
  if (65 <=? n) && (n <=? 90) then ascii_of_nat (n + 32) else c.

Fixpoint map_string (f : ascii → ascii) (s : string) : string :=
  match s with
  | EmptyString => EmptyString
  | String c s' => String (f c) (map_string f s')
  end.

(** [s.toUpperCase()] and [s.toLowerCase()] on the letters of the ASCII
    range.  On an ASCII string these are the functions of the platform;
    on other strings the platform also maps letters outside that range
    (among them some whose image is an ASCII letter), which these
    definitions leave alone. *)
Definition toUpperCase : string → string := map_string upper_char.
Definition toLowerCase : string → string := map_string lower_char.

(** The strings on which [toUpperCase] and [toLowerCase] are the
    functions of the platform. *)
Definition is_ascii (s : string) : bool :=
  forallb (λ c, nat_of_ascii c <? 128) (String.list_ascii_of_string s).

(** [s.length]: the number of UTF-16 code units of the string whose
    UTF-8 encoding is [s].  A continuation byte adds nothing, the first
    byte of a four-byte sequence (a character outside the basic plane,
    held as a surrogate pair) adds two, every other byte one. *)
Definition code_units (c : ascii) : nat :=
  let n := nat_of_ascii c in
  if (128 <=? n) && (n <? 192) then 0 else if 240 <=? n then 2 else 1.

Fixpoint js_length (s : string) : nat :=
  match s with
  | EmptyString => 0
  | String c s' => code_units c + js_length s'
  end.

(** The white space and the line terminators of ECMAScript, which
    [String.prototype.trim] removes, by the length of their encoding:
    TAB, LF, VT, FF, CR and SPACE; U+00A0; U+1680, U+2000 to U+200A,
    U+2028, U+2029, U+202F, U+205F, U+3000 and U+FEFF. *)
Definition is_white (c : ascii) : bool :=
  let n := nat_of_ascii c in
  ((9 <=? n) && (n <=? 13)) || (n =? 32).

Definition is_white2 (c1 c2 : ascii) : bool :=
  (nat_of_ascii c1 =? 194) && (nat_of_ascii c2 =? 160).

Definition is_white3 (c1 c2 c3 : ascii) : bool :=
  let n1 := nat_of_ascii c1 in
  let n2 := nat_of_ascii c2 in
  let n3 := nat_of_ascii c3 in
  ((n1 =? 225) && (n2 =? 154) && (n3 =? 128))
  || ((n1 =? 226) && (n2 =? 128)
      && (((128 <=? n3) && (n3 <=? 138)) || (n3 =? 168) || (n3 =? 169)
          || (n3 =? 175)))
  || ((n1 =? 226) && (n2 =? 129) && (n3 =? 159))
  || ((n1 =? 227) && (n2 =? 128) && (n3 =? 128))
  || ((n1 =? 239) && (n2 =? 187) && (n3 =? 191)).

(** The string without its first character, when that is white space. *)
Definition white_prefix (s : string) : option string :=
  match s with
  | String c1 s1 =>
      if is_white c1 then Some s1 else
      match s1 with
      | String c2 s2 =>
          if is_white2 c1 c2 then Some s2 else
          match s2 with
          | String c3 s3 => if is_white3 c1 c2 c3 then Some s3 else None
          | EmptyString => None
          end
      | EmptyString => None
      end
  | EmptyString => None
  end.

(** The string from its first character that is not white space. *)
Fixpoint trim_start (s : string) : string :=
  match s with
  | String c1 s1 =>
      if is_white c1 then trim_start s1 else
      match s1 with
      | String c2 s2 =>
          if is_white2 c1 c2 then trim_start s2 else
          match s2 with
          | String c3 s3 => if is_white3 c1 c2 c3 then trim_start s3 else s
          | EmptyString => s
          end
      | EmptyString => s
      end
  | EmptyString => EmptyString
  end.

(** White space only. *)
Definition blank (s : string) : bool := bool_decide (trim_start s = "").

(** The string up to the first position from which only white space
    follows. *)
Fixpoint trim_end (s : string) : string :=
  match s with
  | EmptyString => EmptyString
  | String c s' => if blank s then EmptyString else String c (trim_end s')
  end.

(** [s.trim()]. *)
Definition trim (s : string) : string := trim_end (trim_start s).

(** Truthiness of a string and of a possibly missing string. *)
Definition truthy (s : string) : bool := bool_decide (s ≠ "").

Definition truthy_opt (o : option string) : bool :=
  match o with
  | Some s => truthy s
  | None => false
  end.

(** ** Data model *)

(** Player ids and room codes are strings; the two names only document
    which one a field or an argument holds. *)
Abbreviation PlayerId := string.
Abbreviation RoomCode := string.

Module Player.
Record t := mk {
  id : PlayerId;
  username : option string;
  emoji : string;
  roomCode : option RoomCode;
  isHost : bool
}.
Definition set_username (u : option string) (p : t) : t :=
  mk (id p) u (emoji p) (roomCode p) (isHost p).
Definition set_emoji (e : string) (p : t) : t :=
  mk (id p) (username p) e (roomCode p) (isHost p).
Definition set_roomCode (c : option RoomCode) (p : t) : t :=
  mk (id p) (username p) (emoji p) c (isHost p).
Definition set_isHost (b : bool) (p : t) : t :=
  mk (id p) (username p) (emoji p) (roomCode p) b.
End Player.

(** An entry of a role set file. *)
Module RoleDef.
Record t := mk { name : string; description : string }.
End RoleDef.

(** An entry of [room.selectedRoles]: [{ ...foundRole, category: cat }]. *)
Module Role.
Record t := mk { name : string; description : string; category : string }.
End Role.

Module RoleSet.
Record t := mk {
  id : string;
  name : string;
  roles : gmap string (list RoleDef.t)
}.
End RoleSet.

Module Room.
Record t := mk {
  code : RoomCode;
  hostId : PlayerId;
  players : list PlayerId;
  createdAt : Z;
  selectedRoles : list Role.t;
  rolesAssigned : bool;
  roleSet : string
}.
Definition set_hostId (h : PlayerId) (r : t) : t :=
  mk (code r) h (players r) (createdAt r) (selectedRoles r)
     (rolesAssigned r) (roleSet r).
Definition set_players (ps : list PlayerId) (r : t) : t :=
  mk (code r) (hostId r) ps (createdAt r) (selectedRoles r)
     (rolesAssigned r) (roleSet r).
Definition set_selectedRoles (sel : list Role.t) (r : t) : t :=
  mk (code r) (hostId r) (players r) (createdAt r) sel
     (rolesAssigned r) (roleSet r).
Definition set_rolesAssigned (b : bool) (r : t) : t :=
  mk (code r) (hostId r) (players r) (createdAt r) (selectedRoles r)
     b (roleSet r).
Definition set_roleSet (s : string) (r : t) : t :=
  mk (code r) (hostId r) (players r) (createdAt r) (selectedRoles r)
     (rolesAssigned r) s.
End Room.

Module Message.
Record t := mk {
  id : string;
  senderId : PlayerId;
  senderEmoji : string;
  senderUsername : option string;
  isFromHost : bool;
  recipientId : option PlayerId;
  content : string;
  timestamp : Z
}.
End Message.

#[global] Instance RoleDef_eq_dec : EqDecision RoleDef.t.
Proof. solve_decision. Defined.
#[global] Instance Role_eq_dec : EqDecision Role.t.
Proof. solve_decision. Defined.
#[global] Instance Player_eq_dec : EqDecision Player.t.
Proof. solve_decision. Defined.
#[global] Instance Room_eq_dec : EqDecision Room.t.
Proof. solve_decision. Defined.
#[global] Instance Message_eq_dec : EqDecision Message.t.
Proof. solve_decision. Defined.

(** The in-memory storage of the server. *)
Record State := mkState {
  rooms : gmap RoomCode Room.t;
  players : gmap PlayerId Player.t;
  playerRoles : gmap PlayerId Role.t;
  deadPlayers : gmap RoomCode (gset PlayerId);
  drunkPlayers : gmap RoomCode (gset PlayerId);
  playerOrder : gmap RoomCode (list PlayerId);
  chatMessages : gmap RoomCode (list Message.t)
}.

Definition init : State := mkState ∅ ∅ ∅ ∅ ∅ ∅ ∅.

Definition with_rooms (f : gmap RoomCode Room.t → gmap RoomCode Room.t)
    (st : State) : State :=
  mkState (f (rooms st)) (players st) (playerRoles st) (deadPlayers st)
          (drunkPlayers st) (playerOrder st) (chatMessages st).
Definition with_players
    (f : gmap PlayerId Player.t → gmap PlayerId Player.t)
    (st : State) : State :=
  mkState (rooms st) (f (players st)) (playerRoles st) (deadPlayers st)
          (drunkPlayers st) (playerOrder st) (chatMessages st).
Definition with_playerRoles
    (f : gmap PlayerId Role.t → gmap PlayerId Role.t)
    (st : State) : State :=
  mkState (rooms st) (players st) (f (playerRoles st)) (deadPlayers st)
          (drunkPlayers st) (playerOrder st) (chatMessages st).
Definition with_deadPlayers
    (f : gmap RoomCode (gset PlayerId) → gmap RoomCode (gset PlayerId))
    (st : State) : State :=
  mkState (rooms st) (players st) (playerRoles st) (f (deadPlayers st))
          (drunkPlayers st) (playerOrder st) (chatMessages st).
Definition with_drunkPlayers
    (f : gmap RoomCode (gset PlayerId) → gmap RoomCode (gset PlayerId))
    (st : State) : State :=
  mkState (rooms st) (players st) (playerRoles st) (deadPlayers st)
          (f (drunkPlayers st)) (playerOrder st) (chatMessages st).
Definition with_playerOrder
    (f : gmap RoomCode (list PlayerId) → gmap RoomCode (list PlayerId))
    (st : State) : State :=
  mkState (rooms st) (players st) (playerRoles st) (deadPlayers st)
          (drunkPlayers st) (f (playerOrder st)) (chatMessages st).
Definition with_chatMessages
    (f : gmap RoomCode (list Message.t) → gmap RoomCode (list Message.t))
    (st : State) : State :=
  mkState (rooms st) (players st) (playerRoles st) (deadPlayers st)
          (drunkPlayers st) (playerOrder st) (f (chatMessages st)).

(** [m.has(k)]. *)
Definition has {V} (m : gmap string V) (k : string) : bool :=
  bool_decide (is_Some (m !! k)).

(** [arr.includes(x)]. *)
Definition includes (l : list string) (x : string) : bool :=
  bool_decide (x ∈ l).

(** ** Replies *)

Module GrimoireEntry.
Record t := mk {
  playerId : PlayerId;
  username : option string;
  emoji : string;
  role : option Role.t;
  isDead : bool;
  isDrunk : bool
}.
End GrimoireEntry.

Inductive Reply :=
  | Err (status : nat) (error : string)
      (** [res.status(status).json({ error })] *)
  | Threw
      (** an uncaught [TypeError]: the request ends without a JSON reply *)
  | Hang
      (** the handler does not return *)
  | PlayerJson (player : option Player.t)
  | RoomPlayerJson (room : Room.t) (player : option Player.t)
  | SuccessJson
  | RoomDataJson (room : Room.t) (roleSetName : option string)
      (roomPlayers : list (Player.t * bool)) (finalOrder : list PlayerId)
      (roleSetRoles : option (gmap string (list RoleDef.t)))
  | OrderJson (order : list PlayerId)
  | RoleSetJson (roleSet : string) (roleSetName : option string)
  | SelectedRolesJson (selectedRoles : list Role.t)
  | AssignedJson (totalAssigned : nat)
  | MyRoleJson (role : option Role.t)
  | GrimoireJson (grimoireData : list GrimoireEntry.t) (rolesAssigned : bool)
  | MessageJson (message : Message.t)
  | MessagesJson (messages : list Message.t).

(** ** Session and profile handlers *)

(** The guard [if (!playerId || !players.has(playerId))] that opens
    every handler; [cookie] is [req.cookies.playerId]. *)
Definition session (st : State) (cookie : option PlayerId) : option PlayerId :=
  match cookie with
  | Some playerId =>
      if truthy playerId && has (players st) playerId
      then Some playerId else None
  | None => None
  end.

(** [GET /api/session]; [uuid] and [emoji] are the outcomes of
    [uuidv4()] and [getRandomEmoji()] (used for a new session only). *)
Definition get_session (cookie : option PlayerId) (uuid emoji : string)
    (st : State) : Reply * State :=
  match session st cookie with
  | Some playerId => (PlayerJson (players st !! playerId), st)
  | None =>
      let st' := with_players
        (insert uuid (Player.mk uuid None emoji None false)) st in
      (PlayerJson (players st' !! uuid), st')
  end.

(** [POST /api/username]. *)
Definition post_username (cookie : option PlayerId)
    (username : option string) (st : State) : Reply * State :=
  match session st cookie with
  | None => (Err 401 "Invalid session", st)
  | Some playerId =>
      let st' := with_players
        (alter (Player.set_username username) playerId) st in
      (PlayerJson (players st' !! playerId), st')
  end.

(** [POST /api/emoji]. *)
Definition post_emoji (cookie : option PlayerId) (emoji : option string)
    (st : State) : Reply * State :=
  match session st cookie with
  | None => (Err 401 "Invalid session", st)
  | Some playerId =>
      match emoji with
      | Some e =>
          if truthy e then
            let st' := with_players
              (alter (Player.set_emoji e) playerId) st in
            (PlayerJson (players st' !! playerId), st')
          else (Err 400 "Emoji is required", st)
      | None => (Err 400 "Emoji is required", st)
      end
  end.

(** ** Room membership *)

(** [leaveRoom(playerId, roomCode)].  The branch on
    [room.players.length === 0] is the match on the filtered list, whose
    head is [room.players[0]]. *)
Definition leaveRoom (playerId : PlayerId) (roomCode : RoomCode)
    (st : State) : State :=
  match rooms st !! roomCode with
  | None => st
  | Some room =>
      let remaining := filter (λ id, id ≠ playerId) (Room.players room) in
      let st1 := with_players
        (alter (λ p, Player.set_isHost false (Player.set_roomCode None p))
               playerId) st in
      let st2 := with_playerRoles (delete playerId) st1 in
      match remaining with
      | [] =>
          with_chatMessages (delete roomCode)
            (with_playerOrder (delete roomCode)
              (with_drunkPlayers (delete roomCode)
                (with_deadPlayers (delete roomCode)
                  (with_rooms (delete roomCode) st2))))
      | first :: _ =>
          if decide (Room.hostId room = playerId) then
            let st3 := with_players
              (alter (Player.set_isHost true) first) st2 in
            with_rooms
              (insert roomCode
                 (Room.set_hostId first (Room.set_players remaining room)))
              st3
          else
            with_rooms
              (insert roomCode (Room.set_players remaining room)) st2
      end
  end.

(** [if (player.roomCode && rooms.has(player.roomCode))
       leaveRoom(playerId, player.roomCode)]. *)
Definition leave_current (playerId : PlayerId) (st : State) : State :=
  match players st !! playerId with
  | Some player =>
      match Player.roomCode player with
      | Some rc =>
          if truthy rc && has (rooms st) rc
          then leaveRoom playerId rc st else st
      | None => st
      end
  | None => st
  end.

Definition poo : string := "💩".

(** The special emoji for luc/lucas, applied to the player object. *)
Definition special_emoji (player : Player.t) : Player.t :=
  let lowerUsername := toLowerCase (default "" (Player.username player)) in
  if decide (lowerUsername = "luc" ∨ lowerUsername = "lucas")
  then Player.set_emoji poo player else player.

(** [generateRoomCode()].  Every element of [draws] is the four-letter
    candidate built by one run of the [for] loop; the function calls
    itself again while the candidate is taken.  [None]: every candidate
    of [draws] was taken. *)
Fixpoint generateRoomCode (draws : list RoomCode)
    (rs : gmap RoomCode Room.t) : option RoomCode :=
  match draws with
  | [] => None
  | code :: rest =>
      if has rs code then generateRoomCode rest rs else Some code
  end.

Definition defaultRoleSet : string := "trouble_brewing".

(** [POST /api/room/create]; [now] is [Date.now()]. *)
Definition room_create (cookie : option PlayerId) (draws : list RoomCode)
    (now : Z) (st : State) : Reply * State :=
  match session st cookie with
  | None => (Err 401 "Invalid session", st)
  | Some playerId =>
      let st1 := leave_current playerId st in
      let st2 := with_players (alter special_emoji playerId) st1 in
      match generateRoomCode draws (rooms st2) with
      | None => (Hang, st2)
      | Some roomCode =>
          let room :=
            Room.mk roomCode playerId [playerId] now [] false defaultRoleSet in
          let st3 := with_rooms (insert roomCode room) st2 in
          let st4 := with_players
            (alter (λ p, Player.set_isHost true
                           (Player.set_roomCode (Some roomCode) p))
                   playerId) st3 in
          (RoomPlayerJson room (players st4 !! playerId), st4)
      end
  end.

(** [POST /api/room/join].  After [leaveRoom] the room is fetched again
    with [rooms.get(code)]; when the caller was its only member it is
    gone and [room.players] throws. *)
Definition room_join (cookie : option PlayerId) (roomCode : string)
    (st : State) : Reply * State :=
  match session st cookie with
  | None => (Err 401 "Invalid session", st)
  | Some playerId =>
      let code := toUpperCase roomCode in
      if negb (has (rooms st) code) then (Err 404 "Room not found", st)
      else
        let st1 := leave_current playerId st in
        let st2 := with_players (alter special_emoji playerId) st1 in
        match rooms st2 !! code with
        | None => (Threw, st2)
        | Some room =>
            let room' :=
              if negb (includes (Room.players room) playerId)
              then Room.set_players (Room.players room ++ [playerId]) room
              else room in
            let st3 := with_rooms (insert code room') st2 in
            let st4 := with_players
              (alter (λ p, Player.set_isHost
                             (bool_decide (Room.hostId room' = playerId))
                             (Player.set_roomCode (Some code) p))
                     playerId) st3 in
            (RoomPlayerJson room' (players st4 !! playerId), st4)
        end
  end.

(** [POST /api/room/leave]. *)
Definition room_leave (cookie : option PlayerId) (st : State)
    : Reply * State :=
  match session st cookie with
  | None => (Err 401 "Invalid session", st)
  | Some playerId => (SuccessJson, leave_current playerId st)
  end.

(** ** Seating order *)

(** The order computed by [GET /api/room/:code]:
    [playerOrder.get(code) || room.players] filtered to the members,
    followed by the members it does not list.  An empty stored array is
    truthy, so only a missing entry falls back to [room.players]. *)
Definition finalOrder (stored : option (list PlayerId))
    (members : list PlayerId) : list PlayerId :=
  let orderedPlayerIds := default members stored in
  let validOrderedIds :=
    filter (λ id, includes members id = true) orderedPlayerIds in
  let newPlayers :=
    filter (λ id, includes validOrderedIds id = false) members in
  validOrderedIds ++ newPlayers.

(** The variant of [GET /api/room/:code/grimoire], which leaves the
    host out of both parts. *)
Definition grimoireOrder (stored : option (list PlayerId))
    (members : list PlayerId) (hostId : PlayerId) : list PlayerId :=
  let orderedPlayerIds := default members stored in
  let validOrderedIds :=
    filter (λ id, includes members id = true ∧ id ≠ hostId)
           orderedPlayerIds in
  let newPlayers :=
    filter (λ id, includes validOrderedIds id = false ∧ id ≠ hostId)
           members in
  validOrderedIds ++ newPlayers.

(** [set.has(x)] on [map.get(code) || new Set()]. *)
Definition in_set (m : gmap RoomCode (gset PlayerId)) (code : RoomCode)
    (x : PlayerId) : bool :=
  bool_decide (x ∈ default (∅ : gset PlayerId) (m !! code)).

(** [POST /api/room/:code/player-order]. *)
Definition post_player_order (cookie : option PlayerId) (reqCode : string)
    (order : list PlayerId) (st : State) : Reply * State :=
  match session st cookie with
  | None => (Err 401 "Invalid session", st)
  | Some playerId =>
      let code := toUpperCase reqCode in
      match rooms st !! code with
      | None => (Err 404 "Room not found", st)
      | Some room =>
          if decide (Room.hostId room ≠ playerId) then
            (Err 403 "Only the host can change player order", st)
          else
            let validOrder :=
              filter (λ id, includes (Room.players room) id = true) order in
            (OrderJson validOrder,
             with_playerOrder (insert code validOrder) st)
      end
  end.

(** ** Role sets *)

(** [roleSets] is an object literal that is filled at start-up and then
    indexed with keys sent by clients.  A key that is not an own
    property is looked up in [Object.prototype]: twelve names read a
    value there, which is truthy.  Eleven of them read a function, whose
    [name] is [Object] for [constructor] and the key itself for the
    others; [__proto__] reads the prototype object, which has no [name].
    None of these values has [roles]. *)
Definition object_prototype (key : string) : option (option string) :=
  if decide (key = "constructor") then Some (Some "Object")
  else if decide (key = "__proto__") then Some None
  else if decide (key ∈ ["__defineGetter__"; "__defineSetter__";
                         "hasOwnProperty"; "__lookupGetter__";
                         "__lookupSetter__"; "isPrototypeOf";
                         "propertyIsEnumerable"; "toString"; "valueOf";
                         "toLocaleString"])
  then Some (Some key)
  else None.

(** What [roleSets[key]] reads when it is not [undefined]: a role set of
    the catalogue or an inherited value, given by its [name]. *)
Inductive Entry :=
  | Own (set : RoleSet.t)
  | Inherited (name : option string).

(** [entry.name] and [entry.roles]. *)
Definition entry_name (entry : Entry) : option string :=
  match entry with
  | Own set => Some (RoleSet.name set)
  | Inherited name => name
  end.

Definition entry_roles (entry : Entry)
    : option (gmap string (list RoleDef.t)) :=
  match entry with
  | Own set => Some (RoleSet.roles set)
  | Inherited _ => None
  end.

Section Catalog.

(** The role sets read from the [roles/] folder at start-up, by file
    name: the own properties of [roleSets]. *)
Variable roleSets : gmap string RoleSet.t.

(** [roleSets[key]]. *)
Definition get_roleSet (key : string) : option Entry :=
  match roleSets !! key with
  | Some set => Some (Own set)
  | None => Inherited <$> object_prototype key
  end.

(** [roleSets[defaultRoleSet]?.roles || {}]. *)
Definition roles : gmap string (list RoleDef.t) :=
  match roleSets !! defaultRoleSet with
  | Some set => RoleSet.roles set
  | None => ∅
  end.

(** [GET /api/room/:code]. *)
Definition get_room (reqCode : string) (st : State) : Reply * State :=
  let code := toUpperCase reqCode in
  match rooms st !! code with
  | None => (Err 404 "Room not found", st)
  | Some room =>
      let order := finalOrder (playerOrder st !! code) (Room.players room) in
      let roomPlayers :=
        omap (λ id, (λ player, (player, in_set (deadPlayers st) code id))
                      <$> players st !! id) order in
      let roleSetInfo :=
        match get_roleSet (Room.roleSet room) with
        | Some entry => Some entry
        | None => get_roleSet defaultRoleSet
        end in
      (RoomDataJson room (roleSetInfo ≫= entry_name) roomPlayers order
                    (roleSetInfo ≫= entry_roles), st)
  end.

(** [POST /api/room/:code/role-set]. *)
Definition post_role_set (cookie : option PlayerId) (reqCode : string)
    (roleSet : string) (st : State) : Reply * State :=
  match session st cookie with
  | None => (Err 401 "Invalid session", st)
  | Some playerId =>
      let code := toUpperCase reqCode in
      match rooms st !! code with
      | None => (Err 404 "Room not found", st)
      | Some room =>
          if decide (Room.hostId room ≠ playerId) then
            (Err 403 "Only the host can change settings", st)
          else
            match get_roleSet roleSet with
            | None => (Err 400 "Invalid role set", st)
            | Some entry =>
                let room' :=
                  Room.set_selectedRoles [] (Room.set_roleSet roleSet room) in
                (RoleSetJson roleSet (entry_name entry),
                 with_rooms (insert code room') st)
            end
      end
  end.

Definition validCategories : list string :=
  ["Townsfolk"; "Outsiders"; "Minions"; "Demons"].

(** The inner loop of the validation: the first category of
    [validCategories] that holds a role of that name. *)
Fixpoint find_role (roomRoles : gmap string (list RoleDef.t))
    (cats : list string) (name : string) : option Role.t :=
  match cats with
  | [] => None
  | cat :: rest =>
      match roomRoles !! cat with
      | None => find_role roomRoles rest name
      | Some defs =>
          match List.find (λ r, bool_decide (RoleDef.name r = name)) defs with
          | Some foundRole =>
              Some (Role.mk (RoleDef.name foundRole)
                            (RoleDef.description foundRole) cat)
          | None => find_role roomRoles rest name
          end
      end
  end.

(** [POST /api/room/:code/selected-roles]. *)
Definition post_selected_roles (cookie : option PlayerId) (reqCode : string)
    (selectedRoles : list Role.t) (st : State) : Reply * State :=
  match session st cookie with
  | None => (Err 401 "Invalid session", st)
  | Some playerId =>
      let code := toUpperCase reqCode in
      match rooms st !! code with
      | None => (Err 404 "Room not found", st)
      | Some room =>
          if decide (Room.hostId room ≠ playerId) then
            (Err 403 "Only the host can change settings", st)
          else
            let roomRoles :=
              default roles (get_roleSet (Room.roleSet room) ≫= entry_roles) in
            let validRoles :=
              omap (λ role, find_role roomRoles validCategories
                              (Role.name role)) selectedRoles in
            (SelectedRolesJson validRoles,
             with_rooms (insert code (Room.set_selectedRoles validRoles room))
                        st)
      end
  end.

End Catalog.

(** A category of a role set lists a role name; a role name is known
    when one of the four categories lists it. *)
Definition listed (roomRoles : gmap string (list RoleDef.t))
    (cat name : string) : Prop :=
  ∃ defs, roomRoles !! cat = Some defs ∧ name ∈ RoleDef.name <$> defs.

#[global] Instance listed_dec roomRoles cat name :
  Decision (listed roomRoles cat name).
Proof.
  unfold listed. destruct (roomRoles !! cat) as [defs|].
  - destruct (decide (name ∈ RoleDef.name <$> defs)) as [Hin|Hout].
    + left. by exists defs.
    + right. intros (defs' & [= <-] & Hin). by apply Hout.
  - right. by intros (defs & Hdefs & _).
Defined.

Definition known (roomRoles : gmap string (list RoleDef.t))
    (name : string) : Prop :=
  Exists (λ cat, listed roomRoles cat name) validCategories.

#[global] Instance known_dec roomRoles name : Decision (known roomRoles name).
Proof. unfold known. apply _. Defined.

(** ** Role assignment *)

(** The error of the count check, a template literal over both
    lengths. *)
Definition count_mismatch (nplayers nroles : nat) : string :=
  "Role count must match player count. You have " +:+ pretty nplayers
  +:+ " players but " +:+ pretty nroles +:+ " roles selected.".

(** One turn of [for (let i = 0; i < shuffledRoles.length; i++)].  The
    sorted copy has the length of the array it copies, so
    [shuffledPlayers[i]] is defined after the count check; an index
    past the end leaves the store alone here. *)
Definition assign_at (shuffledPlayers : list PlayerId)
    (shuffledRoles : list Role.t) (pr : gmap PlayerId Role.t) (i : nat)
    : gmap PlayerId Role.t :=
  match shuffledPlayers !! i, shuffledRoles !! i with
  | Some pid, Some role => <[pid := role]> pr
  | _, _ => pr
  end.

(** [for (const pid of room.players) playerRoles.delete(pid)]. *)
Definition clear_roles (members : list PlayerId)
    (pr : gmap PlayerId Role.t) : gmap PlayerId Role.t :=
  foldl (λ acc pid, delete pid acc) pr members.

(** [POST /api/room/:code/assign-roles].  [shufflePlayers] and
    [shuffleRoles] are what the engine's
    [[...xs].sort(() => Math.random() - 0.5)] does to the two arrays on
    this request. *)
Definition assign_roles (cookie : option PlayerId) (reqCode : string)
    (shufflePlayers : list PlayerId → list PlayerId)
    (shuffleRoles : list Role.t → list Role.t)
    (st : State) : Reply * State :=
  match session st cookie with
  | None => (Err 401 "Invalid session", st)
  | Some playerId =>
      let code := toUpperCase reqCode in
      match rooms st !! code with
      | None => (Err 404 "Room not found", st)
      | Some room =>
          if decide (Room.hostId room ≠ playerId) then
            (Err 403 "Only the host can assign roles", st)
          else
            let selectedRoles := Room.selectedRoles room in
            if length selectedRoles =? 0 then
              (Err 400 "No roles selected", st)
            else
              let eligiblePlayers :=
                filter (λ pid, pid ≠ Room.hostId room) (Room.players room) in
              if negb (length eligiblePlayers =? length selectedRoles) then
                (Err 400 (count_mismatch (length eligiblePlayers)
                                         (length selectedRoles)), st)
              else
                let cleared :=
                  clear_roles (Room.players room) (playerRoles st) in
                let shuffledPlayers := shufflePlayers eligiblePlayers in
                let shuffledRoles := shuffleRoles selectedRoles in
                let assigned :=
                  foldl (assign_at shuffledPlayers shuffledRoles) cleared
                        (seq 0 (length shuffledRoles)) in
                (AssignedJson (length shuffledRoles),
                 with_rooms (insert code (Room.set_rolesAssigned true room))
                   (with_playerRoles (λ _, assigned) st))
      end
  end.

(** [GET /api/my-role]. *)
Definition my_role (cookie : option PlayerId) (st : State) : Reply * State :=
  match session st cookie with
  | None => (Err 401 "Invalid session", st)
  | Some playerId => (MyRoleJson (playerRoles st !! playerId), st)
  end.

(** [GET /api/room/:code/grimoire]. *)
Definition grimoire (cookie : option PlayerId) (reqCode : string)
    (st : State) : Reply * State :=
  match session st cookie with
  | None => (Err 401 "Invalid session", st)
  | Some playerId =>
      let code := toUpperCase reqCode in
      match rooms st !! code with
      | None => (Err 404 "Room not found", st)
      | Some room =>
          if decide (Room.hostId room ≠ playerId) then
            (Err 403 "Only the host can view the Grimoire", st)
          else
            let order :=
              grimoireOrder (playerOrder st !! code) (Room.players room)
                            (Room.hostId room) in
            let entry pid :=
              let player := players st !! pid in
              GrimoireEntry.mk pid
                (match player with
                 | Some p => Player.username p
                 | None => Some "Unknown"
                 end)
                (match player with
                 | Some p => Player.emoji p
                 | None => "❓"
                 end)
                (playerRoles st !! pid)
                (in_set (deadPlayers st) code pid)
                (in_set (drunkPlayers st) code pid) in
            (GrimoireJson (entry <$> order) (Room.rolesAssigned room), st)
      end
  end.

(** [POST /api/room/:code/reset-roles]. *)
Definition reset_roles (cookie : option PlayerId) (reqCode : string)
    (st : State) : Reply * State :=
  match session st cookie with
  | None => (Err 401 "Invalid session", st)
  | Some playerId =>
      let code := toUpperCase reqCode in
      match rooms st !! code with
      | None => (Err 404 "Room not found", st)
      | Some room =>
          if decide (Room.hostId room ≠ playerId) then
            (Err 403 "Only the host can reset roles", st)
          else
            (SuccessJson,
             with_rooms (insert code (Room.set_rolesAssigned false room))
               (with_chatMessages (delete code)
                 (with_drunkPlayers (delete code)
                   (with_deadPlayers (delete code)
                     (with_playerRoles (clear_roles (Room.players room))
                        st)))))
      end
  end.

(** ** Status overlays *)

(** [if (!m.has(code)) m.set(code, new Set()); m.get(code).add(x)]. *)
Definition set_add (code : RoomCode) (x : PlayerId)
    (m : gmap RoomCode (gset PlayerId)) : gmap RoomCode (gset PlayerId) :=
  <[code := {[x]} ∪ default ∅ (m !! code)]> m.

(** [if (m.has(code)) m.get(code).delete(x)]. *)
Definition set_remove (code : RoomCode) (x : PlayerId)
    (m : gmap RoomCode (gset PlayerId)) : gmap RoomCode (gset PlayerId) :=
  alter (λ s, s ∖ {[x]}) code m.

(** [POST /api/room/:code/kill-player]. *)
Definition kill_player (cookie : option PlayerId) (reqCode : string)
    (targetPlayerId : PlayerId) (st : State) : Reply * State :=
  match session st cookie with
  | None => (Err 401 "Invalid session", st)
  | Some playerId =>
      let code := toUpperCase reqCode in
      match rooms st !! code with
      | None => (Err 404 "Room not found", st)
      | Some room =>
          if decide (Room.hostId room ≠ playerId) then
            (Err 403 "Only the host can mark players as dead", st)
          else if negb (includes (Room.players room) targetPlayerId) then
            (Err 400 "Player not in room", st)
          else
            (SuccessJson, with_deadPlayers (set_add code targetPlayerId) st)
      end
  end.

(** [POST /api/room/:code/revive-player]. *)
Definition revive_player (cookie : option PlayerId) (reqCode : string)
    (targetPlayerId : PlayerId) (st : State) : Reply * State :=
  match session st cookie with
  | None => (Err 401 "Invalid session", st)
  | Some playerId =>
      let code := toUpperCase reqCode in
      match rooms st !! code with
      | None => (Err 404 "Room not found", st)
      | Some room =>
          if decide (Room.hostId room ≠ playerId) then
            (Err 403 "Only the host can revive players", st)
          else
            (SuccessJson,
             with_deadPlayers (set_remove code targetPlayerId) st)
      end
  end.

(** [POST /api/room/:code/mark-drunk]. *)
Definition mark_drunk (cookie : option PlayerId) (reqCode : string)
    (targetPlayerId : PlayerId) (st : State) : Reply * State :=
  match session st cookie with
  | None => (Err 401 "Invalid session", st)
  | Some playerId =>
      let code := toUpperCase reqCode in
      match rooms st !! code with
      | None => (Err 404 "Room not found", st)
      | Some room =>
          if decide (Room.hostId room ≠ playerId) then
            (Err 403 "Only the host can mark players as drunk", st)
          else if negb (includes (Room.players room) targetPlayerId) then
            (Err 400 "Player not in room", st)
          else
            (SuccessJson, with_drunkPlayers (set_add code targetPlayerId) st)
      end
  end.

(** [POST /api/room/:code/unmark-drunk]. *)
Definition unmark_drunk (cookie : option PlayerId) (reqCode : string)
    (targetPlayerId : PlayerId) (st : State) : Reply * State :=
  match session st cookie with
  | None => (Err 401 "Invalid session", st)
  | Some playerId =>
      let code := toUpperCase reqCode in
      match rooms st !! code with
      | None => (Err 404 "Room not found", st)
      | Some room =>
          if decide (Room.hostId room ≠ playerId) then
            (Err 403 "Only the host can unmark players as drunk", st)
          else
            (SuccessJson,
             with_drunkPlayers (set_remove code targetPlayerId) st)
      end
  end.

(** ** Chat *)

(** [recipientId || null]. *)
Definition or_null (recipientId : option PlayerId) : option PlayerId :=
  if truthy_opt recipientId then recipientId else None.

(** [POST /api/room/:code/chat]; [nowId] and [nowStamp] are the two
    readings of [Date.now()], for [id] and for [timestamp]. *)
Definition post_chat (cookie : option PlayerId) (reqCode : string)
    (content : string) (recipientId : option PlayerId) (nowId nowStamp : Z)
    (st : State) : Reply * State :=
  match session st cookie with
  | None => (Err 401 "Invalid session", st)
  | Some playerId =>
      let code := toUpperCase reqCode in
      match rooms st !! code with
      | None => (Err 404 "Room not found", st)
      | Some room =>
          if negb (includes (Room.players room) playerId) then
            (Err 403 "You are not in this room", st)
          else
            let isHost := bool_decide (Room.hostId room = playerId) in
            if negb (truthy content) || (js_length (trim content) =? 0)
            then (Err 400 "Message cannot be empty", st)
            else if 500 <? js_length content then
              (Err 400 "Message too long (max 500 characters)", st)
            else if negb isHost
                    && bool_decide (recipientId ≠ Some (Room.hostId room))
            then (Err 403 "Players can only message the host", st)
            else if isHost && truthy_opt recipientId
                    && negb (includes (Room.players room)
                                      (default "" recipientId))
            then (Err 400 "Invalid recipient", st)
            else
              match players st !! playerId with
              | None => (Threw, st)
              | Some sender =>
                  let message :=
                    Message.mk (pretty nowId) playerId (Player.emoji sender)
                      (Player.username sender) isHost (or_null recipientId)
                      (trim content) nowStamp in
                  (MessageJson message,
                   with_chatMessages
                     (λ m, <[code := default [] (m !! code) ++ [message]]> m)
                     st)
              end
      end
  end.

(** The filter of the history: [!msg.recipientId] lets a message
    through, otherwise the viewer is its recipient or its sender. *)
Definition visible (playerId : PlayerId) (msg : Message.t) : bool :=
  negb (truthy_opt (Message.recipientId msg))
  || bool_decide (Message.recipientId msg = Some playerId)
  || bool_decide (Message.senderId msg = playerId).

(** [GET /api/room/:code/chat]. *)
Definition get_chat (cookie : option PlayerId) (reqCode : string)
    (st : State) : Reply * State :=
  match session st cookie with
  | None => (Err 401 "Invalid session", st)
  | Some playerId =>
      let code := toUpperCase reqCode in
      match rooms st !! code with
      | None => (Err 404 "Room not found", st)
      | Some room =>
          if negb (includes (Room.players room) playerId) then
            (Err 403 "Not in room", st)
          else
            let allMessages := default [] (chatMessages st !! code) in
            (MessagesJson
               (filter (λ msg, visible playerId msg = true) allMessages),
             st)
      end
  end.

(** ** The server as a transition system *)

(** One HTTP request, with the outcomes of the random and clock calls
    its handler makes. *)
Inductive Request :=
  | GetSession (cookie : option PlayerId) (uuid emoji : string)
  | PostUsername (cookie : option PlayerId) (username : option string)
  | PostEmoji (cookie : option PlayerId) (emoji : option string)
  | RoomCreate (cookie : option PlayerId) (draws : list RoomCode) (now : Z)
  | RoomJoin (cookie : option PlayerId) (roomCode : string)
  | RoomLeave (cookie : option PlayerId)
  | GetRoom (reqCode : string)
  | PostPlayerOrder (cookie : option PlayerId) (reqCode : string)
      (order : list PlayerId)
  | PostRoleSet (cookie : option PlayerId) (reqCode : string)
      (roleSet : string)
  | PostSelectedRoles (cookie : option PlayerId) (reqCode : string)
      (selectedRoles : list Role.t)
  | AssignRoles (cookie : option PlayerId) (reqCode : string)
      (shufflePlayers : list PlayerId → list PlayerId)
      (shuffleRoles : list Role.t → list Role.t)
  | MyRole (cookie : option PlayerId)
  | Grimoire (cookie : option PlayerId) (reqCode : string)
  | ResetRoles (cookie : option PlayerId) (reqCode : string)
  | KillPlayer (cookie : option PlayerId) (reqCode : string)
      (targetPlayerId : PlayerId)
  | RevivePlayer (cookie : option PlayerId) (reqCode : string)
      (targetPlayerId : PlayerId)
  | MarkDrunk (cookie : option PlayerId) (reqCode : string)
      (targetPlayerId : PlayerId)
  | UnmarkDrunk (cookie : option PlayerId) (reqCode : string)
      (targetPlayerId : PlayerId)
  | PostChat (cookie : option PlayerId) (reqCode : string) (content : string)
      (recipientId : option PlayerId) (nowId nowStamp : Z)
  | GetChat (cookie : option PlayerId) (reqCode : string).

Section Server.

Variable roleSets : gmap string RoleSet.t.

Definition handle (req : Request) (st : State) : Reply * State :=
  match req with
  | GetSession cookie uuid emoji => get_session cookie uuid emoji st
  | PostUsername cookie username => post_username cookie username st
  | PostEmoji cookie emoji => post_emoji cookie emoji st
  | RoomCreate cookie draws now => room_create cookie draws now st
  | RoomJoin cookie roomCode => room_join cookie roomCode st
  | RoomLeave cookie => room_leave cookie st
  | GetRoom reqCode => get_room roleSets reqCode st
  | PostPlayerOrder cookie reqCode order =>
      post_player_order cookie reqCode order st
  | PostRoleSet cookie reqCode roleSet =>
      post_role_set roleSets cookie reqCode roleSet st
  | PostSelectedRoles cookie reqCode selectedRoles =>
      post_selected_roles roleSets cookie reqCode selectedRoles st
  | AssignRoles cookie reqCode shufflePlayers shuffleRoles =>
      assign_roles cookie reqCode shufflePlayers shuffleRoles st
  | MyRole cookie => my_role cookie st
  | Grimoire cookie reqCode => grimoire cookie reqCode st
  | ResetRoles cookie reqCode => reset_roles cookie reqCode st
  | KillPlayer cookie reqCode target => kill_player cookie reqCode target st
  | RevivePlayer cookie reqCode target =>
      revive_player cookie reqCode target st
  | MarkDrunk cookie reqCode target => mark_drunk cookie reqCode target st
  | UnmarkDrunk cookie reqCode target =>
      unmark_drunk cookie reqCode target st
  | PostChat cookie reqCode content recipientId nowId nowStamp =>
      post_chat cookie reqCode content recipientId nowId nowStamp st
  | GetChat cookie reqCode => get_chat cookie reqCode st
  end.

(** The stores after a sequence of requests, served one at a time. *)
Definition run (reqs : list Request) (st : State) : State :=
  foldl (λ s req, (handle req s).2) st reqs.

(** The states the server can be in: the empty stores of start-up and
    whatever a request makes of a reachable state. *)
Inductive reachable : State → Prop :=
  | reachable_init : reachable init
  | reachable_step st req :
      reachable st → reachable (handle req st).2.

End Server.

(** ** Well-formed stores *)

(** The host of a room is one of its members, and nobody is listed
    twice. *)
Definition room_ok (room : Room.t) : Prop :=
  Room.hostId room ∈ Room.players room ∧ NoDup (Room.players room).

(** The stored recipient went through [recipientId || null]. *)
Definition message_ok (msg : Message.t) : Prop :=
  Message.recipientId msg ≠ Some "".

Record wf (st : State) : Prop := mk_wf {
  wf_rooms : ∀ code room, rooms st !! code = Some room → room_ok room;
  wf_chat : ∀ code msgs,
    chatMessages st !! code = Some msgs → Forall message_ok msgs
}.

(** ** Scenarios *)

(** A catalogue of one role set with three roles, two sessions [h] and
    [p], and the room [ABCD] opened by [h] and joined by [p]. *)
Definition demo_roleSets : gmap string RoleSet.t :=
  {[ "trouble_brewing" :=
       RoleSet.mk "trouble_brewing" "Trouble Brewing"
         {[ "Townsfolk" := [RoleDef.mk "Chef" "cooks"; RoleDef.mk "Monk" "prays"];
            "Demons" := [RoleDef.mk "Imp" "kills"] ]} ]}.

Definition demo_lobby : list Request :=
  [ GetSession None "h" "🐶";
    GetSession None "p" "🐱";
    RoomCreate (Some "h") ["ABCD"] 1000;
    RoomJoin (Some "p") "abcd" ].

Definition demo_room : State := run demo_roleSets demo_lobby init.

(** The host has picked one role for the one player. *)
Definition demo_selected : State :=
  run demo_roleSets
    [PostSelectedRoles (Some "h") "ABCD" [Role.mk "Chef" "" ""]] demo_room.

Definition demo_selected_room : Room.t :=
  Room.mk "ABCD" "h" ["h"; "p"] 1000
    [Role.mk "Chef" "cooks" "Townsfolk"] false "trouble_brewing".

(** The host has picked two roles for the one player. *)
Definition demo_two_roles : State :=
  run demo_roleSets
    [PostSelectedRoles (Some "h") "ABCD"
       [Role.mk "Chef" "" ""; Role.mk "Imp" "" ""]] demo_room.


Definition demo_two_roles_room : Room.t :=
  Room.mk "ABCD" "h" ["h"; "p"] 1000
    [Role.mk "Chef" "cooks" "Townsfolk"; Role.mk "Imp" "kills" "Demons"]
    false "trouble_brewing".

Definition demo_lobby_room : Room.t :=
  Room.mk "ABCD" "h" ["h"; "p"] 1000 [] false "trouble_brewing".

(** A room with its host as only member. *)
Definition demo_solo : State :=
  run demo_roleSets
    [GetSession None "h" "🐶"; GetSession None "p" "🐱";
     RoomCreate (Some "h") ["ABCD"] 1000] init.

Definition demo_solo_room : Room.t :=
  Room.mk "ABCD" "h" ["h"] 1000 [] false "trouble_brewing".

(** The host has stored a seating order that names [p] twice. *)
Definition demo_repeat : State :=
  run demo_roleSets [PostPlayerOrder (Some "h") "ABCD" ["p"; "p"]] demo_room.

(** The one role has been dealt to [p]. *)
Definition demo_assigned : State :=
  run demo_roleSets [AssignRoles (Some "h") "ABCD" reverse reverse]
      demo_selected.

(** [p] was marked dead and drunk and then left the room. *)
Definition demo_left_marked : State :=
  run demo_roleSets
    [KillPlayer (Some "h") "ABCD" "p"; MarkDrunk (Some "h") "ABCD" "p";
     RoomLeave (Some "p")] demo_room.

(** A third session [q] has joined, and three messages were sent: a
    broadcast of the host, a message of [p] to the host, and a message
    of the host to [q]. *)
Definition demo_chat : State :=
  run demo_roleSets
    [GetSession None "q" "🐭"; RoomJoin (Some "q") "ABCD";
     PostChat (Some "h") "ABCD" "night falls" None 5000 5000;
     PostChat (Some "p") "ABCD" "who died?" (Some "h") 5001 5001;
     PostChat (Some "h") "ABCD" "you are drunk" (Some "q") 5002 5002]
    demo_room.

Definition demo_chat_room : Room.t :=
  Room.mk "ABCD" "h" ["h"; "p"; "q"] 1000 [] false "trouble_brewing".

Definition demo_msg1 : Message.t :=
  Message.mk "5000" "h" "🐶" None true None "night falls" 5000.

Definition demo_msg2 : Message.t :=
  Message.mk "5001" "p" "🐱" None false (Some "h") "who died?" 5001.

(** U+00A0, the no-break space. *)
Definition nbsp : string :=
  String (ascii_of_nat 194) (String (ascii_of_nat 160) EmptyString).

Definition demo_sent1 : State :=
  run demo_roleSets
    [PostChat (Some "h") "ABCD" "night falls" None 5000 5000] demo_room.

Definition demo_sent2 : State :=
  run demo_roleSets
    [PostChat (Some "p") "ABCD" "who died?" (Some "h") 5001 5001] demo_sent1.

(** Two messages of the host sent within one millisecond. *)
Definition demo_same_tick : State :=
  run demo_roleSets
    [PostChat (Some "h") "ABCD" "one" None 5000 5000;
     PostChat (Some "h") "ABCD" "two" None 5000 5000] demo_room.

(** A session named [Lucas] next to the room of [h] and [p]. *)
Definition demo_lucas : State :=
  run demo_roleSets
    [GetSession None "l" "🐷"; PostUsername (Some "l") (Some "Lucas")]
    demo_room.

Definition demo_lucas_player : Player.t :=
  Player.mk "l" (Some "Lucas") "🐷" None false.

(** Name and emoji of a player object, and of a stored player. *)
Definition name_emoji (p : Player.t) : option string * string :=
  (Player.username p, Player.emoji p).

Definition profile (st : State) (playerId : PlayerId)
    : option (option string * string) :=
  name_emoji <$> players st !! playerId.

(** ** Request classes *)

(** The cookie of a request whose handler opens with the session
    guard; session creation and the room view have none. *)
Definition cookie_of (req : Request) : option (option PlayerId) :=
  match req with
  | GetSession _ _ _ | GetRoom _ => None
  | PostUsername cookie _ | PostEmoji cookie _ | RoomCreate cookie _ _
  | RoomJoin cookie _ | RoomLeave cookie | PostPlayerOrder cookie _ _
  | PostRoleSet cookie _ _ | PostSelectedRoles cookie _ _
  | AssignRoles cookie _ _ _ | MyRole cookie | Grimoire cookie _
  | ResetRoles cookie _ | KillPlayer cookie _ _ | RevivePlayer cookie _ _
  | MarkDrunk cookie _ _ | UnmarkDrunk cookie _ _
  | PostChat cookie _ _ _ _ _ | GetChat cookie _ => Some cookie
  end.

(** The room code a request names, in the path or, for a join, in the
    body. *)
Definition code_of (req : Request) : option string :=
  match req with
  | RoomJoin _ reqCode | GetRoom reqCode | PostPlayerOrder _ reqCode _
  | PostRoleSet _ reqCode _ | PostSelectedRoles _ reqCode _
  | AssignRoles _ reqCode _ _ | Grimoire _ reqCode | ResetRoles _ reqCode
  | KillPlayer _ reqCode _ | RevivePlayer _ reqCode _
  | MarkDrunk _ reqCode _ | UnmarkDrunk _ reqCode _
  | PostChat _ reqCode _ _ _ _ | GetChat _ reqCode => Some reqCode
  | _ => None
  end.

(** The requests whose handler compares [room.hostId] with the caller
    before anything else. *)
Definition host_only (req : Request) : bool :=
  match req with
  | PostPlayerOrder _ _ _ | PostRoleSet _ _ _ | PostSelectedRoles _ _ _
  | AssignRoles _ _ _ _ | Grimoire _ _ | ResetRoles _ _ | KillPlayer _ _ _
  | RevivePlayer _ _ _ | MarkDrunk _ _ _ | UnmarkDrunk _ _ _ => true
  | _ => false
  end.

(** The [GET] routes over the stores. *)
Definition is_get (req : Request) : bool :=
  match req with
  | GetRoom _ | MyRole _ | Grimoire _ _ | GetChat _ _ => true
  | _ => false
  end.

(** The room of [h], [p] and [q] before and after [p] writes to the
    host. *)
Definition demo_three : State :=
  run demo_roleSets
    [GetSession None "q" "🐭"; RoomJoin (Some "q") "ABCD"] demo_room.

Definition demo_three_sent : State :=
  run demo_roleSets
    [PostChat (Some "p") "ABCD" "who died?" (Some "h") 5001 5001] demo_three.

(** A request with its room code rewritten. *)
Definition with_code (f : string → string) (req : Request) : Request :=
  match req with
  | RoomJoin cookie reqCode => RoomJoin cookie (f reqCode)
  | GetRoom reqCode => GetRoom (f reqCode)
  | PostPlayerOrder cookie reqCode order =>
      PostPlayerOrder cookie (f reqCode) order
  | PostRoleSet cookie reqCode roleSet => PostRoleSet cookie (f reqCode) roleSet
  | PostSelectedRoles cookie reqCode selectedRoles =>
      PostSelectedRoles cookie (f reqCode) selectedRoles
  | AssignRoles cookie reqCode shufflePlayers shuffleRoles =>
      AssignRoles cookie (f reqCode) shufflePlayers shuffleRoles
  | Grimoire cookie reqCode => Grimoire cookie (f reqCode)
  | ResetRoles cookie reqCode => ResetRoles cookie (f reqCode)
  | KillPlayer cookie reqCode target => KillPlayer cookie (f reqCode) target
  | RevivePlayer cookie reqCode target =>
      RevivePlayer cookie (f reqCode) target
  | MarkDrunk cookie reqCode target => MarkDrunk cookie (f reqCode) target
  | UnmarkDrunk cookie reqCode target => UnmarkDrunk cookie (f reqCode) target
  | PostChat cookie reqCode content recipientId nowId nowStamp =>
      PostChat cookie (f reqCode) content recipientId nowId nowStamp
  | GetChat cookie reqCode => GetChat cookie (f reqCode)
  | other => other
  end.

(** ** Tidy stores *)

(** What [POST /api/room/:code/chat] lets into a log: a sender, a
    content that is trimmed, not empty and not too long, and a broadcast
    only from the host. *)
Definition message_sound (msg : Message.t) : Prop :=
  Message.senderId msg ≠ ""
  ∧ Message.content msg ≠ ""
  ∧ trim (Message.content msg) = Message.content msg
  ∧ 0 < js_length (Message.content msg) ≤ 500
  ∧ (Message.recipientId msg = None → Message.isFromHost msg = true).

Record tidy (st : State) : Prop := mk_tidy {
  (** a room is stored under its own code, and its members are stored
      players with a non-empty id *)
  tidy_rooms : ∀ code room,
    rooms st !! code = Some room →
    Room.code room = code
    ∧ ∀ p, p ∈ Room.players room → p ≠ "" ∧ is_Some (players st !! p);
  (** a player is stored under its own id *)
  tidy_players : ∀ p player,
    players st !! p = Some player → Player.id player = p;
  (** the room a player record names is live and lists the player *)
  tidy_pointer : ∀ p player code,
    players st !! p = Some player →
    Player.roomCode player = Some code →
    ∃ room, rooms st !! code = Some room ∧ p ∈ Room.players room;
  (** only live rooms have a seating order, marks or a chat log *)
  tidy_tables : ∀ code,
    rooms st !! code = None →
    deadPlayers st !! code = None
    ∧ drunkPlayers st !! code = None
    ∧ playerOrder st !! code = None
    ∧ chatMessages st !! code = None;
  tidy_chat : ∀ code msgs,
    chatMessages st !! code = Some msgs → Forall message_sound msgs
}.

(** ** Runs with sound oracles *)

(** The alphabet of [generateRoomCode]. *)
Definition letters : string := "ABCDEFGHJKLMNPQRSTUVWXYZ".

Definition is_letter (ch : ascii) : bool :=
  existsb (Ascii.eqb ch) (String.list_ascii_of_string letters).

(** What one run of the [for] loop of [generateRoomCode] builds: four
    characters of [letters]. *)
Definition is_room_code (code : string) : bool :=
  (String.length code =? 4)
  && forallb is_letter (String.list_ascii_of_string code).

(** The outcomes the runtime can hand to a handler in a state: [uuidv4]
    gives a non-empty id that no stored player has, [generateRoomCode]
    draws candidates from its alphabet, and [sort] rearranges the array
    it is given. *)
Definition sound (st : State) (req : Request) : Prop :=
  match req with
  | GetSession _ uuid _ => uuid ≠ "" ∧ players st !! uuid = None
  | RoomCreate _ draws _ => Forall (λ code, is_room_code code = true) draws
  | AssignRoles _ _ shufflePlayers shuffleRoles =>
      (∀ l, shufflePlayers l ≡ₚ l) ∧ (∀ l, shuffleRoles l ≡ₚ l)
  | _ => True
  end.

Section SoundRuns.

Variable roleSets : gmap string RoleSet.t.

(** Every request of the list is sound in the state it meets. *)
Fixpoint sound_run (reqs : list Request) (st : State) : Prop :=
  match reqs with
  | [] => True
  | req :: rest => sound st req ∧ sound_run rest (handle roleSets req st).2
  end.

Inductive sound_reachable : State → Prop :=
  | sound_init : sound_reachable init
  | sound_step st req :
      sound_reachable st → sound st req →
      sound_reachable (handle roleSets req st).2.

End SoundRuns.

(** Each player is in one room at most, the one its record names; the
    host flag of a record says whether the player is the host of that
    room; and only members of a room hold a role. *)
Record single (st : State) : Prop := mk_single {
  single_codes : ∀ code room,
    rooms st !! code = Some room → is_room_code code = true;
  single_member : ∀ code room p,
    rooms st !! code = Some room → p ∈ Room.players room →
    ∃ pl, players st !! p = Some pl ∧ Player.roomCode pl = Some code;
  single_host : ∀ p pl,
    players st !! p = Some pl →
    Player.isHost pl
    = match Player.roomCode pl with
      | Some code =>
          match rooms st !! code with
          | Some room => bool_decide (Room.hostId room = p)
          | None => false
          end
      | None => false
      end;
  single_roles : ∀ p role,
    playerRoles st !! p = Some role →
    ∃ code room, rooms st !! code = Some room ∧ p ∈ Room.players room
}.

(** ** The client: reference distribution and swapping seats *)

Module Distribution.
Record t := mk {
  Townsfolk : nat;
  Outsiders : nat;
  Minions : nat;
  Demons : nat
}.
End Distribution.

(** The table [ROLE_DISTRIBUTION], keyed by player count. *)
Definition ROLE_DISTRIBUTION (playerCount : nat) : option Distribution.t :=
  match playerCount with
  | 5 => Some (Distribution.mk 3 0 1 1)
  | 6 => Some (Distribution.mk 3 1 1 1)
  | 7 => Some (Distribution.mk 5 0 1 1)
  | 8 => Some (Distribution.mk 5 1 1 1)
  | 9 => Some (Distribution.mk 5 2 1 1)
  | 10 => Some (Distribution.mk 7 0 2 1)
  | 11 => Some (Distribution.mk 7 1 2 1)
  | 12 => Some (Distribution.mk 7 2 2 1)
  | 13 => Some (Distribution.mk 9 0 3 1)
  | 14 => Some (Distribution.mk 9 1 3 1)
  | 15 => Some (Distribution.mk 9 2 3 1)
  | _ => None
  end.

(** [getRoleDistribution(playerCount)], for a count of players. *)
Definition getRoleDistribution (playerCount : nat) : option Distribution.t :=
  if playerCount <? 5 then None
  else if 15 <=? playerCount then ROLE_DISTRIBUTION 15
  else ROLE_DISTRIBUTION playerCount.

(** [arr.indexOf(x)]; [None] stands for [-1]. *)
Fixpoint indexOf (l : list string) (x : string) : option nat :=
  match l with
  | [] => None
  | y :: rest =>
      if decide (y = x) then Some 0 else S <$> indexOf rest x
  end.

(** The fields of the client application that [swapPlayers] reads. *)
Module App.
Record t := mk {
  player : option Player.t;
  room : option Room.t;
  playerOrder : list PlayerId;
  roomPlayers : list Player.t
}.
End App.

(** [swapPlayers(playerId1, playerId2)]: the order the client stores in
    [this.playerOrder] and posts to the player-order route, or [None]
    when the method returns before that.  The destructuring assignment
    reads both entries before it writes. *)
Definition swapPlayers (app : App.t) (playerId1 playerId2 : PlayerId)
    : option (list PlayerId) :=
  match App.player app, App.room app with
  | Some me, Some _ =>
      if negb (Player.isHost me) then None
      else
        let currentOrder :=
          if 0 <? length (App.playerOrder app) then App.playerOrder app
          else Player.id <$> App.roomPlayers app in
        match indexOf currentOrder playerId1,
              indexOf currentOrder playerId2 with
        | Some index1, Some index2 =>
            match currentOrder !! index2, currentOrder !! index1 with
            | Some second, Some first =>
                Some (<[index2 := first]> (<[index1 := second]> currentOrder))
            | _, _ => None
            end
        | _, _ => None
        end
  | _, _ => None
  end.

(** The client of the host [h] after it has read the room of [h] and
    [p]. *)
Definition demo_app : App.t :=
  App.mk (Some (Player.mk "h" None "🐶" (Some "ABCD") true))
         (Some demo_lobby_room) ["h"; "p"]
         [Player.mk "h" None "🐶" (Some "ABCD") true;
          Player.mk "p" None "🐱" (Some "ABCD") false].

(** * Properties *)

(** ** Basic facts *)

Lemma session_inv st cookie playerId :
  session st cookie = Some playerId →
  cookie = Some playerId ∧ playerId ≠ "" ∧ is_Some (players st !! playerId).
Proof.
  unfold session, truthy, has. destruct cookie as [c|]; [|done].
  case_bool_decide; simpl; [|done].
  case_bool_decide; [|done].
  intros [= ->]. done.
Qed.

Lemma session_intro st playerId :
  playerId ≠ "" → is_Some (players st !! playerId) →
  session st (Some playerId) = Some playerId.
Proof.
  intros Hne Hin. unfold session, truthy, has.
  rewrite !bool_decide_eq_true_2; done.
Qed.

Lemma includes_true l x : includes l x = true ↔ x ∈ l.
Proof. unfold includes. apply bool_decide_eq_true. Qed.

Lemma includes_false l x : includes l x = false ↔ x ∉ l.
Proof. unfold includes. apply bool_decide_eq_false. Qed.

Lemma has_true {V} (m : gmap string V) k : has m k = true ↔ is_Some (m !! k).
Proof. unfold has. apply bool_decide_eq_true. Qed.

Lemma has_false {V} (m : gmap string V) k : has m k = false ↔ m !! k = None.
Proof.
  unfold has. rewrite bool_decide_eq_false, eq_None_not_Some. done.
Qed.

(** ** Preservation of well-formedness *)

Lemma wf_init : wf init.
Proof. split; intros ? ?; simpl; rewrite lookup_empty; done. Qed.

(** A handler that leaves the room registry and the chat log alone
    keeps the stores well formed. *)
Lemma wf_same st st' :
  rooms st' = rooms st → chatMessages st' = chatMessages st →
  wf st → wf st'.
Proof. intros Hr Hc [W1 W2]. split; rewrite ?Hr, ?Hc; done. Qed.

Lemma wf_with_players f st : wf st → wf (with_players f st).
Proof. by apply wf_same. Qed.

Lemma wf_with_playerRoles f st : wf st → wf (with_playerRoles f st).
Proof. by apply wf_same. Qed.

Lemma wf_with_deadPlayers f st : wf st → wf (with_deadPlayers f st).
Proof. by apply wf_same. Qed.

Lemma wf_with_drunkPlayers f st : wf st → wf (with_drunkPlayers f st).
Proof. by apply wf_same. Qed.

Lemma wf_with_playerOrder f st : wf st → wf (with_playerOrder f st).
Proof. by apply wf_same. Qed.

Lemma wf_insert_room st code room :
  room_ok room → wf st → wf (with_rooms (insert code room) st).
Proof.
  intros Hok [W1 W2]. split; simpl; [|done].
  intros c r [[<- <-]|[_ Hc]]%lookup_insert_Some; [done | by eapply W1].
Qed.

Lemma room_ok_remaining room playerId first rest :
  room_ok room →
  filter (λ id, id ≠ playerId) (Room.players room) = first :: rest →
  room_ok (Room.set_hostId first
             (Room.set_players (first :: rest) room))
  ∧ (Room.hostId room ≠ playerId →
     room_ok (Room.set_players (first :: rest) room)).
Proof.
  intros [Hhost Hnd] Hf. unfold room_ok; simpl.
  assert (NoDup (first :: rest)) by (rewrite <- Hf; by apply NoDup_filter).
  split; [split; [left | done]|].
  intros Hne. split; [|done].
  rewrite <- Hf. apply list_elem_of_filter. done.
Qed.

Lemma leaveRoom_wf playerId roomCode st :
  wf st → wf (leaveRoom playerId roomCode st).
Proof.
  intros W. unfold leaveRoom.
  destruct (rooms st !! roomCode) as [room|] eqn:Hroom; [|done].
  pose proof (wf_rooms _ W _ _ Hroom) as Hok.
  destruct (filter _ (Room.players room)) as [|first rest] eqn:Hf.
  - destruct W as [W1 W2]. split; simpl.
    + intros c r [_ Hc]%lookup_delete_Some. by eapply W1.
    + intros c r [_ Hc]%lookup_delete_Some. by eapply W2.
  - destruct (room_ok_remaining _ _ _ _ Hok Hf) as [Hh Hn].
    case_decide.
    + apply wf_insert_room; [done|].
      by apply wf_with_players, wf_with_playerRoles, wf_with_players.
    + apply wf_insert_room; [by apply Hn|].
      by apply wf_with_playerRoles, wf_with_players.
Qed.

Lemma leave_current_wf playerId st : wf st → wf (leave_current playerId st).
Proof.
  intros W. unfold leave_current.
  destruct (players st !! playerId) as [player|]; [|done].
  destruct (Player.roomCode player) as [rc|]; [|done].
  destruct (truthy rc && has (rooms st) rc); [|done].
  by apply leaveRoom_wf.
Qed.

Lemma room_create_wf cookie draws now st :
  wf st → wf (room_create cookie draws now st).2.
Proof.
  intros W. unfold room_create.
  destruct (session st cookie) as [playerId|]; [|done].
  pose proof (leave_current_wf playerId st W) as W1.
  destruct (generateRoomCode _ _) as [roomCode|]; simpl.
  - apply wf_with_players, wf_insert_room.
    + split; simpl; [left | apply NoDup_singleton].
    + by apply wf_with_players.
  - by apply wf_with_players.
Qed.

Lemma room_join_wf cookie roomCode st :
  wf st → wf (room_join cookie roomCode st).2.
Proof.
  intros W. unfold room_join.
  destruct (session st cookie) as [playerId|]; [|done].
  destruct (negb (has (rooms st) (toUpperCase roomCode))); [done|].
  pose proof (leave_current_wf playerId st W) as W1.
  set (st2 := with_players _ (leave_current playerId st)).
  assert (wf st2) as W2 by (by apply wf_with_players).
  destruct (rooms st2 !! toUpperCase roomCode) as [room|] eqn:Hroom;
    simpl; [|done].
  apply wf_with_players, wf_insert_room; [|done].
  destruct (wf_rooms _ W2 _ _ Hroom) as [Hh Hnd].
  destruct (includes (Room.players room) playerId) eqn:Hin; simpl;
    [done|].
  apply includes_false in Hin.
  split; simpl.
  - apply elem_of_app. by left.
  - apply NoDup_app. split_and!; [done | | apply NoDup_singleton].
    intros x Hx ->%list_elem_of_singleton. done.
Qed.

Lemma wf_delete_chat st code :
  wf st → wf (with_chatMessages (delete code) st).
Proof.
  intros [W1 W2]. split; simpl; [done|].
  intros c msgs [_ Hc]%lookup_delete_Some. by eapply W2.
Qed.

Lemma room_ok_same room room' :
  Room.hostId room' = Room.hostId room →
  Room.players room' = Room.players room →
  room_ok room → room_ok room'.
Proof. unfold room_ok. intros -> ->. done. Qed.

Create HintDb wf_db.
#[local] Hint Resolve wf_with_players wf_with_playerRoles wf_with_deadPlayers
  wf_with_drunkPlayers wf_with_playerOrder wf_delete_chat wf_insert_room
  leave_current_wf : wf_db.

(** Splits a handler along its guards: the session, the room lookup
    and the remaining tests. *)
Ltac guards :=
  repeat match goal with
  | |- context [match session ?st ?c with _ => _ end] =>
      destruct (session st c) as [?playerId|] eqn:?Hsess
  | |- context [match rooms ?st !! ?c with _ => _ end] =>
      destruct (rooms st !! c) as [?room|] eqn:?Hroom
  | |- context [if decide ?P then _ else _] => destruct (decide P)
  | |- context [if ?b then _ else _] => destruct b eqn:?Hguard
  | |- context [match ?o with Some _ => _ | None => _ end] =>
      destruct o eqn:?Hopt
  end; simpl.

Lemma or_null_ok recipientId : or_null recipientId ≠ Some "".
Proof.
  unfold or_null, truthy_opt, truthy.
  destruct recipientId as [r|]; [|done].
  case_bool_decide; congruence.
Qed.

Lemma post_chat_wf cookie reqCode content recipientId nowId nowStamp st :
  wf st →
  wf (post_chat cookie reqCode content recipientId nowId nowStamp st).2.
Proof.
  intros W. unfold post_chat. guards; try done.
  destruct W as [W1 W2]. split; simpl; [done|].
  intros c msgs [[<- <-]|[_ Hc]]%lookup_insert_Some; [|by eapply W2].
  apply Forall_app. split.
  - destruct (chatMessages st !! toUpperCase reqCode) as [old|] eqn:Hold;
      simpl; [by eapply W2 | constructor].
  - repeat constructor. unfold message_ok; simpl. apply or_null_ok.
Qed.

Lemma handle_wf roleSets req st : wf st → wf (handle roleSets req st).2.
Proof.
  intros W. destruct req; simpl.
  - unfold get_session. guards; auto with wf_db.
  - unfold post_username. guards; auto with wf_db.
  - unfold post_emoji. guards; auto with wf_db.
  - by apply room_create_wf.
  - by apply room_join_wf.
  - unfold room_leave. guards; auto with wf_db.
  - unfold get_room. guards; auto.
  - unfold post_player_order. guards; auto with wf_db.
  - unfold post_role_set. guards; auto.
    apply wf_insert_room; [|done].
    eapply room_ok_same; [..|by eapply wf_rooms]; done.
  - unfold post_selected_roles. guards; auto;
      (apply wf_insert_room; [|done]);
      (eapply room_ok_same; [..|by eapply wf_rooms]; done).
  - unfold assign_roles. guards; auto.
    apply wf_insert_room; [|auto with wf_db].
    eapply room_ok_same; [..|by eapply wf_rooms]; done.
  - unfold my_role. guards; auto.
  - unfold grimoire. guards; auto.
  - unfold reset_roles. guards; auto.
    apply wf_insert_room; [|auto 7 with wf_db].
    eapply room_ok_same; [..|by eapply wf_rooms]; done.
  - unfold kill_player. guards; auto with wf_db.
  - unfold revive_player. guards; auto with wf_db.
  - unfold mark_drunk. guards; auto with wf_db.
  - unfold unmark_drunk. guards; auto with wf_db.
  - by apply post_chat_wf.
  - unfold get_chat. guards; auto.
Qed.

Lemma reachable_wf roleSets st : reachable roleSets st → wf st.
Proof.
  induction 1 as [|st req _ IH]; [apply wf_init | by apply handle_wf].
Qed.

Lemma run_reachable roleSets reqs st :
  reachable roleSets st → reachable roleSets (run roleSets reqs st).
Proof.
  revert st. induction reqs as [|req reqs IH]; intros st R; [done|].
  simpl. apply IH. by constructor.
Defined.

(** ** The host is a member *)

(** C4: in every state reachable by any sequence of requests, a room of
    the registry that has a member has its host among its members. *)
Theorem host_is_member roleSets st code room :
  reachable roleSets st →
  rooms st !! code = Some room →
  Room.players room ≠ [] →
  Room.hostId room ∈ Room.players room.
Proof.
  intros R Hroom _.
  by destruct (wf_rooms _ (reachable_wf _ _ R) _ _ Hroom).
Qed.

Lemma host_is_member_witness :
  ∃ room, rooms demo_room !! "ABCD" = Some room
          ∧ Room.hostId room ∈ Room.players room.
Proof.
  eexists. split; [vm_compute; reflexivity|].
  apply (host_is_member demo_roleSets demo_room "ABCD").
  - apply run_reachable, reachable_init.
  - vm_compute; reflexivity.
  - discriminate.
Defined.

(** A registered room is never empty, so the premise of a non-empty
    member list holds for every room of a reachable state. *)
Lemma reachable_room_nonempty roleSets st code room :
  reachable roleSets st →
  rooms st !! code = Some room → Room.players room ≠ [].
Proof.
  intros R Hroom Hnil.
  destruct (wf_rooms _ (reachable_wf _ _ R) _ _ Hroom) as [Hh _].
  rewrite Hnil in Hh. by apply not_elem_of_nil in Hh.
Qed.

(** ** Role assignment *)

Lemma clear_roles_lookup members pr q :
  clear_roles members pr !! q = if decide (q ∈ members) then None else pr !! q.
Proof.
  unfold clear_roles. revert pr.
  induction members as [|m members IH]; intros pr; simpl.
  - destruct (decide (q ∈ [])) as [H|_]; [by apply not_elem_of_nil in H | done].
  - rewrite IH. destruct (decide (q ∈ members)) as [Hin|Hnin].
    + rewrite decide_True; [done | by right].
    + destruct (decide (q = m)) as [->|Hne].
      * rewrite decide_True; [|by left]. apply lookup_delete_eq.
      * rewrite decide_False.
        -- by apply lookup_delete_ne.
        -- intros [?|?]%elem_of_cons; done.
Qed.

(** The first [n] turns of the pairing loop. *)
Lemma assign_loop_spec shuffledPlayers shuffledRoles pr n :
  NoDup shuffledPlayers →
  length shuffledPlayers = length shuffledRoles →
  n ≤ length shuffledRoles →
  let res := foldl (assign_at shuffledPlayers shuffledRoles) pr (seq 0 n) in
  (∀ i pid, i < n → shuffledPlayers !! i = Some pid →
            res !! pid = shuffledRoles !! i)
  ∧ (∀ q, q ∉ shuffledPlayers → res !! q = pr !! q).
Proof.
  intros Hnd Hlen. induction n as [|n IH]; intros Hn.
  - simpl. split; [lia | done].
  - rewrite seq_S, foldl_app; simpl.
    destruct IH as [IHa IHb]; [lia|].
    set (res := foldl _ pr (seq 0 n)) in *.
    destruct (lookup_lt_is_Some_2 shuffledPlayers n) as [pn Hpn]; [lia|].
    destruct (lookup_lt_is_Some_2 shuffledRoles n) as [rn Hrn]; [lia|].
    unfold assign_at. rewrite Hpn, Hrn. split.
    + intros i pid Hi Hpid. destruct (decide (i = n)) as [->|Hne].
      * assert (pid = pn) as -> by congruence.
        rewrite lookup_insert_eq. done.
      * rewrite lookup_insert_ne; [apply IHa; [lia | done]|].
        intros ->. apply Hne. symmetry.
        by eapply NoDup_lookup.
    + intros q Hq. rewrite lookup_insert_ne; [by apply IHb|].
      intros ->. apply Hq. by eapply list_elem_of_lookup_2.
Qed.

(** C1: in a reachable state, when the host of a room with a non-empty
    role selection calls assign-roles and the number of non-host members
    equals the number of selected roles, the call succeeds; the shuffled
    members are paired position by position with the shuffled roles, so
    every non-host member holds a role, the roles held by the non-host
    members are the selected roles, each entry once, and the host holds
    none.  Each shuffle rearranges its array. *)
Theorem assign_roles_bijection roleSets st cookie reqCode room
    shufflePlayers shuffleRoles :
  reachable roleSets st →
  session st cookie = Some (Room.hostId room) →
  rooms st !! toUpperCase reqCode = Some room →
  Room.selectedRoles room ≠ [] →
  length (filter (λ pid, pid ≠ Room.hostId room) (Room.players room))
    = length (Room.selectedRoles room) →
  (∀ l, shufflePlayers l ≡ₚ l) →
  (∀ l, shuffleRoles l ≡ₚ l) →
  let eligiblePlayers :=
    filter (λ pid, pid ≠ Room.hostId room) (Room.players room) in
  let shuffledPlayers := shufflePlayers eligiblePlayers in
  let shuffledRoles := shuffleRoles (Room.selectedRoles room) in
  let out := assign_roles cookie reqCode shufflePlayers shuffleRoles st in
  out.1 = AssignedJson (length (Room.selectedRoles room))
  ∧ (∀ i pid, shuffledPlayers !! i = Some pid →
              playerRoles out.2 !! pid = shuffledRoles !! i)
  ∧ (∀ pid, pid ∈ Room.players room → pid ≠ Room.hostId room →
            is_Some (playerRoles out.2 !! pid))
  ∧ (λ pid, playerRoles out.2 !! pid) <$> eligiblePlayers
      ≡ₚ Some <$> Room.selectedRoles room
  ∧ playerRoles out.2 !! Room.hostId room = None
  ∧ Room.rolesAssigned <$> rooms out.2 !! toUpperCase reqCode = Some true.
Proof.
  intros R Hsess Hroom Hsel Hcount HP HR eligible sp sr out.
  destruct (wf_rooms _ (reachable_wf _ _ R) _ _ Hroom) as [Hhost Hnd].
  assert (NoDup sp) as Hndsp.
  { unfold sp. rewrite HP. by apply NoDup_filter. }
  assert (length sp = length sr) as Hlen.
  { unfold sp, sr. by rewrite HP, HR. }
  destruct (assign_loop_spec sp sr
              (clear_roles (Room.players room) (playerRoles st))
              (length sr) Hndsp Hlen (le_n _)) as [Hpos Hout].
  assert (out = (AssignedJson (length sr),
                 with_rooms (insert (toUpperCase reqCode)
                               (Room.set_rolesAssigned true room))
                   (with_playerRoles
                      (λ _, foldl (assign_at sp sr)
                              (clear_roles (Room.players room)
                                           (playerRoles st))
                              (seq 0 (length sr))) st))) as ->.
  { unfold out, assign_roles. rewrite Hsess, Hroom.
    rewrite decide_False by (intros H; by apply H).
    assert ((length (Room.selectedRoles room) =? 0) = false) as ->.
    { apply Nat.eqb_neq. by destruct (Room.selectedRoles room). }
    rewrite Hcount, Nat.eqb_refl. reflexivity. }
  simpl.
  assert (∀ i pid, sp !! i = Some pid →
            foldl (assign_at sp sr)
              (clear_roles (Room.players room) (playerRoles st))
              (seq 0 (length sr)) !! pid = sr !! i) as Hpos'.
  { intros i pid Hi. apply Hpos; [|done].
    rewrite <- Hlen. by eapply lookup_lt_Some. }
  split_and!.
  - unfold sr. by rewrite HR.
  - exact Hpos'.
  - intros pid Hin Hne.
    assert (pid ∈ sp) as [i Hi]%list_elem_of_lookup_1.
    { unfold sp. rewrite HP. apply list_elem_of_filter. done. }
    rewrite (Hpos' _ _ Hi). apply lookup_lt_is_Some_2.
    rewrite <- Hlen. by eapply lookup_lt_Some.
  - transitivity ((λ pid, foldl (assign_at sp sr)
              (clear_roles (Room.players room) (playerRoles st))
              (seq 0 (length sr)) !! pid) <$> sp).
    { apply fmap_Permutation. symmetry. apply HP. }
    transitivity (Some <$> sr); [|apply fmap_Permutation, HR].
    apply reflexive_eq, list_eq. intros i.
    rewrite !list_lookup_fmap.
    destruct (sp !! i) as [pid|] eqn:Hi; simpl.
    + rewrite (Hpos' _ _ Hi).
      destruct (sr !! i) eqn:Hr; [done|].
      apply lookup_ge_None in Hr. apply lookup_lt_Some in Hi. lia.
    + apply lookup_ge_None in Hi.
      rewrite (proj2 (lookup_ge_None sr i)); [done | lia].
  - rewrite Hout.
    + rewrite clear_roles_lookup. by rewrite decide_True.
    + unfold sp. rewrite HP. intros [? _]%list_elem_of_filter. done.
  - by rewrite lookup_insert_eq.
Qed.

Lemma assign_roles_bijection_witness :
  let out := assign_roles (Some "h") "ABCD" reverse reverse demo_selected in
  out.1 = AssignedJson 1
  ∧ playerRoles out.2 !! "p" = Some (Role.mk "Chef" "cooks" "Townsfolk")
  ∧ playerRoles out.2 !! "h" = None.
Proof.
  destruct (assign_roles_bijection demo_roleSets demo_selected (Some "h")
              "ABCD" demo_selected_room reverse reverse)
    as (Hreply & Hpos & _ & _ & Hhost & _).
  - apply run_reachable, run_reachable, reachable_init.
  - vm_compute; reflexivity.
  - vm_compute; reflexivity.
  - discriminate.
  - vm_compute; reflexivity.
  - intros l. apply reverse_Permutation.
  - intros l. apply reverse_Permutation.
  - split_and!; [exact Hreply | | exact Hhost].
    apply (Hpos 0 "p"). vm_compute; reflexivity.
Defined.

(** C2: when the host calls assign-roles with a non-empty selection whose
    size differs from the number of non-host members, the call is
    rejected with status 400 and the message naming both counts, and the
    stores, the player-to-role mapping among them, are what they were. *)
Theorem assign_roles_count_mismatch st cookie reqCode room
    shufflePlayers shuffleRoles :
  session st cookie = Some (Room.hostId room) →
  rooms st !! toUpperCase reqCode = Some room →
  Room.selectedRoles room ≠ [] →
  length (filter (λ pid, pid ≠ Room.hostId room) (Room.players room))
    ≠ length (Room.selectedRoles room) →
  let nplayers :=
    length (filter (λ pid, pid ≠ Room.hostId room) (Room.players room)) in
  let nroles := length (Room.selectedRoles room) in
  let out := assign_roles cookie reqCode shufflePlayers shuffleRoles st in
  out.1 = Err 400 ("Role count must match player count. You have "
                   +:+ pretty nplayers +:+ " players but "
                   +:+ pretty nroles +:+ " roles selected.")
  ∧ out.2 = st
  ∧ ∀ pid, playerRoles out.2 !! pid = playerRoles st !! pid.
Proof.
  intros Hsess Hroom Hsel Hcount nplayers nroles out.
  assert (out = (Err 400 (count_mismatch nplayers nroles), st)) as ->.
  { unfold out, assign_roles. rewrite Hsess, Hroom.
    rewrite decide_False by (intros H; by apply H).
    assert ((length (Room.selectedRoles room) =? 0) = false) as ->.
    { apply Nat.eqb_neq. by destruct (Room.selectedRoles room). }
    apply Nat.eqb_neq in Hcount. rewrite Hcount. reflexivity. }
  done.
Qed.

Lemma assign_roles_count_mismatch_witness :
  assign_roles (Some "h") "ABCD" reverse reverse demo_two_roles
  = (Err 400 "Role count must match player count. You have 1 players but 2 roles selected.",
     demo_two_roles).
Proof.
  destruct (assign_roles_count_mismatch demo_two_roles (Some "h") "ABCD"
              demo_two_roles_room reverse reverse) as (Hreply & Hst & _).
  - vm_compute; reflexivity.
  - vm_compute; reflexivity.
  - discriminate.
  - vm_compute. lia.
  - apply injective_projections; [exact Hreply | exact Hst].
Defined.

(** ** Leaving a room *)

Lemma remaining_nonempty (members : list string) playerId :
  NoDup members → 2 ≤ length members →
  filter (λ id, id ≠ playerId) members ≠ [].
Proof.
  intros Hnd Hlen Hnil.
  destruct members as [|a [|b rest]]; simpl in Hlen; [lia..|].
  assert (a ≠ b) as Hab.
  { apply NoDup_cons in Hnd as [Ha _]. intros ->. apply Ha. left. }
  assert (∀ x, x ∈ a :: b :: rest → x = playerId) as Hall.
  { intros x Hx. destruct (decide (x = playerId)) as [|Hne]; [done|].
    assert (x ∈ filter (λ id, id ≠ playerId) (a :: b :: rest)) as Hin
      by (by apply list_elem_of_filter).
    rewrite Hnil in Hin. by apply not_elem_of_nil in Hin. }
  apply Hab. rewrite (Hall a), (Hall b); [done | right; left | left].
Qed.

(** C3: in a reachable state, when the host of a room with at least two
    members leaves, the room stays and its host becomes the member at
    index 0 of the member list without the leaver; when the only member
    leaves, the room and its seating order, dead set, drunk set and chat
    log are deleted, and a later join with that code by any session is
    rejected with 404 "Room not found". *)
Theorem leaveRoom_transfer_or_delete roleSets st code room playerId :
  reachable roleSets st →
  rooms st !! code = Some room →
  let st' := leaveRoom playerId code st in
  (Room.hostId room = playerId → 2 ≤ length (Room.players room) →
   ∃ room', rooms st' !! code = Some room'
     ∧ Room.players room'
       = filter (λ id, id ≠ playerId) (Room.players room)
     ∧ Room.players room' !! 0 = Some (Room.hostId room'))
  ∧ (Room.players room = [playerId] →
     rooms st' !! code = None
     ∧ playerOrder st' !! code = None
     ∧ deadPlayers st' !! code = None
     ∧ drunkPlayers st' !! code = None
     ∧ chatMessages st' !! code = None
     ∧ ∀ cookie joiner roomCode,
         session st' cookie = Some joiner →
         toUpperCase roomCode = code →
         room_join cookie roomCode st' = (Err 404 "Room not found", st')).
Proof.
  intros R Hroom st'.
  destruct (wf_rooms _ (reachable_wf _ _ R) _ _ Hroom) as [Hhost Hnd].
  split.
  - intros Hh Hlen. unfold st', leaveRoom. rewrite Hroom.
    pose proof (remaining_nonempty _ playerId Hnd Hlen) as Hne.
    destruct (filter _ (Room.players room)) as [|first rest]; [done|].
    rewrite decide_True by done. simpl.
    rewrite lookup_insert_eq. eexists. split; [done|]. done.
  - intros Hps.
    assert (st' = with_chatMessages (delete code)
            (with_playerOrder (delete code)
              (with_drunkPlayers (delete code)
                (with_deadPlayers (delete code)
                  (with_rooms (delete code)
                    (with_playerRoles (delete playerId)
                      (with_players
                        (alter (λ p, Player.set_isHost false
                                       (Player.set_roomCode None p))
                               playerId) st))))))) as Hst'.
    { unfold st', leaveRoom. rewrite Hroom, Hps.
      rewrite filter_cons_False by (intros H; by apply H). done. }
    assert (rooms st' !! code = None) as Hgone
      by (rewrite Hst'; apply lookup_delete_eq).
    split_and!; try (rewrite Hst'; apply lookup_delete_eq).
    intros cookie joiner roomCode Hsess Hcode. unfold room_join.
    rewrite Hsess, Hcode.
    rewrite (proj2 (has_false _ _) Hgone). done.
Qed.

Lemma leaveRoom_transfer_or_delete_witness :
  (Room.hostId <$> rooms (leaveRoom "h" "ABCD" demo_room) !! "ABCD"
   = Some "p")
  ∧ room_join (Some "p") "abcd" (leaveRoom "h" "ABCD" demo_solo)
    = (Err 404 "Room not found", leaveRoom "h" "ABCD" demo_solo).
Proof.
  split.
  - destruct (leaveRoom_transfer_or_delete demo_roleSets demo_room "ABCD"
                demo_lobby_room "h") as [Htransfer _].
    + apply run_reachable, reachable_init.
    + vm_compute; reflexivity.
    + destruct Htransfer as (room' & -> & Hps & Hhd);
        [reflexivity | simpl; lia |].
      rewrite Hps in Hhd. simpl. symmetry. exact Hhd.
  - destruct (leaveRoom_transfer_or_delete demo_roleSets demo_solo "ABCD"
                demo_solo_room "h") as [_ Hdelete].
    + apply run_reachable, reachable_init.
    + vm_compute; reflexivity.
    + destruct Hdelete as (_ & _ & _ & _ & _ & Hjoin); [reflexivity|].
      apply (Hjoin (Some "p") "p" "abcd"); vm_compute; reflexivity.
Defined.

(** ** Joining the room one is in *)

(** C5: a member who joins the room they are in is first taken out of it
    by [leaveRoom] and then added at the end.  With two members [h]
    (host) and [p], the host's second join turns the member list
    [h; p] into [p; h] and makes [p] the host; the second join of [p]
    after the deal deletes the role of [p]; the second join of the only
    member deletes the room and the handler throws. *)
Theorem rejoin_is_leave_then_join :
  (Room.players <$> rooms demo_room !! "ABCD" = Some ["h"; "p"]
   ∧ Room.hostId <$> rooms demo_room !! "ABCD" = Some "h"
   ∧ let st' := (room_join (Some "h") "ABCD" demo_room).2 in
     Room.players <$> rooms st' !! "ABCD" = Some ["p"; "h"]
     ∧ Room.hostId <$> rooms st' !! "ABCD" = Some "p")
  ∧ (playerRoles demo_assigned !! "p"
       = Some (Role.mk "Chef" "cooks" "Townsfolk")
     ∧ playerRoles (room_join (Some "p") "ABCD" demo_assigned).2 !! "p"
       = None)
  ∧ (Room.players <$> rooms demo_solo !! "ABCD" = Some ["h"]
     ∧ (room_join (Some "h") "ABCD" demo_solo).1 = Threw
     ∧ rooms (room_join (Some "h") "ABCD" demo_solo).2 !! "ABCD" = None).
Proof. vm_compute. done. Qed.

(** ** Seating order *)

Lemma filter_ext_elem (P Q : string → Prop)
    `{!∀ x, Decision (P x), !∀ x, Decision (Q x)} (l : list string) :
  (∀ x, x ∈ l → P x ↔ Q x) → filter P l = filter Q l.
Proof.
  induction l as [|a l IH]; intros Hiff; [done|].
  assert (filter P l = filter Q l) as Hl.
  { apply IH. intros x Hx. apply Hiff. by right. }
  destruct (decide (P a)) as [Ha|Ha].
  - rewrite !filter_cons_True; [by rewrite Hl | | done].
    apply Hiff; [left | done].
  - rewrite !filter_cons_False; [done | | done].
    intros HQ. apply Ha, Hiff; [left | done].
Qed.

Lemma finalOrder_spec stored members :
  NoDup members →
  let ordered := default members stored in
  let order := finalOrder stored members in
  let appended := filter (λ id, id ∉ ordered) members in
  order = filter (λ id, id ∈ members) ordered ++ appended
  ∧ (∀ x, x ∈ order ↔ x ∈ members)
  ∧ NoDup appended
  ∧ (NoDup ordered → NoDup order ∧ order ≡ₚ members).
Proof.
  intros Hnd ordered order appended.
  assert (order = filter (λ id, id ∈ members) ordered ++ appended) as Heq.
  { unfold order, finalOrder. fold ordered. f_equal.
    - apply list_filter_iff. intros x. apply includes_true.
    - apply filter_ext_elem. intros x Hx.
      rewrite includes_false, list_elem_of_filter, includes_true.
      tauto. }
  assert (∀ x, x ∈ order ↔ x ∈ members) as Hmem.
  { intros x. rewrite Heq, elem_of_app. unfold appended.
    rewrite !list_elem_of_filter.
    destruct (decide (x ∈ ordered)); tauto. }
  split_and!; [done | done | by apply NoDup_filter |].
  intros Hord. assert (NoDup order) as Hno.
  { rewrite Heq. apply NoDup_app. split_and!.
    - by apply NoDup_filter.
    - unfold appended. intros x.
      rewrite !list_elem_of_filter. tauto.
    - by apply NoDup_filter. }
  split; [done|]. by apply NoDup_Permutation.
Qed.

(** C6, as the code has it: in a reachable state the order returned with
    the room holds the current members and nobody else.  It is the
    stored order (the member list when none is stored) cut down to the
    current members, in stored order and with the repeats the stored
    order has, followed by the members the stored order does not name,
    each once and in membership order.  When the stored order names
    nobody twice, every current member occurs exactly once. *)
Theorem effective_order_members roleSets st reqCode room :
  reachable roleSets st →
  rooms st !! toUpperCase reqCode = Some room →
  let members := Room.players room in
  let ordered :=
    default members (playerOrder st !! toUpperCase reqCode) in
  ∃ name roomPlayers order setRoles,
    get_room roleSets reqCode st
      = (RoomDataJson room name roomPlayers order setRoles, st)
    ∧ order = filter (λ id, id ∈ members) ordered
              ++ filter (λ id, id ∉ ordered) members
    ∧ (∀ x, x ∈ order ↔ x ∈ members)
    ∧ NoDup (filter (λ id, id ∉ ordered) members)
    ∧ (NoDup ordered → NoDup order ∧ order ≡ₚ members).
Proof.
  intros R Hroom members ordered.
  destruct (wf_rooms _ (reachable_wf _ _ R) _ _ Hroom) as [_ Hnd].
  unfold get_room. rewrite Hroom.
  do 4 eexists. split; [reflexivity|].
  apply (finalOrder_spec (playerOrder st !! toUpperCase reqCode)
           (Room.players room) Hnd).
Qed.

Lemma effective_order_members_witness :
  ∃ name roomPlayers setRoles,
    get_room demo_roleSets "abcd" demo_room
    = (RoomDataJson demo_lobby_room name roomPlayers ["h"; "p"] setRoles,
       demo_room).
Proof.
  destruct (effective_order_members demo_roleSets demo_room "abcd"
              demo_lobby_room)
    as (name & roomPlayers & order & setRoles & Hreply & Horder & _).
  - apply run_reachable, reachable_init.
  - vm_compute; reflexivity.
  - exists name, roomPlayers, setRoles. rewrite Hreply, Horder.
    reflexivity.
Defined.

(** C6 as stated fails: the reorder handler keeps the repeats of the
    order it is sent, so after the host stores [p; p] the order returned
    for the room of [h] and [p] names [p] twice. *)
Lemma effective_order_repeats_member :
  reachable demo_roleSets demo_repeat
  ∧ Room.players <$> rooms demo_repeat !! "ABCD" = Some ["h"; "p"]
  ∧ (∃ room name roomPlayers setRoles,
       get_room demo_roleSets "ABCD" demo_repeat
       = (RoomDataJson room name roomPlayers ["p"; "p"; "h"] setRoles,
          demo_repeat))
  ∧ ¬ NoDup ["p"; "p"; "h"].
Proof.
  split_and!.
  - apply run_reachable, run_reachable, reachable_init.
  - vm_compute; reflexivity.
  - do 4 eexists. vm_compute. reflexivity.
  - intros [Hp _]%NoDup_cons. apply Hp. left.
Qed.

(** ** Status overlays *)

(** The two marking handlers test the target against the member list
    before they touch a set. *)
Lemma kill_mark_reject_non_member st cookie reqCode room targetPlayerId :
  session st cookie = Some (Room.hostId room) →
  rooms st !! toUpperCase reqCode = Some room →
  targetPlayerId ∉ Room.players room →
  kill_player cookie reqCode targetPlayerId st
    = (Err 400 "Player not in room", st)
  ∧ mark_drunk cookie reqCode targetPlayerId st
    = (Err 400 "Player not in room", st).
Proof.
  intros Hsess Hroom Hout%includes_false.
  unfold kill_player, mark_drunk. rewrite Hsess, Hroom.
  rewrite !decide_False by (intros H; by apply H).
  by rewrite Hout.
Qed.

(** The two unmarking handlers have no such test: for the host they
    always answer with success. *)
Lemma revive_unmark_accept_any_target st cookie reqCode room targetPlayerId :
  session st cookie = Some (Room.hostId room) →
  rooms st !! toUpperCase reqCode = Some room →
  revive_player cookie reqCode targetPlayerId st
    = (SuccessJson,
       with_deadPlayers (set_remove (toUpperCase reqCode) targetPlayerId) st)
  ∧ unmark_drunk cookie reqCode targetPlayerId st
    = (SuccessJson,
       with_drunkPlayers (set_remove (toUpperCase reqCode) targetPlayerId)
                         st).
Proof.
  intros Hsess Hroom. unfold revive_player, unmark_drunk.
  rewrite Hsess, Hroom.
  by rewrite !decide_False by (intros H; by apply H).
Qed.

(** C7: [p] was marked dead and drunk and has left the room of host [h].
    With target [p], who is not a member, kill-player and mark-drunk
    answer 400 "Player not in room" and change nothing, but
    revive-player and unmark-drunk answer with success and take [p] out
    of the dead set and of the drunk set. *)
Theorem revive_unmark_skip_member_check :
  Room.players <$> rooms demo_left_marked !! "ABCD" = Some ["h"]
  ∧ deadPlayers demo_left_marked !! "ABCD" = Some {["p"]}
  ∧ drunkPlayers demo_left_marked !! "ABCD" = Some {["p"]}
  ∧ kill_player (Some "h") "ABCD" "p" demo_left_marked
    = (Err 400 "Player not in room", demo_left_marked)
  ∧ mark_drunk (Some "h") "ABCD" "p" demo_left_marked
    = (Err 400 "Player not in room", demo_left_marked)
  ∧ (revive_player (Some "h") "ABCD" "p" demo_left_marked).1 = SuccessJson
  ∧ deadPlayers (revive_player (Some "h") "ABCD" "p" demo_left_marked).2
      !! "ABCD" = Some ∅
  ∧ (unmark_drunk (Some "h") "ABCD" "p" demo_left_marked).1 = SuccessJson
  ∧ drunkPlayers (unmark_drunk (Some "h") "ABCD" "p" demo_left_marked).2
      !! "ABCD" = Some ∅.
Proof. vm_compute. done. Qed.

(** ** Chat history *)

Lemma visible_broadcast playerId msg :
  Message.recipientId msg = None → visible playerId msg = true.
Proof. unfold visible. by intros ->. Qed.

Lemma visible_directed playerId msg recipient :
  message_ok msg →
  Message.recipientId msg = Some recipient →
  visible playerId msg = true
  ↔ recipient = playerId ∨ Message.senderId msg = playerId.
Proof.
  unfold message_ok, visible. intros Hok Hrec. rewrite Hrec in *.
  assert (truthy recipient = true) as Ht.
  { unfold truthy. apply bool_decide_eq_true. congruence. }
  simpl. rewrite Ht. simpl.
  rewrite orb_true_iff, !bool_decide_eq_true. split.
  - intros [[= ->]|?]; auto.
  - intros [->|?]; auto.
Qed.

(** C8: in a reachable state, the history returned to a member of the
    room is the room's log in send order without the messages hidden
    from the viewer: it holds every broadcast message (recipient null),
    it holds a directed message whenever the viewer is its sender or
    its recipient, and it holds no other directed message. *)
Theorem chat_history_visibility roleSets st cookie viewer reqCode room :
  reachable roleSets st →
  session st cookie = Some viewer →
  rooms st !! toUpperCase reqCode = Some room →
  viewer ∈ Room.players room →
  let allMessages := default [] (chatMessages st !! toUpperCase reqCode) in
  ∃ history,
    get_chat cookie reqCode st = (MessagesJson history, st)
    ∧ history `sublist_of` allMessages
    ∧ filter (λ msg, Message.recipientId msg = None) history
      = filter (λ msg, Message.recipientId msg = None) allMessages
    ∧ (∀ msg recipient,
         msg ∈ history → Message.recipientId msg = Some recipient →
         recipient = viewer ∨ Message.senderId msg = viewer)
    ∧ (∀ msg recipient,
         msg ∈ allMessages → Message.recipientId msg = Some recipient →
         recipient = viewer ∨ Message.senderId msg = viewer →
         msg ∈ history).
Proof.
  intros R Hsess Hroom Hin allMessages.
  assert (Forall message_ok allMessages) as Hok.
  { unfold allMessages.
    destruct (chatMessages st !! toUpperCase reqCode) as [msgs|] eqn:Hlog;
      simpl; [|constructor].
    by eapply (wf_chat _ (reachable_wf _ _ R)). }
  rewrite Forall_forall in Hok.
  exists (filter (λ msg, visible viewer msg = true) allMessages).
  split_and!.
  - unfold get_chat. rewrite Hsess, Hroom.
    by rewrite (proj2 (includes_true _ _) Hin).
  - apply sublist_filter.
  - rewrite list_filter_filter. apply list_filter_iff.
    intros msg. split; [by intros [? _] | intros Hnone].
    split; [done | by apply visible_broadcast].
  - intros msg recipient [Hvis Hmsg]%list_elem_of_filter Hrec.
    by apply (visible_directed viewer msg recipient (Hok _ Hmsg) Hrec).
  - intros msg recipient Hmsg Hrec Hparty.
    apply list_elem_of_filter. split; [|done].
    by apply (visible_directed viewer msg recipient (Hok _ Hmsg) Hrec).
Qed.

Lemma chat_history_visibility_witness :
  ∃ history,
    get_chat (Some "p") "ABCD" demo_chat = (MessagesJson history, demo_chat)
    ∧ Message.content <$> history = ["night falls"; "who died?"].
Proof.
  destruct (chat_history_visibility demo_roleSets demo_chat (Some "p") "p"
              "ABCD" demo_chat_room) as (history & Hreply & _).
  - apply run_reachable, run_reachable, reachable_init.
  - vm_compute; reflexivity.
  - vm_compute; reflexivity.
  - right; left.
  - exists history. split; [exact Hreply|].
    assert (MessagesJson history
            = (get_chat (Some "p") "ABCD" demo_chat).1) as Heq
      by (by rewrite Hreply).
    vm_compute in Heq. injection Heq as ->. reflexivity.
Defined.

(** ** Chat message ids *)

Lemma post_chat_message cookie reqCode content recipientId nowId nowStamp
    st msg st' :
  post_chat cookie reqCode content recipientId nowId nowStamp st
    = (MessageJson msg, st') →
  Message.id msg = pretty nowId
  ∧ Message.timestamp msg = nowStamp
  ∧ chatMessages st' !! toUpperCase reqCode
    = Some (default [] (chatMessages st !! toUpperCase reqCode) ++ [msg]).
Proof.
  unfold post_chat. guards; try discriminate.
  all: intros [= <- <-]; simpl; by rewrite lookup_insert_eq.
Qed.

(** C9, as the code has it: the id of a chat message is the decimal
    rendering of the clock reading taken when it is sent, and the message
    is put at the end of the log of its room.  Two messages, of any
    rooms, have the same id exactly when they were sent at the same
    reading: ids follow the clock, and they tell two messages apart only
    when the clock has moved between them. *)
Theorem chat_id_is_clock_reading
    cookie1 reqCode1 content1 recipientId1 nowId1 nowStamp1 st1 msg1 st1'
    cookie2 reqCode2 content2 recipientId2 nowId2 nowStamp2 st2 msg2 st2' :
  post_chat cookie1 reqCode1 content1 recipientId1 nowId1 nowStamp1 st1
    = (MessageJson msg1, st1') →
  post_chat cookie2 reqCode2 content2 recipientId2 nowId2 nowStamp2 st2
    = (MessageJson msg2, st2') →
  Message.id msg1 = pretty nowId1
  ∧ Message.id msg2 = pretty nowId2
  ∧ last (default [] (chatMessages st1' !! toUpperCase reqCode1)) = Some msg1
  ∧ last (default [] (chatMessages st2' !! toUpperCase reqCode2)) = Some msg2
  ∧ (Message.id msg1 = Message.id msg2 ↔ nowId1 = nowId2).
Proof.
  intros (Hid1 & _ & Hlog1)%post_chat_message
         (Hid2 & _ & Hlog2)%post_chat_message.
  rewrite Hlog1, Hlog2, Hid1, Hid2. simpl. rewrite !last_snoc.
  split_and!; try done.
  split; [apply (inj pretty) | by intros ->].
Qed.

Lemma chat_id_is_clock_reading_witness :
  Message.id demo_msg1 = pretty 5000%Z
  ∧ Message.id demo_msg2 = pretty 5001%Z
  ∧ last (default [] (chatMessages demo_sent1 !! toUpperCase "ABCD"))
    = Some demo_msg1
  ∧ last (default [] (chatMessages demo_sent2 !! toUpperCase "ABCD"))
    = Some demo_msg2
  ∧ (Message.id demo_msg1 = Message.id demo_msg2 ↔ 5000%Z = 5001%Z).
Proof.
  apply (chat_id_is_clock_reading
           (Some "h") "ABCD" "night falls" None 5000 5000 demo_room
           demo_msg1 demo_sent1
           (Some "p") "ABCD" "who died?" (Some "h") 5001 5001 demo_sent1
           demo_msg2 demo_sent2); vm_compute; reflexivity.
Defined.

(** C9 as stated fails: the id is the millisecond clock and nothing else,
    so the two messages the host sends within one millisecond are
    different messages with the same id. *)
Lemma chat_ids_collide :
  reachable demo_roleSets demo_same_tick
  ∧ ∃ msg1 msg2,
      chatMessages demo_same_tick !! "ABCD" = Some [msg1; msg2]
      ∧ msg1 ≠ msg2
      ∧ Message.id msg1 = Message.id msg2.
Proof.
  split; [apply run_reachable, run_reachable, reachable_init|].
  eexists _, _. split; [vm_compute; reflexivity|]. split; [|reflexivity].
  discriminate.
Qed.

(** ** The special emoji *)

Lemma name_emoji_alter (m : gmap string Player.t) f playerId q :
  (∀ p, name_emoji (f p) = name_emoji p) →
  name_emoji <$> alter f playerId m !! q = name_emoji <$> m !! q.
Proof.
  intros Hf. destruct (decide (playerId = q)) as [->|Hne].
  - rewrite lookup_alter_eq. destruct (m !! q) as [p|]; [|done].
    simpl. by rewrite Hf.
  - by rewrite lookup_alter_ne.
Qed.

Lemma leaveRoom_profile playerId roomCode st q :
  profile (leaveRoom playerId roomCode st) q = profile st q.
Proof.
  unfold profile, leaveRoom.
  destruct (rooms st !! roomCode) as [room|]; [|done].
  destruct (filter _ (Room.players room)) as [|first rest];
    [|case_decide]; simpl; by rewrite !name_emoji_alter.
Qed.

Lemma leave_current_profile playerId st q :
  profile (leave_current playerId st) q = profile st q.
Proof.
  unfold leave_current.
  destruct (players st !! playerId) as [player|]; [|done].
  destruct (Player.roomCode player) as [rc|]; [|done].
  destruct (truthy rc && has (rooms st) rc); [|done].
  apply leaveRoom_profile.
Qed.






(** * Further properties of the handlers *)

(** ** Rejections and reads *)

Lemma generateRoomCode_spec draws rs :
  match generateRoomCode draws rs with
  | Some code => code ∈ draws ∧ rs !! code = None
  | None => Forall (λ c, is_Some (rs !! c)) draws
  end.
Proof.
  induction draws as [|c rest IH]; simpl; [constructor|].
  destruct (has rs c) eqn:Hhas.
  - apply has_true in Hhas.
    destruct (generateRoomCode rest rs) as [code|].
    + destruct IH. split; [by right | done].
    + by constructor.
  - apply has_false in Hhas. split; [left | done].
Qed.

(** Opens the handler a request is routed to. *)
Ltac handler :=
  unfold get_session, post_username, post_emoji, room_create, room_join,
    room_leave, get_room, post_player_order, post_role_set,
    post_selected_roles, assign_roles, my_role, grimoire, reset_roles,
    kill_player, revive_player, mark_drunk, unmark_drunk, post_chat,
    get_chat.

(** X1: a request answered with one of the error replies of the
    handlers (their status is 400, 401, 403 or 404), whatever the route,
    and every read of room data, role, grimoire or chat history, leaves
    all seven stores exactly as they were: validation comes before the
    first write in every handler.  The other failures come after a
    write: the exception of the join route is raised after the caller
    has been taken out of the room named in the request and that room,
    left empty, has been deleted, and the code generation of the create
    route does not return while every code it draws is taken. *)
Theorem error_or_read_keeps_state roleSets req st :
  let out := handle roleSets req st in
  (∀ status error,
     out.1 = Err status error →
     status ∈ [400; 401; 403; 404] ∧ out.2 = st)
  ∧ (is_get req = true → out.2 = st)
  ∧ (out.1 = Threw →
     ∃ cookie roomCode playerId room,
       req = RoomJoin cookie roomCode
       ∧ session st cookie = Some playerId
       ∧ rooms st !! toUpperCase roomCode = Some room
       ∧ rooms out.2 !! toUpperCase roomCode = None)
  ∧ (out.1 = Hang →
     ∃ cookie draws now playerId,
       req = RoomCreate cookie draws now
       ∧ session st cookie = Some playerId
       ∧ Forall (λ code, is_Some (rooms out.2 !! code)) draws).
Proof.
  cbv zeta. split_and!.
  - intros status error.
    destruct req; simpl; handler; guards; intros Herr;
      first [ discriminate Herr
            | injection Herr as <- <-; split; [set_solver | reflexivity] ].
  - intros Hget. destruct req; try discriminate; simpl; handler; guards;
      reflexivity.
  - destruct req; simpl; try (handler; guards; discriminate).
    + unfold room_join.
      destruct (session st cookie) as [playerId|] eqn:Hsess;
        [|simpl; intros [=]].
      destruct (has (rooms st) (toUpperCase roomCode)) eqn:Hhas;
        [|simpl; intros [=]].
      apply has_true in Hhas as [room Hroom]. simpl negb. cbv iota.
      destruct (rooms (with_players (alter special_emoji playerId)
                         (leave_current playerId st))
                !! toUpperCase roomCode) eqn:Hgone;
        [simpl; intros [=]|].
      intros _. by exists cookie, roomCode, playerId, room.
    + unfold post_chat.
      destruct (session st cookie) as [playerId|] eqn:Hsess;
        [|simpl; intros [=]].
      destruct (session_inv _ _ _ Hsess) as (_ & _ & [pl Hpl]).
      rewrite Hpl. guards; discriminate.
  - destruct req; simpl; try (handler; guards; discriminate).
    unfold room_create.
    destruct (session st cookie) as [playerId|] eqn:Hsess;
      [|simpl; intros [=]].
    pose proof (generateRoomCode_spec draws
                  (rooms (with_players (alter special_emoji playerId)
                            (leave_current playerId st)))) as Hgen.
    destruct (generateRoomCode draws _) as [code|];
      [simpl; intros [=]|].
    intros _. by exists cookie, draws, now, playerId.
Qed.

Lemma error_or_read_keeps_state_witness :
  (handle demo_roleSets (RoomJoin (Some "p") "zzzz") demo_room).2 = demo_room
  ∧ (handle demo_roleSets (Grimoire (Some "h") "ABCD") demo_room).2
    = demo_room
  ∧ (handle demo_roleSets (RoomJoin (Some "h") "ABCD") demo_solo).1 = Threw
  ∧ rooms (handle demo_roleSets (RoomJoin (Some "h") "ABCD") demo_solo).2
      !! "ABCD" = None.
Proof.
  destruct (error_or_read_keeps_state demo_roleSets
              (RoomJoin (Some "p") "zzzz") demo_room) as (Herr & _ & _).
  destruct (error_or_read_keeps_state demo_roleSets
              (Grimoire (Some "h") "ABCD") demo_room) as (_ & Hget & _).
  destruct (error_or_read_keeps_state demo_roleSets
              (RoomJoin (Some "h") "ABCD") demo_solo)
    as (_ & _ & Hthrew & _).
  split_and!.
  - apply (Herr 404 "Room not found"). vm_compute. reflexivity.
  - apply Hget. reflexivity.
  - vm_compute. reflexivity.
  - destruct Hthrew as (cookie & roomCode & playerId & room & [= <- <-] & _
                        & _ & Hgone); [vm_compute; reflexivity|].
    exact Hgone.
Defined.

(** X2: each of the eighteen routes that read the session cookie
    (username, emoji, create, join, leave, my-role and the twelve routes
    under a room code other than the room view) answers 401 "Invalid
    session" and changes nothing when the cookie is missing, empty or
    names no stored player, and answers 401 in no other case. *)
Theorem invalid_session_rejected roleSets req cookie st :
  cookie_of req = Some cookie →
  (session st cookie = None →
   handle roleSets req st = (Err 401 "Invalid session", st))
  ∧ (∀ error, (handle roleSets req st).1 = Err 401 error →
              session st cookie = None).
Proof.
  intros Hc. split.
  - intros Hs.
    destruct req; simpl in Hc; try discriminate; injection Hc as ->; simpl;
      handler; rewrite Hs; reflexivity.
  - intros error.
    destruct req; simpl in Hc; try discriminate; injection Hc as ->; simpl;
      handler; (destruct (session st cookie) eqn:Hs; [|done]);
      guards; intros Herr; discriminate Herr.
Qed.

Lemma invalid_session_rejected_witness :
  handle demo_roleSets (ResetRoles (Some "nobody") "ABCD") demo_room
  = (Err 401 "Invalid session", demo_room).
Proof.
  apply (invalid_session_rejected demo_roleSets _ (Some "nobody"));
    vm_compute; reflexivity.
Defined.

(** X3: a stored player who is not the host of the room gets 403 from
    each of the ten host-only routes (player order, role set, selected
    roles, assign, grimoire, reset and the four overlay routes), and the
    stores stay as they were. *)
Theorem non_host_forbidden roleSets req cookie reqCode st playerId room :
  host_only req = true →
  cookie_of req = Some cookie →
  code_of req = Some reqCode →
  session st cookie = Some playerId →
  rooms st !! toUpperCase reqCode = Some room →
  Room.hostId room ≠ playerId →
  ∃ error, handle roleSets req st = (Err 403 error, st).
Proof.
  intros Hh Hc Hcode Hs Hroom Hne.
  destruct req; simpl in Hh; try discriminate;
    injection Hc as ->; injection Hcode as ->; simpl;
    [ unfold post_player_order | unfold post_role_set
    | unfold post_selected_roles | unfold assign_roles
    | unfold grimoire | unfold reset_roles | unfold kill_player
    | unfold revive_player | unfold mark_drunk | unfold unmark_drunk ];
    eexists; rewrite Hs, Hroom; rewrite decide_True by done; reflexivity.
Qed.

Lemma non_host_forbidden_witness :
  ∃ error,
    handle demo_roleSets (AssignRoles (Some "p") "ABCD" reverse reverse)
           demo_selected
    = (Err 403 error, demo_selected).
Proof.
  apply (non_host_forbidden demo_roleSets _ (Some "p") "ABCD" demo_selected
           "p" demo_selected_room);
    first [ vm_compute; reflexivity | discriminate ].
Defined.

(** X4: a request that names a room code of ASCII characters with no
    room behind it (after upper-casing) is answered 404 "Room not found"
    and changes nothing; the routes with a session guard answer so for
    every stored player. *)
Theorem unknown_room_rejected roleSets req reqCode st :
  code_of req = Some reqCode →
  is_ascii reqCode = true →
  (∀ cookie, cookie_of req = Some cookie → is_Some (session st cookie)) →
  rooms st !! toUpperCase reqCode = None →
  handle roleSets req st = (Err 404 "Room not found", st).
Proof.
  intros Hcode _ Hs Hroom.
  destruct req; simpl in Hcode; try discriminate; injection Hcode as ->;
    try (destruct (Hs _ eq_refl) as [playerId Hsess]); simpl; handler;
    rewrite ?Hsess, ?Hroom, ?(proj2 (has_false _ _) Hroom); reflexivity.
Qed.

Lemma unknown_room_rejected_witness :
  handle demo_roleSets (PostChat (Some "p") "nope" "hi" (Some "h") 1 1)
         demo_room
  = (Err 404 "Room not found", demo_room).
Proof.
  apply (unknown_room_rejected demo_roleSets _ "nope").
  - reflexivity.
  - reflexivity.
  - intros cookie [= <-]. vm_compute. eauto.
  - vm_compute; reflexivity.
Defined.

(** ** Reset *)

(** X5: a reset by the host clears the role of every member of the room,
    drops the room's dead set, drunk set and chat log and lowers the
    assigned flag, so that the history read next is empty; the seating
    order, the player records, the role selection, the roles of players
    outside the room and the side tables of the other rooms are kept. *)
Theorem reset_roles_effect st cookie reqCode room :
  session st cookie = Some (Room.hostId room) →
  rooms st !! toUpperCase reqCode = Some room →
  let code := toUpperCase reqCode in
  let out := reset_roles cookie reqCode st in
  out.1 = SuccessJson
  ∧ (∀ pid, pid ∈ Room.players room → playerRoles out.2 !! pid = None)
  ∧ (∀ pid, pid ∉ Room.players room →
            playerRoles out.2 !! pid = playerRoles st !! pid)
  ∧ deadPlayers out.2 !! code = None
  ∧ drunkPlayers out.2 !! code = None
  ∧ chatMessages out.2 !! code = None
  ∧ rooms out.2 !! code = Some (Room.set_rolesAssigned false room)
  ∧ (∀ other, other ≠ code →
       rooms out.2 !! other = rooms st !! other
       ∧ deadPlayers out.2 !! other = deadPlayers st !! other
       ∧ drunkPlayers out.2 !! other = drunkPlayers st !! other
       ∧ chatMessages out.2 !! other = chatMessages st !! other)
  ∧ playerOrder out.2 = playerOrder st
  ∧ players out.2 = players st
  ∧ (∀ viewerCookie viewer,
       session st viewerCookie = Some viewer →
       viewer ∈ Room.players room →
       get_chat viewerCookie reqCode out.2 = (MessagesJson [], out.2)).
Proof.
  intros Hsess Hroom code out.
  assert (out = (SuccessJson,
     with_rooms (insert code (Room.set_rolesAssigned false room))
       (with_chatMessages (delete code)
         (with_drunkPlayers (delete code)
           (with_deadPlayers (delete code)
             (with_playerRoles (clear_roles (Room.players room)) st))))))
    as ->.
  { unfold out, reset_roles. rewrite Hsess, Hroom.
    by rewrite decide_False by (intros H; by apply H). }
  simpl. split_and!; try done.
  - intros pid Hpid. rewrite clear_roles_lookup. by rewrite decide_True.
  - intros pid Hpid. rewrite clear_roles_lookup. by rewrite decide_False.
  - apply lookup_delete_eq.
  - apply lookup_delete_eq.
  - apply lookup_delete_eq.
  - apply lookup_insert_eq.
  - intros other Hother.
    rewrite lookup_insert_ne, !lookup_delete_ne by done. done.
  - intros viewerCookie viewer Hviewer Hmember. unfold get_chat.
    replace (session _ viewerCookie) with (Some viewer)
      by (symmetry; exact Hviewer).
    simpl. fold code. rewrite lookup_insert_eq, lookup_delete_eq. simpl.
    by rewrite (proj2 (includes_true _ _) Hmember).
Qed.

Lemma reset_roles_effect_witness :
  let out := reset_roles (Some "h") "ABCD" demo_assigned in
  out.1 = SuccessJson
  ∧ playerRoles demo_assigned !! "p"
    = Some (Role.mk "Chef" "cooks" "Townsfolk")
  ∧ playerRoles out.2 !! "p" = None.
Proof.
  destruct (reset_roles_effect demo_assigned (Some "h") "ABCD"
              (Room.set_rolesAssigned true demo_selected_room))
    as (Hreply & Hclear & _).
  - vm_compute; reflexivity.
  - vm_compute; reflexivity.
  - split_and!; [exact Hreply | vm_compute; reflexivity |].
    apply Hclear. right; left.
Defined.

(** ** Role selection *)

Lemma find_first {A} (p : A → bool) (l : list A) :
  match List.find p l with
  | Some x => ∃ pre post, l = pre ++ x :: post ∧ p x = true
                          ∧ Forall (λ y, p y = false) pre
  | None => Forall (λ y, p y = false) l
  end.
Proof.
  induction l as [|a l IH]; simpl; [done|].
  destruct (p a) eqn:Ha.
  - by exists [], l.
  - destruct (List.find p l) as [x|].
    + destruct IH as (pre & post & -> & Hx & Hpre).
      exists (a :: pre), post. split_and!; [done | done | by constructor].
    + by constructor.
Qed.

Lemma not_listed roomRoles cat name defs :
  roomRoles !! cat = Some defs →
  Forall (λ r, bool_decide (RoleDef.name r = name) = false) defs →
  ¬ listed roomRoles cat name.
Proof.
  intros Hcat Hall (defs' & Hcat' & Hin). rewrite Hcat in Hcat'.
  injection Hcat' as <-.
  apply list_elem_of_fmap in Hin as (r & -> & Hr).
  rewrite Forall_forall in Hall. specialize (Hall r Hr).
  by apply bool_decide_eq_false in Hall.
Qed.

(** The inner loop stops at the first category that lists the name and
    takes the first entry of that name there. *)
Lemma find_role_first roomRoles cats name :
  match find_role roomRoles cats name with
  | Some role =>
      Role.name role = name
      ∧ ∃ before after defs pre post,
          cats = before ++ Role.category role :: after
          ∧ Forall (λ cat, ¬ listed roomRoles cat name) before
          ∧ roomRoles !! Role.category role = Some defs
          ∧ defs = pre ++ RoleDef.mk name (Role.description role) :: post
          ∧ name ∉ RoleDef.name <$> pre
  | None => Forall (λ cat, ¬ listed roomRoles cat name) cats
  end.
Proof.
  induction cats as [|cat rest IH]; simpl; [done|].
  destruct (roomRoles !! cat) as [defs|] eqn:Hcat.
  - pose proof (find_first (λ r, bool_decide (RoleDef.name r = name)) defs)
      as Hfind.
    destruct (List.find _ defs) as [found|].
    + destruct Hfind as (pre & post & -> & Hname%bool_decide_eq_true & Hpre).
      destruct found as [n d]. simpl in Hname. subst n. simpl.
      split; [done|]. eexists [], rest, _, pre, post.
      split_and!; [done | done | exact Hcat | done |].
      intros (r & Hr & Hin)%list_elem_of_fmap.
      rewrite Forall_forall in Hpre. specialize (Hpre r Hin).
      by apply bool_decide_eq_false in Hpre.
    + assert (¬ listed roomRoles cat name) as Hno
        by by eapply not_listed.
      destruct (find_role roomRoles rest name) as [role|].
      * destruct IH as (Hn & before & after & defs' & pre & post
                        & -> & Hb & Hd & He & Hp).
        split; [done|]. exists (cat :: before), after, defs', pre, post.
        split_and!; [done | by constructor | done..].
      * by constructor.
  - assert (¬ listed roomRoles cat name) as Hno.
    { intros (defs & Hd & _). congruence. }
    destruct (find_role roomRoles rest name) as [role|].
    + destruct IH as (Hn & before & after & defs' & pre & post
                      & -> & Hb & Hd & He & Hp).
      split; [done|]. exists (cat :: before), after, defs', pre, post.
      split_and!; [done | by constructor | done..].
    + by constructor.
Qed.

Lemma find_role_known roomRoles name :
  is_Some (find_role roomRoles validCategories name) ↔ known roomRoles name.
Proof.
  pose proof (find_role_first roomRoles validCategories name) as H.
  unfold known. destruct (find_role _ _ _) as [role|].
  - destruct H as (_ & before & after & defs & pre & post
                   & Hc & _ & Hd & -> & _).
    split; [intros _|by eauto]. rewrite Hc.
    apply Exists_app. right. left. eexists. split; [exact Hd|].
    rewrite fmap_app. apply elem_of_app. right. by left.
  - split; [by intros [? [=]]|]. intros (cat & Hin & Hl)%Exists_exists.
    rewrite Forall_forall in H. by destruct (H cat Hin).
Qed.

Lemma omap_find_role_filter roomRoles (selectedRoles : list Role.t) :
  Role.name <$> omap (λ role, find_role roomRoles validCategories
                                (Role.name role)) selectedRoles
  = filter (known roomRoles) (Role.name <$> selectedRoles).
Proof.
  induction selectedRoles as [|r rest IH]; [done|].
  cbn [omap list_omap fmap list_fmap]. rewrite filter_cons.
  pose proof (find_role_known roomRoles (Role.name r)) as Hk.
  pose proof (find_role_first roomRoles validCategories (Role.name r)) as Hf.
  destruct (find_role roomRoles validCategories (Role.name r)) as [role|].
  - rewrite decide_True by (apply Hk; eauto).
    cbn [fmap list_fmap]. f_equal; [by destruct Hf | exact IH].
  - rewrite decide_False; [exact IH|]. intros [? [=]]%Hk.
Qed.

Lemma find_role_Some roomRoles cats name role :
  find_role roomRoles cats name = Some role →
  Role.name role = name
  ∧ Role.category role ∈ cats
  ∧ ∃ defs, roomRoles !! Role.category role = Some defs
            ∧ RoleDef.mk name (Role.description role) ∈ defs.
Proof.
  induction cats as [|cat rest IH]; simpl; [done|].
  destruct (roomRoles !! cat) as [defs|] eqn:Hcat.
  - destruct (List.find _ defs) as [found|] eqn:Hfind.
    + intros [= <-]. simpl.
      apply find_some in Hfind as [Hin Hname%bool_decide_eq_true].
      split_and!; [done | left |].
      exists defs. split; [done|].
      apply list_elem_of_In. destruct found as [n d]; simpl in *.
      by subst.
    + intros (? & ? & ?)%IH. split_and!; [done | by right | done].
  - intros (? & ? & ?)%IH. split_and!; [done | by right | done].
Qed.

Lemma omap_find_role_names roomRoles cats (selectedRoles : list Role.t) :
  let validate := λ role, find_role roomRoles cats (Role.name role) in
  Role.name <$> omap validate selectedRoles
    `sublist_of` Role.name <$> selectedRoles
  ∧ omap validate (omap validate selectedRoles) = omap validate selectedRoles.
Proof.
  intros validate.
  induction selectedRoles as [|r rest [IH1 IH2]]; simpl; [done|].
  destruct (validate r) as [found|] eqn:Hf; simpl.
  - assert (Role.name found = Role.name r) as Hn
      by exact (proj1 (find_role_Some _ _ _ _ Hf)).
    split.
    + rewrite Hn. by apply sublist_skip.
    + assert (validate found = Some found) as ->
        by (unfold validate; rewrite Hn; exact Hf).
      f_equal. exact IH2.
  - split; [by apply sublist_cons | done].
Qed.

Lemma post_selected_roles_host roleSets st cookie reqCode room selectedRoles :
  session st cookie = Some (Room.hostId room) →
  rooms st !! toUpperCase reqCode = Some room →
  let roomRoles :=
    default (roles roleSets)
            (get_roleSet roleSets (Room.roleSet room) ≫= entry_roles) in
  let validRoles :=
    omap (λ role, find_role roomRoles validCategories (Role.name role))
         selectedRoles in
  post_selected_roles roleSets cookie reqCode selectedRoles st
  = (SelectedRolesJson validRoles,
     with_rooms (insert (toUpperCase reqCode)
                   (Room.set_selectedRoles validRoles room)) st).
Proof.
  intros Hsess Hroom. unfold post_selected_roles. rewrite Hsess, Hroom.
  by rewrite decide_False by (intros H; by apply H).
Qed.

(** The roles the validation reads: those of the room's role set when
    it is a role set of the catalogue, those of the default set
    otherwise. *)
Lemma room_roles_own roleSets key :
  default (roles roleSets) (get_roleSet roleSets key ≫= entry_roles)
  = match roleSets !! key with
    | Some set => RoleSet.roles set
    | None => roles roleSets
    end.
Proof.
  unfold get_roleSet. destruct (roleSets !! key) as [set|]; [done|].
  by destruct (object_prototype key).
Qed.

(** X6: the host's role selection is stored only after validation
    against the role set of the room (the default set when the room's
    role set is not one of the catalogue).  Exactly the submitted roles
    whose name one of the four categories lists are stored, in the
    submitted order and as often as they were submitted; every stored
    role carries the first category, in the order Townsfolk, Outsiders,
    Minions, Demons, that lists its name, and the description of the
    first entry of that name there, whatever description and category
    the client sent; and storing the stored list again changes
    nothing. *)
Theorem selected_roles_validated roleSets st cookie reqCode room
    selectedRoles :
  session st cookie = Some (Room.hostId room) →
  rooms st !! toUpperCase reqCode = Some room →
  let roomRoles :=
    match roleSets !! Room.roleSet room with
    | Some set => RoleSet.roles set
    | None => roles roleSets
    end in
  let out := post_selected_roles roleSets cookie reqCode selectedRoles st in
  ∃ validRoles,
    out.1 = SelectedRolesJson validRoles
    ∧ rooms out.2 !! toUpperCase reqCode
      = Some (Room.set_selectedRoles validRoles room)
    ∧ Role.name <$> validRoles
      = filter (known roomRoles) (Role.name <$> selectedRoles)
    ∧ (∀ role, role ∈ validRoles →
         ∃ before after defs pre post,
           validCategories = before ++ Role.category role :: after
           ∧ Forall (λ cat, ¬ listed roomRoles cat (Role.name role)) before
           ∧ roomRoles !! Role.category role = Some defs
           ∧ defs = pre ++ RoleDef.mk (Role.name role)
                                      (Role.description role) :: post
           ∧ Role.name role ∉ RoleDef.name <$> pre)
    ∧ post_selected_roles roleSets cookie reqCode validRoles out.2 = out.
Proof.
  intros Hsess Hroom roomRoles out.
  set (validate := λ role : Role.t,
         find_role roomRoles validCategories (Role.name role)).
  destruct (omap_find_role_names roomRoles validCategories selectedRoles)
    as [_ Hidem]. fold validate in Hidem.
  assert (out = (SelectedRolesJson (omap validate selectedRoles),
                 with_rooms (insert (toUpperCase reqCode)
                   (Room.set_selectedRoles (omap validate selectedRoles)
                                           room)) st)) as ->.
  { unfold out. rewrite (post_selected_roles_host _ _ _ _ room) by done.
    by rewrite room_roles_own. }
  exists (omap validate selectedRoles).
  split_and!; [done | apply lookup_insert_eq | | |].
  - apply omap_find_role_filter.
  - intros role (r0 & _ & Hf)%list_elem_of_omap. unfold validate in Hf.
    pose proof (find_role_first roomRoles validCategories (Role.name r0))
      as Hfirst.
    rewrite Hf in Hfirst. destruct Hfirst as [-> Hfirst]. exact Hfirst.
  - cbn [snd].
    rewrite (post_selected_roles_host roleSets _ cookie reqCode
               (Room.set_selectedRoles (omap validate selectedRoles) room));
      [| exact Hsess | apply lookup_insert_eq].
    cbn [Room.roleSet Room.set_selectedRoles]. rewrite room_roles_own.
    fold roomRoles validate.
    rewrite Hidem. unfold with_rooms; cbn [rooms]. f_equal. f_equal.
    apply insert_insert_eq.
Qed.

Lemma selected_roles_validated_witness :
  ∃ validRoles,
    (post_selected_roles demo_roleSets (Some "h") "ABCD"
       [Role.mk "Imp" "forged" "Townsfolk"; Role.mk "Ghost" "" "";
        Role.mk "Chef" "" ""] demo_room).1
    = SelectedRolesJson validRoles
    ∧ Role.name <$> validRoles = ["Imp"; "Chef"].
Proof.
  destruct (selected_roles_validated demo_roleSets demo_room (Some "h")
              "ABCD" demo_lobby_room
              [Role.mk "Imp" "forged" "Townsfolk"; Role.mk "Ghost" "" "";
               Role.mk "Chef" "" ""])
    as (validRoles & Hreply & _ & Hnames & _).
  - vm_compute; reflexivity.
  - vm_compute; reflexivity.
  - exists validRoles. split; [exact Hreply|]. rewrite Hnames.
    vm_compute. reflexivity.
Defined.

(** X7: the role-set route accepts an id exactly when [roleSets[id]] is
    truthy: the id of a role set of the catalogue, or one of the twelve
    property names that every object inherits ([constructor],
    [toString], [__proto__], ...).  An accepted id is stored in the
    room and the role selection is emptied, so that the next
    assign-roles is refused with "No roles selected" until the host
    selects again; the room view then shows the name of the role set
    with its roles or, for an inherited name, the name of the inherited
    value and no roles.  Every other id is refused with 400 and nothing
    changes. *)
Theorem role_set_change_clears_selection roleSets st cookie reqCode room
    roleSet :
  session st cookie = Some (Room.hostId room) →
  rooms st !! toUpperCase reqCode = Some room →
  let out := post_role_set roleSets cookie reqCode roleSet st in
  let room' := Room.set_selectedRoles [] (Room.set_roleSet roleSet room) in
  let accepted name setRoles :=
    out.1 = RoleSetJson roleSet name
    ∧ out.2 = with_rooms (insert (toUpperCase reqCode) room') st
    ∧ (∀ shufflePlayers shuffleRoles,
         assign_roles cookie reqCode shufflePlayers shuffleRoles out.2
         = (Err 400 "No roles selected", out.2))
    ∧ ∃ roomPlayers shown,
        get_room roleSets reqCode out.2
        = (RoomDataJson room' name roomPlayers shown setRoles, out.2) in
  match roleSets !! roleSet with
  | Some set => accepted (Some (RoleSet.name set)) (Some (RoleSet.roles set))
  | None =>
      match object_prototype roleSet with
      | Some name => accepted name None
      | None => out = (Err 400 "Invalid role set", st)
      end
  end.
Proof.
  intros Hsess Hroom out room' accepted.
  assert (∀ entry, get_roleSet roleSets roleSet = Some entry →
                   accepted (entry_name entry) (entry_roles entry)) as Hacc.
  { intros entry Hentry. unfold accepted, out, post_role_set.
    rewrite Hsess, Hroom, Hentry.
    rewrite decide_False by (intros H; by apply H).
    cbn [fst snd]. split_and!; [done | done | |].
    - intros shufflePlayers shuffleRoles. unfold assign_roles.
      replace (session _ cookie) with (Some (Room.hostId room))
        by (symmetry; exact Hsess).
      simpl. rewrite lookup_insert_eq.
      by rewrite decide_False by (intros H; by apply H).
    - unfold get_room. cbn [rooms with_rooms]. rewrite lookup_insert_eq.
      cbn [Room.roleSet room' Room.set_selectedRoles Room.set_roleSet].
      rewrite Hentry. eauto. }
  destruct (roleSets !! roleSet) as [set|] eqn:Hown.
  { apply (Hacc (Own set)). unfold get_roleSet. by rewrite Hown. }
  destruct (object_prototype roleSet) as [name|] eqn:Hproto.
  - apply (Hacc (Inherited name)). unfold get_roleSet.
    by rewrite Hown, Hproto.
  - unfold out, post_role_set, get_roleSet.
    rewrite Hsess, Hroom, Hown, Hproto.
    by rewrite decide_False by (intros H; by apply H).
Qed.

Lemma role_set_change_clears_selection_witness :
  let out :=
    post_role_set demo_roleSets (Some "h") "ABCD" "constructor"
                  demo_selected in
  out.1 = RoleSetJson "constructor" (Some "Object")
  ∧ assign_roles (Some "h") "ABCD" reverse reverse out.2
    = (Err 400 "No roles selected", out.2)
  ∧ post_role_set demo_roleSets (Some "h") "ABCD" "bad_moon_rising"
                  demo_selected
    = (Err 400 "Invalid role set", demo_selected).
Proof.
  pose proof (role_set_change_clears_selection demo_roleSets demo_selected
                (Some "h") "ABCD" demo_selected_room "constructor")
    as Hproto.
  pose proof (role_set_change_clears_selection demo_roleSets demo_selected
                (Some "h") "ABCD" demo_selected_room "bad_moon_rising")
    as Hbad.
  cbv zeta in Hproto, Hbad.
  replace (demo_roleSets !! "constructor") with (@None RoleSet.t)
    in Hproto by (vm_compute; reflexivity).
  replace (demo_roleSets !! "bad_moon_rising") with (@None RoleSet.t)
    in Hbad by (vm_compute; reflexivity).
  change (object_prototype "constructor") with (Some (Some "Object"))
    in Hproto.
  change (object_prototype "bad_moon_rising") with (@None (option string))
    in Hbad.
  destruct Hproto as (Hreply & _ & Hassign & _);
    [vm_compute; reflexivity | vm_compute; reflexivity |].
  split_and!; [exact Hreply | apply Hassign |].
  apply Hbad; vm_compute; reflexivity.
Defined.

(** ** Reordering the circle *)

Lemma filter_members_permutation (order members : list string) :
  order ≡ₚ members →
  filter (λ id, includes members id = true) order = order
  ∧ filter (λ id, includes order id = false) members = [].
Proof.
  intros Hperm. split.
  - transitivity (filter (λ _ : string, True) order).
    + apply filter_ext_elem. intros x Hx.
      rewrite includes_true, <- Hperm. tauto.
    + clear Hperm. induction order as [|x l IH]; [done|].
      by rewrite filter_cons_True, IH.
  - transitivity (filter (λ _ : string, False) members).
    + apply filter_ext_elem. intros x Hx.
      rewrite includes_false, Hperm. tauto.
    + clear Hperm. induction members as [|x l IH]; [done|].
      by rewrite filter_cons_False by tauto.
Qed.

(** X8: the order the host posts is stored after the ids that are not
    members have been dropped, the room itself is not touched, and the
    room view read next returns the stored order followed by the members
    it does not name.  When the posted order is a rearrangement of the
    member list, the room view returns exactly the posted order. *)
Theorem player_order_round_trip roleSets st cookie reqCode room order :
  session st cookie = Some (Room.hostId room) →
  rooms st !! toUpperCase reqCode = Some room →
  let members := Room.players room in
  let kept := filter (λ id, includes members id = true) order in
  let out := post_player_order cookie reqCode order st in
  out.1 = OrderJson kept
  ∧ playerOrder out.2 !! toUpperCase reqCode = Some kept
  ∧ rooms out.2 = rooms st
  ∧ ∃ name roomPlayers shown setRoles,
      get_room roleSets reqCode out.2
      = (RoomDataJson room name roomPlayers shown setRoles, out.2)
      ∧ shown = kept ++ filter (λ id, includes kept id = false) members
      ∧ (order ≡ₚ members → shown = order).
Proof.
  intros Hsess Hroom members kept out.
  assert (out = (OrderJson kept,
                 with_playerOrder (insert (toUpperCase reqCode) kept) st))
    as ->.
  { unfold out, post_player_order. rewrite Hsess, Hroom.
    by rewrite decide_False by (intros H; by apply H). }
  cbn [fst snd].
  split_and!; [done | apply lookup_insert_eq | done |].
  unfold get_room. cbn [rooms with_playerOrder playerOrder].
  rewrite Hroom, lookup_insert_eq.
  do 4 eexists. split; [reflexivity|].
  fold members. unfold finalOrder.
  change (default members (Some kept)) with kept.
  assert (filter (λ id, includes members id = true) kept = kept) as Hkept.
  { unfold kept. rewrite list_filter_filter. apply list_filter_iff.
    tauto. }
  rewrite Hkept. split; [done|].
  intros Hperm.
  destruct (filter_members_permutation order members Hperm) as [H1 H2].
  unfold kept. rewrite H1, H2. apply app_nil_r.
Qed.

Lemma player_order_round_trip_witness :
  ∃ name roomPlayers setRoles,
    get_room demo_roleSets "ABCD"
      (post_player_order (Some "h") "ABCD" ["p"; "h"] demo_room).2
    = (RoomDataJson demo_lobby_room name roomPlayers ["p"; "h"] setRoles,
       (post_player_order (Some "h") "ABCD" ["p"; "h"] demo_room).2).
Proof.
  destruct (player_order_round_trip demo_roleSets demo_room (Some "h")
              "ABCD" demo_lobby_room ["p"; "h"])
    as (_ & _ & _ & name & roomPlayers & shown & setRoles & Hget & _ & Hsame).
  - vm_compute; reflexivity.
  - vm_compute; reflexivity.
  - exists name, roomPlayers, setRoles. rewrite Hget, Hsame; [done|].
    apply Permutation_swap.
Defined.

(** ** The grimoire *)

Lemma grimoireOrder_finalOrder stored members hostId :
  grimoireOrder stored members hostId
  = filter (λ id, id ≠ hostId) (finalOrder stored members).
Proof.
  unfold grimoireOrder, finalOrder. rewrite filter_app.
  set (ordered := default members stored).
  assert (filter (λ id, includes members id = true ∧ id ≠ hostId) ordered
          = filter (λ id, id ≠ hostId)
              (filter (λ id, includes members id = true) ordered)) as Hvalid.
  { rewrite list_filter_filter. apply list_filter_iff. tauto. }
  rewrite Hvalid. apply (f_equal (app _)).
  rewrite (list_filter_filter (λ id, id ≠ hostId) _ members).
  apply list_filter_iff. intros x.
  rewrite !includes_false, !list_elem_of_filter. tauto.
Qed.

(** X9: the grimoire lists the players in the seating order of the room
    view with the host taken out, so the host never has an entry; each
    entry shows the role stored for that player, or none, and the
    player's dead and drunk marks. *)
Theorem grimoire_follows_room_order roleSets st cookie reqCode room :
  session st cookie = Some (Room.hostId room) →
  rooms st !! toUpperCase reqCode = Some room →
  ∃ entries name roomPlayers shown setRoles,
    grimoire cookie reqCode st
    = (GrimoireJson entries (Room.rolesAssigned room), st)
    ∧ get_room roleSets reqCode st
      = (RoomDataJson room name roomPlayers shown setRoles, st)
    ∧ GrimoireEntry.playerId <$> entries
      = filter (λ id, id ≠ Room.hostId room) shown
    ∧ ∀ entry, entry ∈ entries →
        let pid := GrimoireEntry.playerId entry in
        pid ≠ Room.hostId room
        ∧ pid ∈ Room.players room
        ∧ GrimoireEntry.role entry = playerRoles st !! pid
        ∧ GrimoireEntry.isDead entry
          = in_set (deadPlayers st) (toUpperCase reqCode) pid
        ∧ GrimoireEntry.isDrunk entry
          = in_set (drunkPlayers st) (toUpperCase reqCode) pid.
Proof.
  intros Hsess Hroom. unfold grimoire, get_room. rewrite Hsess, Hroom.
  rewrite decide_False by (intros H; by apply H).
  do 5 eexists. split_and!; [reflexivity | reflexivity | |].
  - rewrite <- grimoireOrder_finalOrder.
    generalize (grimoireOrder (playerOrder st !! toUpperCase reqCode)
                  (Room.players room) (Room.hostId room)).
    intros l. induction l as [|x l IH]; [done|].
    simpl. by f_equal.
  - intros entry (pid & -> & Hpid)%list_elem_of_fmap. simpl.
    rewrite grimoireOrder_finalOrder in Hpid.
    apply list_elem_of_filter in Hpid as [Hne Hpid].
    split_and!; try done.
    unfold finalOrder in Hpid.
    apply elem_of_app in Hpid as [Hv|Hn].
    + apply list_elem_of_filter in Hv as [Hv _]. by apply includes_true.
    + by apply list_elem_of_filter in Hn as [_ Hn].
Qed.

Lemma grimoire_follows_room_order_witness :
  ∃ entries,
    grimoire (Some "h") "ABCD" demo_assigned
    = (GrimoireJson entries true, demo_assigned)
    ∧ GrimoireEntry.playerId <$> entries = ["p"].
Proof.
  destruct (grimoire_follows_room_order demo_roleSets demo_assigned
              (Some "h") "ABCD"
              (Room.set_rolesAssigned true demo_selected_room))
    as (entries & name & roomPlayers & shown & setRoles
        & Hgrim & Hroom & Hids & _).
  - vm_compute; reflexivity.
  - vm_compute; reflexivity.
  - exists entries. split; [exact Hgrim|]. rewrite Hids.
    assert (shown = ["h"; "p"]) as ->; [|reflexivity].
    assert (RoomDataJson (Room.set_rolesAssigned true demo_selected_room)
              name roomPlayers shown setRoles
            = (get_room demo_roleSets "ABCD" demo_assigned).1) as Heq
      by (by rewrite Hroom).
    vm_compute in Heq. by injection Heq.
Defined.

(** ** Marking and unmarking *)

Lemma in_set_add m code target q :
  in_set (set_add code target m) code q
  = bool_decide (q = target) || in_set m code q.
Proof.
  unfold in_set, set_add. rewrite lookup_insert_eq. simpl.
  rewrite <- bool_decide_or. apply bool_decide_ext.
  rewrite elem_of_union, elem_of_singleton. done.
Qed.

Lemma in_set_remove m code target q :
  in_set (set_remove code target m) code q
  = in_set m code q && negb (bool_decide (q = target)).
Proof.
  unfold in_set, set_remove. rewrite lookup_alter_eq.
  destruct (m !! code) as [s|]; simpl.
  - rewrite <- bool_decide_not, <- bool_decide_and. apply bool_decide_ext.
    rewrite elem_of_difference, elem_of_singleton. done.
  - rewrite bool_decide_eq_false_2; [done | apply not_elem_of_empty].
Qed.

Lemma set_add_twice code target m :
  set_add code target (set_add code target m) = set_add code target m.
Proof.
  unfold set_add. rewrite lookup_insert_eq, insert_insert_eq. simpl.
  f_equal. by rewrite (assoc_L (∪)), union_idemp_L.
Qed.

(** X10: for the host and a member of the room, kill-player succeeds and
    marks exactly that player dead in that room (a second kill changes
    nothing more), and revive-player takes exactly that mark away again
    and leaves every other mark alone; mark-drunk and unmark-drunk do the
    same on the drunk set, and none of the four touches the other set.
    The marks are what the room view and the grimoire read. *)
Theorem overlay_marks st cookie reqCode room target :
  session st cookie = Some (Room.hostId room) →
  rooms st !! toUpperCase reqCode = Some room →
  target ∈ Room.players room →
  let code := toUpperCase reqCode in
  let killed := kill_player cookie reqCode target st in
  let revived := revive_player cookie reqCode target killed.2 in
  let marked := mark_drunk cookie reqCode target st in
  let unmarked := unmark_drunk cookie reqCode target marked.2 in
  (killed.1 = SuccessJson ∧ revived.1 = SuccessJson
   ∧ marked.1 = SuccessJson ∧ unmarked.1 = SuccessJson)
  ∧ (∀ q, in_set (deadPlayers killed.2) code q
          = bool_decide (q = target) || in_set (deadPlayers st) code q)
  ∧ (∀ q, in_set (deadPlayers revived.2) code q
          = in_set (deadPlayers st) code q && negb (bool_decide (q = target)))
  ∧ (∀ q, in_set (drunkPlayers marked.2) code q
          = bool_decide (q = target) || in_set (drunkPlayers st) code q)
  ∧ (∀ q, in_set (drunkPlayers unmarked.2) code q
          = in_set (drunkPlayers st) code q
            && negb (bool_decide (q = target)))
  ∧ kill_player cookie reqCode target killed.2 = killed
  ∧ mark_drunk cookie reqCode target marked.2 = marked
  ∧ drunkPlayers killed.2 = drunkPlayers st
  ∧ deadPlayers marked.2 = deadPlayers st
  ∧ drunkPlayers revived.2 = drunkPlayers st
  ∧ deadPlayers unmarked.2 = deadPlayers st.
Proof.
  intros Hsess Hroom Hin%includes_true code killed revived marked unmarked.
  assert (∀ st0, players st0 = players st → rooms st0 = rooms st →
    kill_player cookie reqCode target st0
      = (SuccessJson, with_deadPlayers (set_add code target) st0)
    ∧ mark_drunk cookie reqCode target st0
      = (SuccessJson, with_drunkPlayers (set_add code target) st0)
    ∧ revive_player cookie reqCode target st0
      = (SuccessJson, with_deadPlayers (set_remove code target) st0)
    ∧ unmark_drunk cookie reqCode target st0
      = (SuccessJson, with_drunkPlayers (set_remove code target) st0))
    as Hrun.
  { intros st0 Hp Hr.
    unfold kill_player, mark_drunk, revive_player, unmark_drunk, session.
    rewrite Hp, Hr. fold (session st cookie). rewrite Hsess, Hroom.
    rewrite !decide_False by (intros H; by apply H).
    by rewrite Hin. }
  destruct (Hrun st eq_refl eq_refl) as (Hk & Hm & _ & _).
  assert (killed = (SuccessJson, with_deadPlayers (set_add code target) st))
    as -> by exact Hk.
  assert (marked = (SuccessJson, with_drunkPlayers (set_add code target) st))
    as -> by exact Hm.
  destruct (Hrun (with_deadPlayers (set_add code target) st)
              eq_refl eq_refl) as (Hk2 & _ & Hr & _).
  destruct (Hrun (with_drunkPlayers (set_add code target) st)
              eq_refl eq_refl) as (_ & Hm2 & _ & Hu).
  assert (revived = (SuccessJson,
            with_deadPlayers (set_remove code target)
              (with_deadPlayers (set_add code target) st)))
    as -> by exact Hr.
  assert (unmarked = (SuccessJson,
            with_drunkPlayers (set_remove code target)
              (with_drunkPlayers (set_add code target) st)))
    as -> by exact Hu.
  cbn [fst snd] in *. split_and!; try done.
  - intros q. apply in_set_add.
  - intros q. cbn. rewrite in_set_remove, in_set_add.
    destruct (bool_decide (q = target)), (in_set _ _ _); done.
  - intros q. apply in_set_add.
  - intros q. cbn. rewrite in_set_remove, in_set_add.
    destruct (bool_decide (q = target)), (in_set _ _ _); done.
  - rewrite Hk2. unfold with_deadPlayers; cbn. by rewrite set_add_twice.
  - rewrite Hm2. unfold with_drunkPlayers; cbn. by rewrite set_add_twice.
Qed.

Lemma overlay_marks_witness :
  in_set (deadPlayers (kill_player (Some "h") "ABCD" "p" demo_room).2)
         "ABCD" "p" = true
  ∧ in_set (deadPlayers
              (revive_player (Some "h") "ABCD" "p"
                 (kill_player (Some "h") "ABCD" "p" demo_room).2).2)
           "ABCD" "p" = false.
Proof.
  destruct (overlay_marks demo_room (Some "h") "ABCD" demo_lobby_room "p")
    as (_ & Hk & Hr & _).
  - vm_compute; reflexivity.
  - vm_compute; reflexivity.
  - right; left.
  - split; [rewrite Hk | rewrite Hr]; vm_compute; reflexivity.
Defined.

(** ** Sending chat messages *)

Lemma empty_content_guard content :
  negb (truthy content) || (js_length (trim content) =? 0) = true
  ↔ js_length (trim content) = 0.
Proof.
  unfold truthy. destruct content as [|c rest]; [done|].
  rewrite bool_decide_eq_true_2 by done. simpl negb. rewrite orb_false_l.
  apply Nat.eqb_eq.
Qed.

Lemma recipient_guard room (recipientId : option string) :
  truthy_opt recipientId
  && negb (includes (Room.players room) (default "" recipientId)) = false
  ↔ ∀ r, recipientId = Some r → r ≠ "" → r ∈ Room.players room.
Proof.
  destruct recipientId as [r|]; simpl; [|done].
  unfold truthy. destruct (decide (r = "")) as [->|Hne].
  - rewrite bool_decide_eq_false_2 by (intros H; by apply H).
    split; [|done]. by intros _ r [= <-].
  - rewrite bool_decide_eq_true_2 by done. simpl.
    rewrite negb_false_iff, includes_true. split.
    + by intros Hin r' [= <-].
    + intros H. by apply H.
Qed.

(** The outcome of a send, guard by guard. *)
Lemma post_chat_outcome st cookie reqCode content recipientId
    nowId nowStamp sender room :
  session st cookie = Some sender →
  rooms st !! toUpperCase reqCode = Some room →
  let out :=
    post_chat cookie reqCode content recipientId nowId nowStamp st in
  let allowed :=
    sender ∈ Room.players room
    ∧ 0 < js_length (trim content)
    ∧ js_length content ≤ 500
    ∧ if decide (Room.hostId room = sender)
      then ∀ r, recipientId = Some r → r ≠ "" → r ∈ Room.players room
      else recipientId = Some (Room.hostId room) in
  ((∃ msg, out.1 = MessageJson msg) ↔ allowed)
  ∧ (allowed →
     ∃ msg, out.1 = MessageJson msg
       ∧ Message.senderId msg = sender
       ∧ Message.content msg = trim content
       ∧ Message.recipientId msg = or_null recipientId
       ∧ Message.isFromHost msg = bool_decide (Room.hostId room = sender)
       ∧ chatMessages out.2 !! toUpperCase reqCode
         = Some (default [] (chatMessages st !! toUpperCase reqCode)
                 ++ [msg]))
  ∧ (sender ∈ Room.players room → 0 < js_length (trim content) →
     js_length content ≤ 500 → Room.hostId room ≠ sender →
     recipientId ≠ Some (Room.hostId room) →
     out = (Err 403 "Players can only message the host", st)).
Proof.
  intros Hsess Hroom out allowed.
  destruct (session_inv _ _ _ Hsess) as (_ & _ & [pl Hpl]).
  unfold allowed, out, post_chat. rewrite Hsess, Hroom, Hpl.
  clear out allowed.
  destruct (includes (Room.players room) sender) eqn:Hinc; simpl negb;
    cbv iota.
  2: { apply includes_false in Hinc.
       split_and!; [split; [by intros [msg [=]] | tauto] | tauto | tauto]. }
  apply includes_true in Hinc.
  destruct (negb (truthy content) || (js_length (trim content) =? 0))
    eqn:Hblank.
  { apply empty_content_guard in Hblank.
    split_and!; [split; [by intros [msg [=]] |] | |]; intros; lia. }
  assert (0 < js_length (trim content)) as Hfull.
  { apply Nat.neq_0_lt_0. intros Hz.
    apply (proj2 (empty_content_guard content)) in Hz. congruence. }
  destruct (500 <? js_length content) eqn:Hlong.
  { apply Nat.ltb_lt in Hlong.
    split_and!; [split; [by intros [msg [=]] |] | |].
    - intros (_ & _ & ? & _); lia.
    - intros (_ & _ & ? & _); lia.
    - intros; lia. }
  apply Nat.ltb_ge in Hlong.
  destruct (decide (Room.hostId room = sender)) as [Hhost|Hguest].
  - rewrite (bool_decide_eq_true_2 _ Hhost). simpl negb. cbv iota.
    rewrite andb_false_l, andb_true_l.
    destruct (truthy_opt recipientId && negb _) eqn:Hrec.
    + assert (¬ ∀ r, recipientId = Some r → r ≠ "" → r ∈ Room.players room)
        as Hno.
      { intros H. apply (proj2 (recipient_guard room recipientId)) in H.
        congruence. }
      split_and!; [split; [by intros [msg [=]] | tauto] | tauto | done].
    + pose proof (proj1 (recipient_guard room recipientId) Hrec) as Hmem.
      assert (∃ msg : Message.t,
        MessageJson
          (Message.mk (pretty nowId) sender (Player.emoji pl)
             (Player.username pl) true (or_null recipientId)
             (trim content) nowStamp) = MessageJson msg) as Hex by eauto.
      split_and!; [split; [done | intros _; exact Hex] | | done].
      intros _. eexists. split_and!; try reflexivity.
      simpl. by rewrite lookup_insert_eq.
  - rewrite (bool_decide_eq_false_2 _ Hguest). simpl negb.
    rewrite andb_true_l, andb_false_l.
    destruct (decide (recipientId = Some (Room.hostId room))) as [Hr|Hr].
    + rewrite (bool_decide_eq_false_2 _ (λ H, H Hr)).
      assert (∃ msg : Message.t,
        MessageJson
          (Message.mk (pretty nowId) sender (Player.emoji pl)
             (Player.username pl) false (or_null recipientId)
             (trim content) nowStamp) = MessageJson msg) as Hex by eauto.
      split_and!; [split; [done | intros _; exact Hex] | | done].
      intros _. eexists. split_and!; try reflexivity.
      simpl. by rewrite lookup_insert_eq.
    + rewrite (bool_decide_eq_true_2 _ Hr).
      split_and!; [split; [by intros [msg [=]] | tauto] | tauto | done].
Qed.

(** X11: for a stored player and an existing room, a chat message is
    accepted exactly when the sender is a member, the content still has
    characters after trimming and is at most 500 UTF-16 code units long,
    and the recipient fits the sender: a player other than the host must address
    the host, the host may address everyone (no recipient) or a member.
    The accepted message is appended to the log of the room with the
    trimmed content; a player who addresses anyone but the host is told
    403 "Players can only message the host". *)
Theorem post_chat_accepts_iff st cookie reqCode content recipientId
    nowId nowStamp sender room :
  session st cookie = Some sender →
  rooms st !! toUpperCase reqCode = Some room →
  let out :=
    post_chat cookie reqCode content recipientId nowId nowStamp st in
  let allowed :=
    sender ∈ Room.players room
    ∧ 0 < js_length (trim content)
    ∧ js_length content ≤ 500
    ∧ if decide (Room.hostId room = sender)
      then ∀ r, recipientId = Some r → r ≠ "" → r ∈ Room.players room
      else recipientId = Some (Room.hostId room) in
  ((∃ msg, out.1 = MessageJson msg) ↔ allowed)
  ∧ (allowed →
     ∃ msg, out.1 = MessageJson msg
       ∧ Message.senderId msg = sender
       ∧ Message.content msg = trim content
       ∧ Message.recipientId msg = or_null recipientId
       ∧ Message.isFromHost msg = bool_decide (Room.hostId room = sender)
       ∧ chatMessages out.2 !! toUpperCase reqCode
         = Some (default [] (chatMessages st !! toUpperCase reqCode)
                 ++ [msg]))
  ∧ (sender ∈ Room.players room → 0 < js_length (trim content) →
     js_length content ≤ 500 → Room.hostId room ≠ sender →
     recipientId ≠ Some (Room.hostId room) →
     out = (Err 403 "Players can only message the host", st)).
Proof. apply post_chat_outcome. Qed.

Lemma post_chat_accepts_iff_witness :
  post_chat (Some "p") "ABCD" "psst" (Some "q") 7 7 demo_chat
  = (Err 403 "Players can only message the host", demo_chat)
  ∧ ∃ msg, (post_chat (Some "p") "ABCD" (nbsp +:+ " psst ") (Some "h") 7 7
              demo_chat).1 = MessageJson msg
           ∧ Message.content msg = "psst".
Proof.
  split.
  - destruct (post_chat_accepts_iff demo_chat (Some "p") "ABCD" "psst"
                (Some "q") 7 7 "p" demo_chat_room) as (_ & _ & Hdeny).
    + vm_compute; reflexivity.
    + vm_compute; reflexivity.
    + apply Hdeny; [right; left | vm_compute; lia
                    | vm_compute; lia | discriminate | discriminate].
  - destruct (post_chat_accepts_iff demo_chat (Some "p") "ABCD"
                (nbsp +:+ " psst ") (Some "h") 7 7 "p" demo_chat_room)
      as (_ & Hok & _).
    + vm_compute; reflexivity.
    + vm_compute; reflexivity.
    + destruct Hok as (msg & Hmsg & _ & Hcontent & _).
      * split_and!; [right; left | vm_compute; lia
                     | vm_compute; lia | reflexivity].
      * exists msg. split; [exact Hmsg | exact Hcontent].
Defined.

(** The two tests on the content at work outside the ASCII range: a
    message of 300 accented letters is 300 code units long and is
    accepted, and a content of no-break spaces is empty after
    trimming. *)
Lemma post_chat_unicode_content :
  js_length (String.concat "" (replicate 300 "é")) = 300
  ∧ (∃ msg, (post_chat (Some "p") "ABCD"
               (String.concat "" (replicate 300 "é")) (Some "h") 7 7
               demo_chat).1 = MessageJson msg)
  ∧ js_length "💩" = 2
  ∧ trim (nbsp +:+ nbsp) = ""
  ∧ post_chat (Some "p") "ABCD" (nbsp +:+ nbsp) (Some "h") 7 7 demo_chat
    = (Err 400 "Message cannot be empty", demo_chat).
Proof. vm_compute. split_and!; eauto. Qed.

(** X12: after an accepted message, what a member reads as chat history
    is what the member read before, followed by the new message when it
    is a broadcast or the member is its sender or recipient, and by
    nothing otherwise: a directed message never shows up in the history
    of a third member. *)
Theorem chat_history_grows st cookie reqCode content recipientId
    nowId nowStamp msg st' viewerCookie viewer room :
  post_chat cookie reqCode content recipientId nowId nowStamp st
    = (MessageJson msg, st') →
  session st viewerCookie = Some viewer →
  rooms st !! toUpperCase reqCode = Some room →
  viewer ∈ Room.players room →
  ∃ before,
    get_chat viewerCookie reqCode st = (MessagesJson before, st)
    ∧ get_chat viewerCookie reqCode st'
      = (MessagesJson
           (before ++
            if decide (Message.recipientId msg = None
                       ∨ Message.recipientId msg = Some viewer
                       ∨ Message.senderId msg = viewer)
            then [msg] else []), st').
Proof.
  intros Hpost Hviewer Hroom Hmember%includes_true.
  assert (Message.recipientId msg = or_null recipientId
          ∧ st' = with_chatMessages
             (λ m, <[toUpperCase reqCode :=
                       default [] (m !! toUpperCase reqCode) ++ [msg]]> m) st)
    as [Hrec ->].
  { revert Hpost. unfold post_chat. guards; try discriminate.
    all: by intros [= <- <-]. }
  exists (filter (λ m, visible viewer m = true)
            (default [] (chatMessages st !! toUpperCase reqCode))).
  clear Hpost.
  set (st' := with_chatMessages _ st).
  assert (session st' viewerCookie = Some viewer) as Hviewer'
    by exact Hviewer.
  unfold get_chat. rewrite Hviewer, Hviewer'. unfold st'.
  cbn [rooms with_chatMessages chatMessages].
  rewrite Hroom, Hmember, lookup_insert_eq. simpl negb. cbv iota.
  split; [done|]. cbn [default from_option]. unfold id.
  rewrite filter_app. do 3 f_equal.
  rewrite filter_cons, filter_nil. apply decide_ext.
  assert (message_ok msg) as Hok
    by (unfold message_ok; rewrite Hrec; apply or_null_ok).
  destruct (Message.recipientId msg) as [r|] eqn:Hr.
  - rewrite (visible_directed viewer msg r Hok Hr).
    split; [intros [->|?]; auto | intros [?|[[= ->]|?]]; auto; done].
  - split; [auto | intros _; by apply visible_broadcast].
Qed.

Lemma chat_history_grows_witness :
  ∃ before,
    get_chat (Some "q") "ABCD" demo_three
    = (MessagesJson before, demo_three)
    ∧ get_chat (Some "q") "ABCD" demo_three_sent
      = (MessagesJson (before ++ []), demo_three_sent).
Proof.
  apply (chat_history_grows demo_three (Some "p") "ABCD" "who died?"
           (Some "h") 5001 5001 demo_msg2 demo_three_sent (Some "q") "q"
           demo_chat_room).
  - vm_compute; reflexivity.
  - vm_compute; reflexivity.
  - vm_compute; reflexivity.
  - right; right; left.
Defined.

(** ** Sessions *)

(** X13: a request for a session without a valid cookie stores a new
    player under the generated id, with no name, no room and no host
    flag, and touches no other player and no other store; with that id
    as cookie the next request finds the same player and creates
    nothing. *)
Theorem get_session_creates_once st cookie uuid emoji :
  session st cookie = None →
  uuid ≠ "" →
  let player := Player.mk uuid None emoji None false in
  let out := get_session cookie uuid emoji st in
  out.1 = PlayerJson (Some player)
  ∧ out.2 = with_players (insert uuid player) st
  ∧ session out.2 (Some uuid) = Some uuid
  ∧ (∀ q, q ≠ uuid → players out.2 !! q = players st !! q)
  ∧ ∀ uuid' emoji',
      get_session (Some uuid) uuid' emoji' out.2
      = (PlayerJson (Some player), out.2).
Proof.
  intros Hnone Hne player out.
  assert (out = (PlayerJson (Some player),
                 with_players (insert uuid player) st)) as ->.
  { unfold out, get_session. rewrite Hnone. cbn.
    by rewrite lookup_insert_eq. }
  cbn [fst snd].
  assert (session (with_players (insert uuid player) st) (Some uuid)
          = Some uuid) as Hs.
  { apply session_intro; [done|]. cbn. rewrite lookup_insert_eq. eauto. }
  split_and!; try done.
  - intros q Hq. cbn. by rewrite lookup_insert_ne.
  - intros uuid' emoji'. unfold get_session. rewrite Hs. cbn.
    by rewrite lookup_insert_eq.
Qed.

Lemma get_session_creates_once_witness :
  get_session (Some "h") "x" "🐸"
    (get_session None "h" "🐶" init).2
  = (PlayerJson (Some (Player.mk "h" None "🐶" None false)),
     (get_session None "h" "🐶" init).2).
Proof.
  destruct (get_session_creates_once init None "h" "🐶")
    as (_ & _ & _ & _ & Hagain); [reflexivity | discriminate |].
  apply Hagain.
Defined.

(** ** Leaving a room, seen from the other rooms *)

Lemma leaveRoom_elsewhere playerId roomCode st other :
  other ≠ roomCode →
  let st' := leaveRoom playerId roomCode st in
  rooms st' !! other = rooms st !! other
  ∧ deadPlayers st' !! other = deadPlayers st !! other
  ∧ drunkPlayers st' !! other = drunkPlayers st !! other
  ∧ playerOrder st' !! other = playerOrder st !! other
  ∧ chatMessages st' !! other = chatMessages st !! other.
Proof.
  intros Hne. unfold leaveRoom.
  destruct (rooms st !! roomCode) as [room|]; [|done].
  destruct (filter _ (Room.players room)) as [|first rest];
    [|case_decide]; cbn;
    rewrite ?lookup_delete_ne, ?lookup_insert_ne by done; done.
Qed.

Lemma leave_current_elsewhere playerId st other :
  (∀ player, players st !! playerId = Some player →
             Player.roomCode player ≠ Some other) →
  let st' := leave_current playerId st in
  rooms st' !! other = rooms st !! other
  ∧ deadPlayers st' !! other = deadPlayers st !! other
  ∧ drunkPlayers st' !! other = drunkPlayers st !! other
  ∧ playerOrder st' !! other = playerOrder st !! other
  ∧ chatMessages st' !! other = chatMessages st !! other.
Proof.
  intros Hnot. unfold leave_current.
  destruct (players st !! playerId) as [player|] eqn:Hp; [|done].
  destruct (Player.roomCode player) as [rc|] eqn:Hrc; [|done].
  destruct (truthy rc && has (rooms st) rc); [|done].
  apply leaveRoom_elsewhere. intros ->. by apply (Hnot player).
Qed.

(** ** Creating a room *)

(** X14: create-room first takes the caller out of the room they are in
    and then opens a room under the first drawn code that no live room
    has: the caller is its host and only member, the default role set is
    active, nothing is selected or assigned, and every room that is live
    after the caller has left is still there, unchanged, as are all
    side tables.  The call does not return only if every drawn code is
    taken. *)
Theorem room_create_opens_fresh_room st cookie draws now playerId :
  session st cookie = Some playerId →
  let left := leave_current playerId st in
  let out := room_create cookie draws now st in
  match generateRoomCode draws (rooms left) with
  | None => out.1 = Hang ∧ Forall (λ c, is_Some (rooms left !! c)) draws
  | Some code =>
      let room :=
        Room.mk code playerId [playerId] now [] false "trouble_brewing" in
      code ∈ draws
      ∧ rooms left !! code = None
      ∧ rooms out.2 = <[code := room]> (rooms left)
      ∧ (∃ player,
           out.1 = RoomPlayerJson room (Some player)
           ∧ players out.2 !! playerId = Some player
           ∧ Player.roomCode player = Some code
           ∧ Player.isHost player = true)
      ∧ playerRoles out.2 = playerRoles left
      ∧ deadPlayers out.2 = deadPlayers left
      ∧ drunkPlayers out.2 = drunkPlayers left
      ∧ playerOrder out.2 = playerOrder left
      ∧ chatMessages out.2 = chatMessages left
  end.
Proof.
  intros Hsess left out.
  destruct (session_inv _ _ _ Hsess) as (_ & _ & [pl Hpl]).
  pose proof (leave_current_profile playerId st playerId) as Hprof.
  unfold profile in Hprof. rewrite Hpl in Hprof. fold left in Hprof.
  destruct (players left !! playerId) as [pl1|] eqn:Hpl1; [|done].
  pose proof (generateRoomCode_spec draws (rooms left)) as Hgen.
  unfold out, room_create. rewrite Hsess. fold left.
  cbn [rooms with_players].
  destruct (generateRoomCode draws (rooms left)) as [code|].
  - destruct Hgen as [Hin Hfresh]. cbn.
    rewrite !lookup_alter_eq, Hpl1. cbn.
    split_and!; try done. eexists. split_and!; reflexivity.
  - done.
Qed.

Lemma room_create_opens_fresh_room_witness :
  rooms (room_create (Some "p") ["ABCD"; "EFGH"] 2000 demo_room).2 !! "EFGH"
  = Some (Room.mk "EFGH" "p" ["p"] 2000 [] false "trouble_brewing")
  ∧ Room.players <$>
      rooms (room_create (Some "p") ["ABCD"; "EFGH"] 2000 demo_room).2
        !! "ABCD" = Some ["h"].
Proof.
  pose proof (room_create_opens_fresh_room demo_room (Some "p")
                ["ABCD"; "EFGH"] 2000 "p") as H.
  assert (generateRoomCode ["ABCD"; "EFGH"]
            (rooms (leave_current "p" demo_room)) = Some "EFGH") as Hgen
    by (vm_compute; reflexivity).
  cbv zeta in H. rewrite Hgen in H.
  destruct H as (_ & _ & Hrooms & _); [vm_compute; reflexivity|].
  rewrite Hrooms. split; [apply lookup_insert_eq|].
  rewrite lookup_insert_ne by discriminate. vm_compute. reflexivity.
Defined.

(** ** Joining and leaving *)

(** X15: a stored player who joins a room they are not in (coming from
    no room or from another one) is put at the end of its member list;
    the members before keep their places, the host stays, and the seating
    order, marks and chat log of the room are not touched.  The player's
    record then names the room, with the host flag down. *)
Theorem room_join_appends st cookie roomCode playerId player room :
  session st cookie = Some playerId →
  players st !! playerId = Some player →
  rooms st !! toUpperCase roomCode = Some room →
  Player.roomCode player ≠ Some (toUpperCase roomCode) →
  playerId ∉ Room.players room →
  Room.hostId room ≠ playerId →
  let code := toUpperCase roomCode in
  let room' := Room.set_players (Room.players room ++ [playerId]) room in
  let out := room_join cookie roomCode st in
  rooms out.2 !! code = Some room'
  ∧ (∃ player',
       out.1 = RoomPlayerJson room' (Some player')
       ∧ players out.2 !! playerId = Some player'
       ∧ Player.roomCode player' = Some code
       ∧ Player.isHost player' = false)
  ∧ playerOrder out.2 !! code = playerOrder st !! code
  ∧ deadPlayers out.2 !! code = deadPlayers st !! code
  ∧ drunkPlayers out.2 !! code = drunkPlayers st !! code
  ∧ chatMessages out.2 !! code = chatMessages st !! code.
Proof.
  intros Hsess Hpl Hroom Hrc Hnin%includes_false Hhost code room' out.
  destruct (leave_current_elsewhere playerId st code)
    as (Hr & Hd & Hk & Ho & Hc).
  { intros pl. rewrite Hpl. by intros [= <-]. }
  pose proof (leave_current_profile playerId st playerId) as Hprof.
  unfold profile in Hprof. rewrite Hpl in Hprof.
  destruct (players (leave_current playerId st) !! playerId) as [pl1|]
    eqn:Hpl1; [|done].
  unfold out, room_join, room', code in *. clear out room' code.
  rewrite Hsess.
  rewrite (proj2 (has_true _ _)) by (by rewrite Hroom).
  simpl negb. cbv iota. cbn [rooms with_players].
  rewrite Hr, Hroom, Hnin. simpl negb. cbv iota.
  cbn. rewrite !lookup_alter_eq, Hpl1, lookup_insert_eq. cbn.
  rewrite bool_decide_eq_false_2 by done.
  split_and!; try done. eexists. split_and!; reflexivity.
Qed.

Lemma room_join_appends_witness :
  Room.players <$>
    rooms (room_join (Some "l") "abcd" demo_lucas).2 !! "ABCD"
  = Some ["h"; "p"; "l"].
Proof.
  destruct (room_join_appends demo_lucas (Some "l") "abcd" "l"
              demo_lucas_player demo_lobby_room) as (Hrooms & _).
  - vm_compute; reflexivity.
  - vm_compute; reflexivity.
  - vm_compute; reflexivity.
  - discriminate.
  - intros [[=]|[[=]|[]%not_elem_of_nil]%elem_of_cons]%elem_of_cons.
  - discriminate.
  - change (toUpperCase "abcd") with "ABCD" in Hrooms.
    by rewrite Hrooms.
Defined.

(** X16: when a stored player whose record names a live room leaves, the
    record names no room and has the host flag down, the player's role is
    gone, and the room either is deleted (nobody else was in it) or lists
    the other members in their old order; a leaver who was not the host
    leaves the host as it was.  The selection, the role set and the
    assigned flag of the room are kept, and no other room is touched. *)
Theorem room_leave_removes st cookie playerId player code room :
  session st cookie = Some playerId →
  players st !! playerId = Some player →
  Player.roomCode player = Some code →
  code ≠ "" →
  rooms st !! code = Some room →
  let out := room_leave cookie st in
  let remaining := filter (λ id, id ≠ playerId) (Room.players room) in
  out.1 = SuccessJson
  ∧ (∃ player', players out.2 !! playerId = Some player'
       ∧ Player.roomCode player' = None
       ∧ Player.isHost player' = false
       ∧ name_emoji player' = name_emoji player)
  ∧ playerRoles out.2 !! playerId = None
  ∧ (match rooms out.2 !! code with
     | None => remaining = []
     | Some room' =>
         Room.players room' = remaining
         ∧ (playerId ∉ Room.players room')
         ∧ (Room.hostId room ≠ playerId →
            Room.hostId room' = Room.hostId room)
         ∧ Room.selectedRoles room' = Room.selectedRoles room
         ∧ Room.roleSet room' = Room.roleSet room
         ∧ Room.rolesAssigned room' = Room.rolesAssigned room
     end)
  ∧ ∀ other, other ≠ code → rooms out.2 !! other = rooms st !! other.
Proof.
  intros Hsess Hpl Hrc Hcode Hroom out remaining.
  assert (out = (SuccessJson, leaveRoom playerId code st)) as ->.
  { unfold out, room_leave, leave_current. rewrite Hsess, Hpl, Hrc.
    unfold truthy. rewrite bool_decide_eq_true_2 by done.
    by rewrite (proj2 (has_true _ _)) by (by rewrite Hroom). }
  cbn [fst snd].
  assert (playerId ∉ remaining) as Hgone.
  { unfold remaining. intros [? _]%list_elem_of_filter. done. }
  split_and!; [done | | | |].
  - unfold leaveRoom. rewrite Hroom. fold remaining.
    destruct remaining as [|first rest]; [|case_decide]; cbn;
      rewrite ?lookup_alter_eq, ?Hpl; cbn.
    + eexists; split_and!; reflexivity.
    + rewrite lookup_alter_ne, lookup_alter_eq, Hpl; cbn.
      * eexists; split_and!; reflexivity.
      * intros ->. apply Hgone. left.
    + eexists; split_and!; reflexivity.
  - unfold leaveRoom. rewrite Hroom.
    destruct (filter _ _) as [|first rest]; [|case_decide]; cbn;
      apply lookup_delete_eq.
  - unfold leaveRoom. rewrite Hroom. fold remaining.
    destruct remaining as [|first rest] eqn:Hrem; [|case_decide]; cbn.
    + by rewrite lookup_delete_eq.
    + rewrite lookup_insert_eq. cbn. split_and!; done.
    + rewrite lookup_insert_eq. cbn. split_and!; done.
  - intros other Hother.
    by destruct (leaveRoom_elsewhere playerId code st other Hother).
Qed.

Lemma room_leave_removes_witness :
  Room.players <$> rooms (room_leave (Some "p") demo_assigned).2 !! "ABCD"
  = Some ["h"]
  ∧ playerRoles (room_leave (Some "p") demo_assigned).2 !! "p" = None.
Proof.
  destruct (room_leave_removes demo_assigned (Some "p") "p"
              (Player.mk "p" None "🐱" (Some "ABCD") false) "ABCD"
              (Room.set_rolesAssigned true demo_selected_room))
    as (_ & _ & Hrole & Hroom & _).
  - vm_compute; reflexivity.
  - vm_compute; reflexivity.
  - reflexivity.
  - discriminate.
  - vm_compute; reflexivity.
  - split; [|exact Hrole].
    destruct (rooms (room_leave (Some "p") demo_assigned).2 !! "ABCD")
      as [room'|].
    + simpl. destruct Hroom as [-> _]. reflexivity.
    + discriminate Hroom.
Defined.

(** ** Room codes are read without regard to case *)

(** A handler reads the room code of its request through
    [toUpperCase] only. *)
Lemma handle_code_ext roleSets f req st :
  (∀ reqCode, code_of req = Some reqCode →
              toUpperCase (f reqCode) = toUpperCase reqCode) →
  handle roleSets (with_code f req) st = handle roleSets req st.
Proof.
  intros Hf.
  destruct req; simpl; try reflexivity; handler;
    by rewrite (Hf _ eq_refl).
Qed.

Lemma upper_lower_char c : upper_char (lower_char c) = upper_char c.
Proof. by destruct c as [[] [] [] [] [] [] [] []]. Qed.

Lemma toUpperCase_toLowerCase s : toUpperCase (toLowerCase s) = toUpperCase s.
Proof.
  unfold toUpperCase, toLowerCase.
  induction s as [|c s IH]; [done|]. cbn [map_string].
  by rewrite upper_lower_char, IH.
Qed.

(** Spellings that differ in the case of letters only are upper-cased
    to the same code. *)
Lemma toUpperCase_fold s s' :
  toLowerCase s' = toLowerCase s → toUpperCase s' = toUpperCase s.
Proof.
  intros H. by rewrite <- (toUpperCase_toLowerCase s'), H,
                       toUpperCase_toLowerCase.
Qed.

(** X17: room codes are matched without regard to the case of their
    letters: every route reads the room code through [toUpperCase] only,
    so two requests that differ only in the case of the letters of an
    ASCII room code get the same reply and have the same effect. *)
Theorem room_code_case_insensitive roleSets req reqCode reqCode' st :
  code_of req = Some reqCode →
  is_ascii reqCode = true →
  toLowerCase reqCode' = toLowerCase reqCode →
  handle roleSets (with_code (λ _, reqCode') req) st = handle roleSets req st.
Proof.
  intros Hcode _ Hfold. apply handle_code_ext.
  intros c Hc. rewrite Hcode in Hc. injection Hc as <-.
  by apply toUpperCase_fold.
Qed.

Lemma room_code_case_insensitive_witness :
  handle demo_roleSets (GetRoom "aBcd") demo_room
  = handle demo_roleSets (GetRoom "ABCD") demo_room
  ∧ ∃ room name roomPlayers shown setRoles,
      (handle demo_roleSets (GetRoom "aBcd") demo_room).1
      = RoomDataJson room name roomPlayers shown setRoles.
Proof.
  split.
  - apply (room_code_case_insensitive demo_roleSets (GetRoom "ABCD")
             "ABCD" "aBcd" demo_room); reflexivity.
  - vm_compute. eauto 10.
Defined.

(** ** Trimming *)

Lemma trim_start_unfold s :
  trim_start s = match white_prefix s with
                 | Some rest => trim_start rest
                 | None => s
                 end.
Proof.
  destruct s as [|c1 [|c2 [|c3 s3]]]; simpl; try done.
  - by destruct (is_white c1).
  - destruct (is_white c1); [done|]. by destruct (is_white2 c1 c2).
  - destruct (is_white c1); [done|]. destruct (is_white2 c1 c2); [done|].
    by destruct (is_white3 c1 c2 c3).
Qed.

Lemma white_prefix_Some s rest :
  white_prefix s = Some rest →
  ∃ w, w ≠ "" ∧ s = w +:+ rest ∧ ∀ t, white_prefix (w +:+ t) = Some t.
Proof.
  destruct s as [|c1 [|c2 [|c3 s3]]]; simpl; try done.
  - destruct (is_white c1) eqn:H1; [|done]. intros [= <-].
    exists (String c1 ""). split_and!; [done..|]. intros t. simpl. by rewrite H1.
  - destruct (is_white c1) eqn:H1.
    { intros [= <-]. exists (String c1 ""). split_and!; [done..|].
      intros t. simpl. by rewrite H1. }
    destruct (is_white2 c1 c2) eqn:H2; [|done]. intros [= <-].
    exists (String c1 (String c2 "")). split_and!; [done..|].
    intros t. simpl. by rewrite H1, H2.
  - destruct (is_white c1) eqn:H1.
    { intros [= <-]. exists (String c1 ""). split_and!; [done..|].
      intros t. simpl. by rewrite H1. }
    destruct (is_white2 c1 c2) eqn:H2.
    { intros [= <-]. exists (String c1 (String c2 "")). split_and!; [done..|].
      intros t. simpl. by rewrite H1, H2. }
    destruct (is_white3 c1 c2 c3) eqn:H3; [|done]. intros [= <-].
    exists (String c1 (String c2 (String c3 ""))). split_and!; [done..|].
    intros t. simpl. by rewrite H1, H2, H3.
Qed.

Lemma string_app_cons c (a b : string) :
  String c a +:+ b = String c (a +:+ b).
Proof. reflexivity. Qed.

Lemma string_app_assoc (a b c : string) : (a +:+ b) +:+ c = a +:+ (b +:+ c).
Proof.
  induction a as [|x a IH]; [done|]. by rewrite !string_app_cons, IH.
Qed.

Lemma string_app_length (a b : string) :
  String.length (a +:+ b) = String.length a + String.length b.
Proof.
  induction a as [|x a IH]; [done|]. rewrite string_app_cons. simpl.
  by rewrite IH.
Qed.

Lemma js_length_app a b : js_length (a +:+ b) = js_length a + js_length b.
Proof.
  induction a as [|x a IH]; [done|]. rewrite string_app_cons. simpl.
  rewrite IH. lia.
Qed.

Lemma white_prefix_app u x r :
  white_prefix u = Some x → white_prefix (u +:+ r) = Some (x +:+ r).
Proof.
  intros (w & _ & -> & Hw)%white_prefix_Some.
  by rewrite string_app_assoc, Hw.
Qed.

Lemma white_prefix_shorter s rest :
  white_prefix s = Some rest → String.length rest < String.length s.
Proof.
  intros (w & Hne & -> & _)%white_prefix_Some. rewrite string_app_length.
  destruct w; [done|]. simpl. lia.
Qed.

(** Induction along [trim_start]. *)
Lemma trim_start_ind (P : string → Prop) :
  (∀ s, white_prefix s = None → P s) →
  (∀ s rest, white_prefix s = Some rest → P rest → P s) →
  ∀ s, P s.
Proof.
  intros Hstop Hstep s.
  remember (String.length s) as n eqn:Hn.
  revert s Hn. induction (lt_wf n) as [n _ IH]. intros s ->.
  destruct (white_prefix s) as [rest|] eqn:Hw; [|by apply Hstop].
  apply (Hstep _ _ Hw), (IH (String.length rest)); [|done].
  by apply white_prefix_shorter.
Qed.

Lemma trim_start_stops s : white_prefix (trim_start s) = None.
Proof.
  induction s as [s Hw|s rest Hw IH] using trim_start_ind;
    rewrite trim_start_unfold, Hw; done.
Qed.

Lemma trim_start_fixed s : white_prefix s = None → trim_start s = s.
Proof. intros Hw. by rewrite trim_start_unfold, Hw. Qed.

Lemma trim_start_suffix s : ∃ p, s = p +:+ trim_start s.
Proof.
  induction s as [s Hw|s rest Hw [p IH]] using trim_start_ind.
  - exists "". by rewrite trim_start_fixed.
  - rewrite trim_start_unfold, Hw.
    apply white_prefix_Some in Hw as (w & _ & -> & _).
    exists (w +:+ p). by rewrite string_app_assoc, <- IH.
Qed.

Lemma blank_app a r :
  blank a = true → trim_start (a +:+ r) = trim_start r.
Proof.
  unfold blank. rewrite bool_decide_eq_true.
  induction a as [a Hw|a rest Hw IH] using trim_start_ind.
  - rewrite trim_start_fixed by done. by intros ->.
  - rewrite trim_start_unfold, Hw. intros Hb.
    by rewrite trim_start_unfold, (white_prefix_app _ _ r Hw), IH.
Qed.

Lemma trim_end_prefix s : ∃ r, s = trim_end s +:+ r ∧ blank r = true.
Proof.
  induction s as [|c s (r & IH & Hr)]; [by exists ""|].
  simpl. destruct (blank (String c s)) eqn:Hb; [by eexists|].
  exists r. by rewrite string_app_cons, <- IH.
Qed.

Lemma blank_trim_end s : blank (trim_end s) = true → blank s = true.
Proof.
  destruct (trim_end_prefix s) as (r & Hs & Hr). intros Hb.
  unfold blank. rewrite bool_decide_eq_true, Hs, (blank_app _ _ Hb).
  by apply bool_decide_eq_true in Hr.
Qed.

Lemma trim_end_fixed s : trim_end (trim_end s) = trim_end s.
Proof.
  induction s as [|c s IH]; [done|]. simpl.
  destruct (blank (String c s)) eqn:Hb; [done|].
  simpl. rewrite IH.
  destruct (blank (String c (trim_end s))) eqn:Hb'; [|done].
  assert (blank (trim_end (String c s)) = true) as H%blank_trim_end
    by (simpl; by rewrite Hb). congruence.
Qed.

Lemma trim_end_stops s :
  white_prefix s = None → white_prefix (trim_end s) = None.
Proof.
  intros Hs. destruct (trim_end_prefix s) as (r & Heq & _).
  destruct (white_prefix (trim_end s)) as [x|] eqn:Hw; [|done].
  apply (white_prefix_app _ _ r) in Hw. rewrite <- Heq in Hw. congruence.
Qed.

(** A second [trim] changes nothing. *)
Lemma trim_idempotent s : trim (trim s) = trim s.
Proof.
  unfold trim.
  rewrite (trim_start_fixed (trim_end _))
    by apply trim_end_stops, trim_start_stops.
  apply trim_end_fixed.
Qed.

(** [trim] only removes characters. *)
Lemma trim_length s : js_length (trim s) ≤ js_length s.
Proof.
  unfold trim. destruct (trim_start_suffix s) as [p Hp].
  destruct (trim_end_prefix (trim_start s)) as (r & Hr & _).
  pose proof (f_equal js_length Hp) as Hp'.
  pose proof (f_equal js_length Hr) as Hr'.
  rewrite js_length_app in Hp', Hr'. lia.
Qed.

(** ** Tidy stores are kept tidy *)

Lemma tidy_init : tidy init.
Proof.
  split; simpl; intros *; rewrite ?lookup_empty; try done.
Qed.

Lemma tidy_with_playerRoles f st : tidy st → tidy (with_playerRoles f st).
Proof. intros [T1 T2 T3 T4 T5]. by split. Qed.

(** The side tables may change at the codes of live rooms. *)
Lemma tidy_side st st' :
  rooms st' = rooms st →
  players st' = players st →
  (∀ code, rooms st !! code = None →
     deadPlayers st' !! code = None ∧ drunkPlayers st' !! code = None
     ∧ playerOrder st' !! code = None ∧ chatMessages st' !! code = None) →
  (∀ code msgs, chatMessages st' !! code = Some msgs →
                Forall message_sound msgs) →
  tidy st → tidy st'.
Proof.
  intros Hr Hp Htab Hchat [T1 T2 T3 T4 T5].
  split; rewrite ?Hr, ?Hp; done.
Qed.

(** A player object may change as long as it keeps its id and names the
    room it named, no room, or a live room that lists the player. *)
Lemma tidy_alter f p st :
  (∀ pl, players st !! p = Some pl →
     Player.id (f pl) = Player.id pl
     ∧ (Player.roomCode (f pl) = Player.roomCode pl
        ∨ Player.roomCode (f pl) = None
        ∨ ∃ code room, Player.roomCode (f pl) = Some code
            ∧ rooms st !! code = Some room ∧ p ∈ Room.players room)) →
  tidy st → tidy (with_players (alter f p) st).
Proof.
  intros Hf [T1 T2 T3 T4 T5]. split; simpl; try done.
  - intros code room Hroom. destruct (T1 code room Hroom) as [Hc Hm].
    split; [done|]. intros q Hq. destruct (Hm q Hq) as [Hne Hin].
    split; [done|]. by apply lookup_alter_is_Some.
  - intros q pl' [[<- (pl & Hpl & ->)]|[Hne Hpl]]%lookup_alter_Some.
    + destruct (Hf pl Hpl) as [-> _]. by apply T2.
    + by apply T2.
  - intros q pl' code [[<- (pl & Hpl & ->)]|[Hne Hpl]]%lookup_alter_Some Hrc.
    + destruct (Hf pl Hpl) as [_ [Hsame|[Hnone|Hlive]]].
      * rewrite Hsame in Hrc. by eapply T3.
      * congruence.
      * destruct Hlive as (c & room & Hc & Hroom & Hin).
        assert (c = code) as -> by congruence. eauto.
    + by eapply T3.
Qed.

(** A room may be put under its code when its members are stored
    players and every player that names the code is a member. *)
Lemma tidy_put_room code room st :
  Room.code room = code →
  (∀ q, q ∈ Room.players room → q ≠ "" ∧ is_Some (players st !! q)) →
  (∀ q pl, players st !! q = Some pl → Player.roomCode pl = Some code →
           q ∈ Room.players room) →
  tidy st → tidy (with_rooms (insert code room) st).
Proof.
  intros Hcode Hmem Hptr [T1 T2 T3 T4 T5]. split; simpl; try done.
  - intros c r [[<- <-]|[Hne Hr]]%lookup_insert_Some; [done|].
    by apply T1.
  - intros q pl c Hpl Hrc. destruct (decide (code = c)) as [<-|Hne].
    + rewrite lookup_insert_eq. eauto.
    + rewrite lookup_insert_ne by done. by eapply T3.
  - intros c Hnone. apply lookup_insert_None in Hnone as [Hnone _].
    by apply T4.
Qed.

(** A room may be deleted with its side tables when no player names
    it. *)
Lemma tidy_delete_room code st :
  (∀ q pl, players st !! q = Some pl → Player.roomCode pl ≠ Some code) →
  tidy st →
  tidy (with_chatMessages (delete code)
         (with_playerOrder (delete code)
           (with_drunkPlayers (delete code)
             (with_deadPlayers (delete code)
               (with_rooms (delete code) st))))).
Proof.
  intros Hptr [T1 T2 T3 T4 T5]. split; simpl; try done.
  - intros c r [Hne Hr]%lookup_delete_Some. by apply T1.
  - intros q pl c Hpl Hrc. destruct (decide (code = c)) as [<-|Hne].
    + by destruct (Hptr q pl Hpl).
    + rewrite lookup_delete_ne by done. by eapply T3.
  - intros c Hnone. destruct (decide (code = c)) as [<-|Hne].
    + by rewrite !lookup_delete_eq.
    + rewrite lookup_delete_ne in Hnone by done.
      rewrite !lookup_delete_ne by done. by apply T4.
  - intros c msgs [Hne Hm]%lookup_delete_Some. by eapply T5.
Qed.

Lemma leaveRoom_tidy playerId roomCode st :
  tidy st → tidy (leaveRoom playerId roomCode st).
Proof.
  intros T. unfold leaveRoom.
  destruct (rooms st !! roomCode) as [room|] eqn:Hroom; [|done].
  set (st2 := with_playerRoles (delete playerId)
                (with_players
                   (alter (λ p, Player.set_isHost false
                                  (Player.set_roomCode None p)) playerId)
                   st)).
  assert (tidy st2) as T2.
  { apply tidy_with_playerRoles, tidy_alter; [|done]. intros pl _. auto. }
  assert (∀ q pl, players st2 !! q = Some pl →
            Player.roomCode pl = Some roomCode →
            q ∈ filter (λ id, id ≠ playerId) (Room.players room)) as Hptr.
  { intros q pl Hpl Hrc. destruct (tidy_pointer _ T2 _ _ _ Hpl Hrc)
      as (room' & Hroom' & Hin).
    assert (room' = room) as -> by (cbn in Hroom'; congruence).
    apply list_elem_of_filter. split; [|done]. intros ->.
    cbn in Hpl. rewrite lookup_alter_eq in Hpl.
    destruct (players st !! playerId); simplify_eq/=. }
  assert (∀ q, q ∈ filter (λ id, id ≠ playerId) (Room.players room) →
               q ≠ "" ∧ is_Some (players st2 !! q)) as Hmem.
  { intros q [_ Hq]%list_elem_of_filter.
    by apply (proj2 (tidy_rooms _ T2 roomCode room Hroom)). }
  pose proof (proj1 (tidy_rooms _ T roomCode room Hroom)) as Hcode.
  destruct (filter _ (Room.players room)) as [|first rest] eqn:Hrem.
  - apply tidy_delete_room; [|done]. intros q pl Hpl Hrc.
    pose proof (Hptr q pl Hpl Hrc) as Hin. by apply not_elem_of_nil in Hin.
  - case_decide.
    + apply tidy_put_room; [done | | |].
      * intros q Hq. destruct (Hmem q Hq). split; [done|].
        by apply lookup_alter_is_Some.
      * intros q pl Hpl Hrc. cbn [players with_players] in Hpl.
        apply lookup_alter_Some in Hpl
          as [[<- (pl0 & Hpl0 & ->)]|[? Hpl]]; [left | by eapply Hptr].
      * apply tidy_alter; [|done]. intros pl _. auto.
    + by apply tidy_put_room.
Qed.

Lemma leave_current_tidy playerId st :
  tidy st → tidy (leave_current playerId st).
Proof.
  intros T. unfold leave_current.
  destruct (players st !! playerId) as [player|]; [|done].
  destruct (Player.roomCode player) as [rc|]; [|done].
  destruct (truthy rc && has (rooms st) rc); [|done].
  by apply leaveRoom_tidy.
Qed.

Lemma tidy_same_room code room room' st :
  rooms st !! code = Some room →
  Room.code room' = Room.code room →
  Room.players room' = Room.players room →
  tidy st → tidy (with_rooms (insert code room') st).
Proof.
  intros Hroom Hc Hp T.
  destruct (tidy_rooms _ T code room Hroom) as [Hcode Hmem].
  apply tidy_put_room; [congruence | by rewrite Hp | | done].
  intros q pl Hpl Hrc. rewrite Hp.
  destruct (tidy_pointer _ T _ _ _ Hpl Hrc) as (r & Hr & Hin). congruence.
Qed.

Lemma tidy_new_player uuid emoji st :
  tidy st →
  tidy (with_players (insert uuid (Player.mk uuid None emoji None false)) st).
Proof.
  intros [T1 T2 T3 T4 T5]. split; simpl; try done.
  - intros code room Hroom. destruct (T1 code room Hroom) as [Hc Hm].
    split; [done|]. intros q Hq. destruct (Hm q Hq) as [Hne Hin].
    split; [done|]. rewrite lookup_insert. case_decide; eauto.
  - intros q pl [[<- <-]|[_ Hpl]]%lookup_insert_Some; [done | by apply T2].
  - intros q pl code [[<- <-]|[_ Hpl]]%lookup_insert_Some Hrc;
      [done | by eapply T3].
Qed.

Lemma leave_current_is_Some playerId st q :
  is_Some (players st !! q) →
  is_Some (players (leave_current playerId st) !! q).
Proof.
  intros Hq. pose proof (leave_current_profile playerId st q) as H.
  unfold profile in H. apply (fmap_is_Some name_emoji).
  rewrite H. by apply fmap_is_Some.
Qed.

Lemma room_create_tidy cookie draws now st :
  tidy st → tidy (room_create cookie draws now st).2.
Proof.
  intros T. unfold room_create.
  destruct (session st cookie) as [playerId|] eqn:Hsess; [|done].
  destruct (session_inv _ _ _ Hsess) as (_ & Hne & Hin).
  set (st2 := with_players (alter special_emoji playerId)
                (leave_current playerId st)).
  assert (tidy st2) as T2.
  { apply tidy_alter; [|by apply leave_current_tidy].
    intros pl _. unfold special_emoji. case_decide; auto. }
  assert (is_Some (players st2 !! playerId)) as Hin2.
  { cbn. apply lookup_alter_is_Some. by apply leave_current_is_Some. }
  pose proof (generateRoomCode_spec draws (rooms st2)) as Hgen.
  destruct (generateRoomCode draws (rooms st2)) as [code|]; [|done].
  destruct Hgen as [_ Hfresh]. cbn [snd].
  apply tidy_alter.
  - intros pl _. split; [done|]. right; right.
    eexists _, _. split; [reflexivity|]. cbn.
    rewrite lookup_insert_eq. split; [done | left].
  - apply tidy_put_room; [done | | | done].
    + intros q ->%list_elem_of_singleton. done.
    + intros q pl Hpl Hrc.
      destruct (tidy_pointer _ T2 _ _ _ Hpl Hrc) as (r & Hr & _).
      congruence.
Qed.

Lemma room_join_tidy cookie roomCode st :
  tidy st → tidy (room_join cookie roomCode st).2.
Proof.
  intros T. unfold room_join.
  destruct (session st cookie) as [playerId|] eqn:Hsess; [|done].
  destruct (session_inv _ _ _ Hsess) as (_ & Hne & Hin).
  destruct (negb (has (rooms st) (toUpperCase roomCode))); [done|].
  set (st2 := with_players (alter special_emoji playerId)
                (leave_current playerId st)).
  assert (tidy st2) as T2.
  { apply tidy_alter; [|by apply leave_current_tidy].
    intros pl _. unfold special_emoji. case_decide; auto. }
  assert (is_Some (players st2 !! playerId)) as Hin2.
  { cbn. apply lookup_alter_is_Some. by apply leave_current_is_Some. }
  destruct (rooms st2 !! toUpperCase roomCode) as [room|] eqn:Hroom;
    [|done].
  destruct (tidy_rooms _ T2 _ _ Hroom) as [Hcode Hmem].
  cbn [snd].
  set (room' := if negb (includes (Room.players room) playerId)
                then Room.set_players (Room.players room ++ [playerId]) room
                else room).
  assert (Room.code room' = toUpperCase roomCode
          ∧ playerId ∈ Room.players room'
          ∧ (∀ q, q ∈ Room.players room → q ∈ Room.players room')
          ∧ ∀ q, q ∈ Room.players room' →
                 q ∈ Room.players room ∨ q = playerId) as (H1 & H2 & H3 & H4).
  { unfold room'.
    destruct (includes (Room.players room) playerId) eqn:Hinc; simpl.
    - apply includes_true in Hinc. split_and!; auto.
    - split_and!; [done | | |].
      + apply elem_of_app. right. left.
      + intros q Hq. apply elem_of_app. by left.
      + intros q [?|Hq%list_elem_of_singleton]%elem_of_app; auto. }
  apply tidy_alter.
  - intros pl _. split; [done|]. right; right.
    eexists _, _. split; [reflexivity|]. cbn.
    rewrite lookup_insert_eq. done.
  - apply tidy_put_room; [done | | | done].
    + intros q Hq. destruct (H4 q Hq) as [Hq'|Heq];
        [by apply Hmem | by subst q].
    + intros q pl Hpl Hrc. apply H3.
      destruct (tidy_pointer _ T2 _ _ _ Hpl Hrc) as (r & Hr & Hq).
      congruence.
Qed.

Lemma post_chat_tidy cookie reqCode content recipientId nowId nowStamp st :
  wf st → tidy st →
  tidy (post_chat cookie reqCode content recipientId nowId nowStamp st).2.
Proof.
  intros W T.
  destruct (post_chat cookie reqCode content recipientId nowId nowStamp st)
    as [reply st'] eqn:Hpost. cbn [snd].
  destruct reply;
    try (assert (st' = st) as ->; [|done];
         revert Hpost; unfold post_chat; guards; congruence).
  rename message into msg.
  destruct (session st cookie) as [sender|] eqn:Hsess;
    [|by (unfold post_chat in Hpost; rewrite Hsess in Hpost)].
  destruct (rooms st !! toUpperCase reqCode) as [room|] eqn:Hroom;
    [|by (unfold post_chat in Hpost; rewrite Hsess, Hroom in Hpost)].
  destruct (post_chat_outcome st cookie reqCode content recipientId
              nowId nowStamp sender room Hsess Hroom) as (Hiff & Hok & _).
  rewrite Hpost in Hiff, Hok. cbn [fst snd] in *.
  destruct (proj1 Hiff (ex_intro _ msg eq_refl))
    as (Hmember & Hfull & Hlen & Hrule).
  destruct Hok as (msg' & [= <-] & Hs & Hc & Hr & Hh & Hlog); [done|].
  destruct (session_inv _ _ _ Hsess) as (_ & Hne & _).
  assert (message_sound msg) as Hsound.
  { unfold message_sound. rewrite Hs, Hc, Hr, Hh.
    pose proof (trim_idempotent content) as Hidem.
    pose proof (trim_length content) as Hle.
    split_and!;
      [done | intros Heq; rewrite Heq in Hfull; simpl in Hfull; lia
      | done | done | lia |].
    case_decide as Hhost; [by rewrite bool_decide_eq_true_2|].
    rewrite Hrule. unfold or_null, truthy_opt, truthy.
    rewrite bool_decide_eq_true_2; [done|].
    apply (tidy_rooms _ T _ _ Hroom).
    by destruct (wf_rooms _ W _ _ Hroom). }
  assert (rooms st' = rooms st ∧ players st' = players st
          ∧ deadPlayers st' = deadPlayers st
          ∧ drunkPlayers st' = drunkPlayers st
          ∧ playerOrder st' = playerOrder st
          ∧ ∀ c, c ≠ toUpperCase reqCode →
                 chatMessages st' !! c = chatMessages st !! c)
    as (Er & Ep & Ed & Ek & Eo & Ec).
  { revert Hpost. unfold post_chat. guards; try discriminate.
    all: intros [= _ <-]; cbn; split_and!; try done.
    all: intros c Hc'; by rewrite lookup_insert_ne. }
  apply (tidy_side st); try done.
  - intros c Hnone. rewrite Ed, Ek, Eo, Ec by congruence.
    by apply (tidy_tables _ T).
  - intros c msgs Hmsgs. destruct (decide (c = toUpperCase reqCode)) as [->|Hc'].
    + rewrite Hlog in Hmsgs. injection Hmsgs as <-.
      apply Forall_app. split; [|by apply Forall_singleton].
      destruct (chatMessages st !! toUpperCase reqCode) as [old|] eqn:Hold;
        simpl; [by eapply (tidy_chat _ T) | constructor].
    + rewrite Ec in Hmsgs by done. by eapply (tidy_chat _ T).
Qed.

Lemma lookup_set_add_None code target (m : gmap string (gset string)) c :
  c ≠ code → set_add code target m !! c = m !! c.
Proof. intros Hne. unfold set_add. by rewrite lookup_insert_ne. Qed.

Lemma lookup_set_remove_None code target (m : gmap string (gset string)) c :
  m !! c = None → set_remove code target m !! c = None.
Proof.
  intros Hnone. unfold set_remove.
  destruct (decide (code = c)) as [->|Hne].
  - by rewrite lookup_alter_eq, Hnone.
  - by rewrite lookup_alter_ne.
Qed.

Lemma handle_tidy roleSets req st :
  wf st → tidy st → tidy (handle roleSets req st).2.
Proof.
  intros W T. destruct req; simpl.
  - unfold get_session. guards; [done | by apply tidy_new_player].
  - unfold post_username. guards; [|done].
    apply tidy_alter; [|done]. intros pl _. auto.
  - unfold post_emoji. guards; try done.
    apply tidy_alter; [|done]. intros pl _. auto.
  - by apply room_create_tidy.
  - by apply room_join_tidy.
  - unfold room_leave. guards; [by apply leave_current_tidy | done].
  - unfold get_room. guards; done.
  - unfold post_player_order. guards; try done.
    apply (tidy_side st); try done; [|apply (tidy_chat _ T)].
    intros c Hnone. cbn. rewrite lookup_insert_ne by congruence.
    by apply (tidy_tables _ T).
  - unfold post_role_set. guards; try done.
    by apply (tidy_same_room _ room).
  - unfold post_selected_roles. guards; try done;
      by apply (tidy_same_room _ room).
  - unfold assign_roles. guards; try done.
    apply (tidy_same_room _ room); try done.
    by apply tidy_with_playerRoles.
  - unfold my_role. guards; done.
  - unfold grimoire. guards; done.
  - unfold reset_roles. guards; try done.
    apply (tidy_same_room _ room); try done.
    apply (tidy_side st); try done.
    + intros c Hnone. cbn.
      destruct (tidy_tables _ T c Hnone) as (? & ? & ? & ?).
      split_and!; try done; by apply lookup_delete_None; right.
    + intros c msgs Hm. cbn in Hm.
      apply lookup_delete_Some in Hm as [_ Hm]. by eapply (tidy_chat _ T).
  - unfold kill_player. guards; try done.
    apply (tidy_side st); try done; [|apply (tidy_chat _ T)].
    intros c Hnone. cbn. rewrite lookup_set_add_None by congruence.
    by apply (tidy_tables _ T).
  - unfold revive_player. guards; try done.
    apply (tidy_side st); try done; [|apply (tidy_chat _ T)].
    intros c Hnone. cbn.
    destruct (tidy_tables _ T c Hnone) as (? & ? & ? & ?).
    split_and!; try done. by apply lookup_set_remove_None.
  - unfold mark_drunk. guards; try done.
    apply (tidy_side st); try done; [|apply (tidy_chat _ T)].
    intros c Hnone. cbn. rewrite lookup_set_add_None by congruence.
    by apply (tidy_tables _ T).
  - unfold unmark_drunk. guards; try done.
    apply (tidy_side st); try done; [|apply (tidy_chat _ T)].
    intros c Hnone. cbn.
    destruct (tidy_tables _ T c Hnone) as (? & ? & ? & ?).
    split_and!; try done. by apply lookup_set_remove_None.
  - by apply post_chat_tidy.
  - unfold get_chat. guards; done.
Qed.

Lemma reachable_tidy roleSets st : reachable roleSets st → tidy st.
Proof.
  induction 1 as [|st req R IH]; [apply tidy_init|].
  apply handle_tidy; [by eapply reachable_wf | done].
Qed.

(** ** What tidy stores give *)

(** X18: in every reachable state only live rooms have side tables: a
    code without a room has no dead set, no drunk set, no seating order
    and no chat log, so a room that is opened under a code used before
    starts without marks, order or messages. *)
Theorem side_tables_only_for_live_rooms roleSets st code :
  reachable roleSets st →
  rooms st !! code = None →
  deadPlayers st !! code = None
  ∧ drunkPlayers st !! code = None
  ∧ playerOrder st !! code = None
  ∧ chatMessages st !! code = None.
Proof. intros R. apply (tidy_tables _ (reachable_tidy _ _ R)). Qed.

Lemma side_tables_only_for_live_rooms_witness :
  chatMessages (leaveRoom "h" "ABCD"
                  (run demo_roleSets
                     [PostChat (Some "h") "ABCD" "alone" None 1 1]
                     demo_solo)) !! "ABCD" = None.
Proof.
  apply (side_tables_only_for_live_rooms demo_roleSets).
  - change (reachable demo_roleSets
      (run demo_roleSets
         [PostChat (Some "h") "ABCD" "alone" None 1 1; RoomLeave (Some "h")]
         demo_solo)).
    apply run_reachable, run_reachable, reachable_init.
  - vm_compute; reflexivity.
Defined.

(** X19: in every reachable state the room code in a player record names
    a live room that lists that player: a record never points at a
    deleted room or at a room the player has left. *)
Theorem player_room_code_is_live roleSets st playerId player code :
  reachable roleSets st →
  players st !! playerId = Some player →
  Player.roomCode player = Some code →
  ∃ room, rooms st !! code = Some room ∧ playerId ∈ Room.players room.
Proof. intros R. apply (tidy_pointer _ (reachable_tidy _ _ R)). Qed.

Lemma player_room_code_is_live_witness :
  ∃ room, rooms demo_room !! "ABCD" = Some room ∧ "p" ∈ Room.players room.
Proof.
  apply (player_room_code_is_live demo_roleSets demo_room "p"
           (Player.mk "p" None "🐱" (Some "ABCD") false)).
  - apply run_reachable, reachable_init.
  - vm_compute; reflexivity.
  - reflexivity.
Defined.

(** X20: in every reachable state a room is stored under its own code
    and every member is a stored player, so the room view returns one
    player object for every entry of its seating order, in that order,
    and leaves nobody out. *)
Theorem room_view_lists_every_member roleSets st reqCode room :
  reachable roleSets st →
  rooms st !! toUpperCase reqCode = Some room →
  Room.code room = toUpperCase reqCode
  ∧ ∃ name roomPlayers shown setRoles,
      get_room roleSets reqCode st
      = (RoomDataJson room name roomPlayers shown setRoles, st)
      ∧ (λ view, Player.id view.1) <$> roomPlayers = shown.
Proof.
  intros R Hroom. pose proof (reachable_tidy _ _ R) as T.
  destruct (tidy_rooms _ T _ _ Hroom) as [Hcode Hmem].
  split; [done|]. unfold get_room. rewrite Hroom.
  do 4 eexists. split; [reflexivity|].
  assert (∀ q, q ∈ finalOrder (playerOrder st !! toUpperCase reqCode)
                     (Room.players room) →
               ∃ pl, players st !! q = Some pl ∧ Player.id pl = q) as Hall.
  { intros q Hq.
    assert (q ∈ Room.players room) as Hin.
    { unfold finalOrder in Hq. apply elem_of_app in Hq as [Hq|Hq];
        apply list_elem_of_filter in Hq as [Hq1 Hq2];
        [by apply includes_true | done]. }
    destruct (Hmem q Hin) as [_ [pl Hpl]]. exists pl. split; [done|].
    by apply (tidy_players _ T). }
  induction (finalOrder _ _) as [|q l IH]; [done|].
  destruct (Hall q) as (pl & Hpl & Hid); [left|].
  cbn. rewrite Hpl. cbn. rewrite Hid. f_equal.
  apply IH. intros q' Hq'. apply Hall. by right.
Qed.

Lemma room_view_lists_every_member_witness :
  Room.code demo_lobby_room = toUpperCase "ABCD"
  ∧ ∃ name roomPlayers shown setRoles,
      get_room demo_roleSets "ABCD" demo_room
      = (RoomDataJson demo_lobby_room name roomPlayers shown setRoles,
         demo_room)
      ∧ (λ view, Player.id view.1) <$> roomPlayers = shown.
Proof.
  apply (room_view_lists_every_member demo_roleSets demo_room "ABCD").
  - apply run_reachable, reachable_init.
  - vm_compute; reflexivity.
Defined.

(** X21: in every reachable state every stored chat message has a
    sender, a content that is trimmed, not empty and at most 500 UTF-16
    code units long, and, when it has no recipient, was written by the
    host of the room at the time: no player other than the host ever
    gets a broadcast into a log. *)
Theorem stored_messages_sound roleSets st code msgs msg :
  reachable roleSets st →
  chatMessages st !! code = Some msgs →
  msg ∈ msgs →
  Message.senderId msg ≠ ""
  ∧ Message.content msg ≠ ""
  ∧ trim (Message.content msg) = Message.content msg
  ∧ 0 < js_length (Message.content msg) ≤ 500
  ∧ (Message.recipientId msg = None → Message.isFromHost msg = true).
Proof.
  intros R Hlog Hin.
  pose proof (tidy_chat _ (reachable_tidy _ _ R) _ _ Hlog) as Hall.
  rewrite Forall_forall in Hall. by apply Hall.
Qed.

Lemma stored_messages_sound_witness :
  Message.senderId demo_msg1 ≠ ""
  ∧ Message.content demo_msg1 ≠ ""
  ∧ trim (Message.content demo_msg1) = Message.content demo_msg1
  ∧ 0 < js_length (Message.content demo_msg1) ≤ 500
  ∧ (Message.recipientId demo_msg1 = None →
     Message.isFromHost demo_msg1 = true).
Proof.
  apply (stored_messages_sound demo_roleSets demo_chat "ABCD"
           (default [] (chatMessages demo_chat !! "ABCD")) demo_msg1).
  - apply run_reachable, run_reachable, reachable_init.
  - vm_compute; reflexivity.
  - vm_compute. left.
Defined.

(** ** Runs with sound oracles *)

Lemma sound_reachable_reachable roleSets st :
  sound_reachable roleSets st → reachable roleSets st.
Proof. induction 1; by constructor. Qed.

Lemma sound_run_reachable roleSets reqs st :
  sound_reachable roleSets st → sound_run roleSets reqs st →
  sound_reachable roleSets (run roleSets reqs st).
Proof.
  revert st. induction reqs as [|req reqs IH]; intros st R Hs; [done|].
  destruct Hs as [Hreq Hrest]. simpl. apply IH; [|done]. by constructor.
Defined.

Lemma is_letter_upper ch : is_letter ch = true → upper_char ch = ch.
Proof.
  destruct ch as [[] [] [] [] [] [] [] []]; intros H; vm_compute in H;
    first [ discriminate | reflexivity ].
Qed.

Lemma is_room_code_upper code :
  is_room_code code = true → toUpperCase code = code ∧ code ≠ "".
Proof.
  unfold is_room_code. intros [Hlen Hall]%andb_true_iff.
  apply Nat.eqb_eq in Hlen. split; [|by intros ->].
  clear Hlen. unfold toUpperCase.
  induction code as [|ch code IH]; simpl in *; [done|].
  apply andb_true_iff in Hall as [Hch Hrest].
  by rewrite (is_letter_upper _ Hch), IH.
Qed.

Lemma single_init : single init.
Proof. split; simpl; intros *; rewrite ?lookup_empty; done. Qed.

(** Stores that differ in the side tables only. *)
Lemma single_side st st' :
  rooms st' = rooms st → players st' = players st →
  playerRoles st' = playerRoles st →
  single st → single st'.
Proof.
  intros Hr Hp Hpr [S1 S2 S3 S4]. split; rewrite ?Hr, ?Hp, ?Hpr; done.
Qed.

(** A change of a player object that keeps the room code and the host
    flag. *)
Lemma single_alter f p st :
  (∀ pl, Player.roomCode (f pl) = Player.roomCode pl
         ∧ Player.isHost (f pl) = Player.isHost pl) →
  single st → single (with_players (alter f p) st).
Proof.
  intros Hf [S1 S2 S3 S4]. split; simpl; try done.
  - intros code room q Hroom Hq.
    destruct (S2 code room q Hroom Hq) as (pl & Hpl & Hrc).
    destruct (decide (p = q)) as [->|Hne].
    + exists (f pl). rewrite lookup_alter_eq, Hpl.
      split; [done|]. by rewrite (proj1 (Hf pl)).
    + exists pl. by rewrite lookup_alter_ne.
  - intros q pl' [[<- (pl & Hpl & ->)]|[Hne Hpl]]%lookup_alter_Some.
    + destruct (Hf pl) as [-> ->]. by apply S3.
    + by apply S3.
Qed.

(** A room replaced by one with the same members and host. *)
Lemma single_same_room code room room' st :
  rooms st !! code = Some room →
  Room.players room' = Room.players room →
  Room.hostId room' = Room.hostId room →
  single st → single (with_rooms (insert code room') st).
Proof.
  intros Hroom Hp Hh [S1 S2 S3 S4]. split; simpl.
  - intros c r [[<- <-]|[_ Hr]]%lookup_insert_Some; eauto.
  - intros c r q [[<- <-]|[_ Hr]]%lookup_insert_Some Hq; [|eauto].
    rewrite Hp in Hq. eauto.
  - intros q pl Hpl. rewrite (S3 q pl Hpl).
    destruct (Player.roomCode pl) as [c|]; [|done].
    destruct (decide (code = c)) as [<-|Hne].
    + by rewrite lookup_insert_eq, Hroom, Hh.
    + by rewrite lookup_insert_ne.
  - intros q role Hrole. destruct (S4 q role Hrole) as (c & r & Hr & Hq).
    destruct (decide (code = c)) as [<-|Hne].
    + exists code, room'. rewrite lookup_insert_eq. split; [done|].
      rewrite Hp. congruence.
    + exists c, r. by rewrite lookup_insert_ne.
Qed.

(** A role store with fewer entries. *)
Lemma single_fewer_roles pr st :
  (∀ p role, pr !! p = Some role → playerRoles st !! p = Some role) →
  single st → single (with_playerRoles (λ _, pr) st).
Proof.
  intros Hsub [S1 S2 S3 S4]. split; simpl; try done.
  intros p role Hrole. by eapply S4, Hsub.
Qed.

Lemma leaveRoom_single playerId roomCode st player :
  wf st → tidy st → single st →
  players st !! playerId = Some player →
  Player.roomCode player = Some roomCode →
  single (leaveRoom playerId roomCode st).
Proof.
  intros W T [S1 S2 S3 S4] Hpl Hrc.
  destruct (tidy_pointer _ T _ _ _ Hpl Hrc) as (room & Hroom & Hin).
  unfold leaveRoom. rewrite Hroom.
  set (remaining := filter (λ id, id ≠ playerId) (Room.players room)).
  assert (∀ q, q ∈ remaining ↔ q ≠ playerId ∧ q ∈ Room.players room)
    as Hrem by (intros q; unfold remaining; by rewrite list_elem_of_filter).
  assert (∀ c r q, rooms st !! c = Some r → q ∈ Room.players r →
                   c ≠ roomCode → q ≠ playerId) as Helse.
  { intros c r q Hr Hq Hne ->.
    destruct (S2 c r playerId Hr Hq) as (pl' & Hpl' & Hrc'). congruence. }
  assert (∀ q plq, q ≠ playerId → players st !! q = Some plq →
                   Player.roomCode plq = Some roomCode → q ∈ remaining)
    as Hptr.
  { intros q plq Hne Hq Hqrc. apply Hrem. split; [done|].
    destruct (tidy_pointer _ T _ _ _ Hq Hqrc) as (r & Hr & Hqin).
    congruence. }
  destruct remaining as [|first rest] eqn:Hlist.
  - (* the room is deleted *)
    split; cbn.
    + intros c r [_ Hr]%lookup_delete_Some. eauto.
    + intros c r q [Hne Hr]%lookup_delete_Some Hq.
      destruct (S2 c r q Hr Hq) as (plq & Hplq & Hqrc).
      exists plq. split; [|done]. rewrite lookup_alter_ne; [done|].
      intros <-. by eapply Helse.
    + intros q plq' [[<- (pl0 & Hpl0 & ->)]|[Hne Hq]]%lookup_alter_Some;
        [done|].
      rewrite (S3 q plq' Hq).
      destruct (Player.roomCode plq') as [c|] eqn:Hqrc; [|done].
      destruct (decide (roomCode = c)) as [<-|Hc].
      * pose proof (Hptr q plq' (not_eq_sym Hne) Hq Hqrc) as Hx.
        by apply not_elem_of_nil in Hx.
      * by rewrite lookup_delete_ne.
    + intros q role [Hne Hrole]%lookup_delete_Some.
      destruct (S4 q role Hrole) as (c & r & Hr & Hq).
      destruct (decide (roomCode = c)) as [<-|Hc].
      * assert (q ∈ []) as Hx
          by (apply Hrem; split; [done | congruence]).
        by apply not_elem_of_nil in Hx.
      * exists c, r. by rewrite lookup_delete_ne.
  - assert (first ≠ playerId ∧ first ∈ Room.players room) as [Hfp Hfin]
      by (apply Hrem; left).
    destruct (S2 _ _ first Hroom Hfin) as (plf & Hplf & Hfrc).
    case_decide as Hhost.
    + (* the host leaves: [first] takes over *)
      split; cbn.
      * intros c r [[<- <-]|[_ Hr]]%lookup_insert_Some; eauto.
      * intros c r q [[<- <-]|[Hne Hr]]%lookup_insert_Some Hq.
        -- apply Hrem in Hq as [Hqp Hq].
           destruct (S2 _ _ q Hroom Hq) as (plq & Hplq & Hqrc).
           destruct (decide (first = q)) as [<-|Hfq].
           ++ exists (Player.set_isHost true plq).
              rewrite lookup_alter_eq, lookup_alter_ne, Hplq by done.
              done.
           ++ exists plq. by rewrite !lookup_alter_ne.
        -- destruct (S2 c r q Hr Hq) as (plq & Hplq & Hqrc).
           exists plq. split; [|done].
           rewrite !lookup_alter_ne; [done | |].
           ++ intros <-. by eapply Helse.
           ++ intros <-. congruence.
      * intros q plq' Hq.
        apply lookup_alter_Some in Hq
          as [[<- (x & Hx & ->)]|[Hfq Hq]].
        -- rewrite lookup_alter_ne in Hx by done.
           assert (x = plf) as -> by congruence. cbn.
           rewrite Hfrc, lookup_insert_eq. cbn.
           by rewrite bool_decide_eq_true_2.
        -- apply lookup_alter_Some in Hq
             as [[<- (pl0 & Hpl0 & ->)]|[Hne Hq]]; [done|].
           rewrite (S3 q plq' Hq).
           destruct (Player.roomCode plq') as [c|] eqn:Hqrc; [|done].
           destruct (decide (roomCode = c)) as [<-|Hc].
           ++ rewrite lookup_insert_eq, Hroom. cbn.
              rewrite !bool_decide_eq_false_2; [done | done |].
              rewrite Hhost. done.
           ++ by rewrite lookup_insert_ne.
      * intros q role [Hne Hrole]%lookup_delete_Some.
        destruct (S4 q role Hrole) as (c & r & Hr & Hq).
        destruct (decide (roomCode = c)) as [<-|Hc].
        -- eexists _, _. rewrite lookup_insert_eq. split; [done|].
           cbn. apply Hrem. split; [done | congruence].
        -- exists c, r. by rewrite lookup_insert_ne.
    + (* somebody else leaves *)
      split; cbn.
      * intros c r [[<- <-]|[_ Hr]]%lookup_insert_Some; eauto.
      * intros c r q [[<- <-]|[Hne Hr]]%lookup_insert_Some Hq.
        -- apply Hrem in Hq as [Hqp Hq].
           destruct (S2 _ _ q Hroom Hq) as (plq & Hplq & Hqrc).
           exists plq. by rewrite lookup_alter_ne.
        -- destruct (S2 c r q Hr Hq) as (plq & Hplq & Hqrc).
           exists plq. split; [|done].
           rewrite lookup_alter_ne; [done|]. intros <-. by eapply Helse.
      * intros q plq' [[<- (pl0 & Hpl0 & ->)]|[Hne Hq]]%lookup_alter_Some;
          [done|].
        rewrite (S3 q plq' Hq).
        destruct (Player.roomCode plq') as [c|] eqn:Hqrc; [|done].
        destruct (decide (roomCode = c)) as [<-|Hc].
        -- by rewrite lookup_insert_eq, Hroom.
        -- by rewrite lookup_insert_ne.
      * intros q role [Hne Hrole]%lookup_delete_Some.
        destruct (S4 q role Hrole) as (c & r & Hr & Hq).
        destruct (decide (roomCode = c)) as [<-|Hc].
        -- eexists _, _. rewrite lookup_insert_eq. split; [done|].
           cbn. apply Hrem. split; [done | congruence].
        -- exists c, r. by rewrite lookup_insert_ne.
Qed.

Lemma leaveRoom_leaver playerId roomCode st player room :
  players st !! playerId = Some player →
  rooms st !! roomCode = Some room →
  ∃ player', players (leaveRoom playerId roomCode st) !! playerId
             = Some player'
    ∧ Player.roomCode player' = None ∧ Player.isHost player' = false.
Proof.
  intros Hpl Hroom. unfold leaveRoom. rewrite Hroom.
  destruct (filter _ (Room.players room)) as [|first rest] eqn:Hrem;
    [|case_decide]; cbn.
  - rewrite lookup_alter_eq, Hpl. eauto.
  - assert (first ≠ playerId) as Hne.
    { assert (first ∈ filter (λ id, id ≠ playerId) (Room.players room))
        as Hin by (rewrite Hrem; left).
      by apply list_elem_of_filter in Hin as [? _]. }
    rewrite lookup_alter_ne, lookup_alter_eq, Hpl by done. eauto.
  - rewrite lookup_alter_eq, Hpl. eauto.
Qed.

Lemma leave_current_single playerId st player :
  wf st → tidy st → single st →
  players st !! playerId = Some player →
  single (leave_current playerId st)
  ∧ ∃ player', players (leave_current playerId st) !! playerId
               = Some player'
      ∧ Player.roomCode player' = None ∧ Player.isHost player' = false.
Proof.
  intros W T S Hpl. unfold leave_current. rewrite Hpl.
  destruct (Player.roomCode player) as [rc|] eqn:Hrc.
  - destruct (tidy_pointer _ T _ _ _ Hpl Hrc) as (room & Hroom & Hin).
    destruct (is_room_code_upper rc (single_codes _ S _ _ Hroom))
      as [_ Hne].
    unfold truthy. rewrite bool_decide_eq_true_2 by done.
    rewrite (proj2 (has_true _ _)) by (by rewrite Hroom). simpl.
    split; [by eapply leaveRoom_single | by eapply leaveRoom_leaver].
  - split; [done|]. exists player. split_and!; [done | done |].
    by rewrite (single_host _ S _ _ Hpl), Hrc.
Qed.

(** After the caller has left, the caller is in no room. *)
Lemma roomless st playerId player :
  single st → players st !! playerId = Some player →
  Player.roomCode player = None →
  ∀ code room, rooms st !! code = Some room → playerId ∉ Room.players room.
Proof.
  intros S Hpl Hrc code room Hroom Hin.
  destruct (single_member _ S _ _ _ Hroom Hin) as (pl & Hpl' & Hrc').
  congruence.
Qed.

(** The caller enters a room: the room at [code] is replaced by one
    with the caller added (or is new), and the caller's record is
    pointed at it. *)
Lemma single_enter st playerId player code room' flag :
  single st →
  players st !! playerId = Some player →
  Player.roomCode player = None →
  is_room_code code = true →
  flag = bool_decide (Room.hostId room' = playerId) →
  (match rooms st !! code with
   | Some room =>
       Room.hostId room' = Room.hostId room
       ∧ ∀ q, q ∈ Room.players room' ↔ q ∈ Room.players room ∨ q = playerId
   | None =>
       Room.hostId room' = playerId
       ∧ ∀ q, q ∈ Room.players room' ↔ q = playerId
   end) →
  (∀ q pl, players st !! q = Some pl → Player.roomCode pl = Some code →
           is_Some (rooms st !! code)) →
  single
    (with_players
       (alter (λ p, Player.set_isHost flag
                      (Player.set_roomCode (Some code) p)) playerId)
       (with_rooms (insert code room') st)).
Proof.
  intros S Hpl Hrc Hcode -> Hshape Hlive.
  pose proof (roomless st playerId player S Hpl Hrc) as Hnowhere.
  destruct S as [S1 S2 S3 S4]. split; cbn.
  - intros c r [[<- <-]|[_ Hr]]%lookup_insert_Some; eauto.
  - intros c r q [[<- <-]|[Hne Hr]]%lookup_insert_Some Hq.
    + destruct (decide (q = playerId)) as [->|Hqp].
      * rewrite lookup_alter_eq, Hpl. eauto.
      * rewrite lookup_alter_ne by done.
        destruct (rooms st !! code) as [room|] eqn:Hroom.
        -- destruct Hshape as (_ & Hmem).
           apply Hmem in Hq as [Hq|Hq]; [eauto | done].
        -- destruct Hshape as [_ Hmem]. by apply Hmem in Hq.
    + destruct (S2 c r q Hr Hq) as (pl & Hq' & Hqrc).
      exists pl. split; [|done]. rewrite lookup_alter_ne; [done|].
      intros <-. by eapply Hnowhere.
  - intros q pl' [[<- (pl0 & Hpl0 & ->)]|[Hne Hq]]%lookup_alter_Some.
    + cbn. by rewrite lookup_insert_eq.
    + rewrite (S3 q pl' Hq).
      destruct (Player.roomCode pl') as [c|] eqn:Hqrc; [|done].
      destruct (decide (code = c)) as [<-|Hc].
      * rewrite lookup_insert_eq.
        destruct (Hlive q pl' Hq Hqrc) as [room Hroom].
        rewrite Hroom in Hshape |- *. destruct Hshape as (Hh & _).
        by rewrite Hh.
      * by rewrite lookup_insert_ne.
  - intros q role Hrole. destruct (S4 q role Hrole) as (c & r & Hr & Hq).
    destruct (decide (code = c)) as [<-|Hc].
    + exists code, room'. rewrite lookup_insert_eq. split; [done|].
      rewrite Hr in Hshape. destruct Hshape as (_ & Hmem).
      apply Hmem. by left.
    + exists c, r. by rewrite lookup_insert_ne.
Qed.

Lemma room_create_single cookie draws now st :
  wf st → tidy st → single st →
  Forall (λ code, is_room_code code = true) draws →
  single (room_create cookie draws now st).2.
Proof.
  intros W T S Hdraws. unfold room_create.
  destruct (session st cookie) as [playerId|] eqn:Hsess; [|done].
  destruct (session_inv _ _ _ Hsess) as (_ & _ & [player Hpl]).
  destruct (leave_current_single playerId st player W T S Hpl)
    as (S1 & pl1 & Hpl1 & Hrc1 & Hh1).
  pose proof (leave_current_tidy playerId st T) as T1.
  set (st2 := with_players (alter special_emoji playerId)
                (leave_current playerId st)).
  assert (single st2) as S2.
  { apply single_alter; [|done]. intros pl. unfold special_emoji.
    by case_decide. }
  assert (players st2 !! playerId = Some (special_emoji pl1)) as Hpl2
    by (cbn; by rewrite lookup_alter_eq, Hpl1).
  assert (Player.roomCode (special_emoji pl1) = None) as Hrc2
    by (unfold special_emoji; by case_decide).
  pose proof (generateRoomCode_spec draws (rooms st2)) as Hgen.
  destruct (generateRoomCode draws (rooms st2)) as [code|]; [|done].
  destruct Hgen as [Hin Hfresh]. cbn [snd].
  rewrite Forall_forall in Hdraws.
  apply (single_enter st2 playerId (special_emoji pl1)); try done.
  - by apply Hdraws.
  - cbn. by rewrite bool_decide_eq_true_2.
  - rewrite Hfresh. split; [done|]. intros q. cbn.
    apply list_elem_of_singleton.
  - intros q pl Hq Hqrc.
    assert (tidy st2) as T2.
    { apply tidy_alter; [|done]. intros pl0 _. unfold special_emoji.
      case_decide; auto. }
    destruct (tidy_pointer _ T2 _ _ _ Hq Hqrc) as (r & Hr & _). eauto.
Qed.

Lemma room_join_single cookie roomCode st :
  wf st → tidy st → single st →
  single (room_join cookie roomCode st).2.
Proof.
  intros W T S. unfold room_join.
  destruct (session st cookie) as [playerId|] eqn:Hsess; [|done].
  destruct (session_inv _ _ _ Hsess) as (_ & _ & [player Hpl]).
  destruct (negb (has (rooms st) (toUpperCase roomCode))); [done|].
  destruct (leave_current_single playerId st player W T S Hpl)
    as (S1 & pl1 & Hpl1 & Hrc1 & Hh1).
  set (st2 := with_players (alter special_emoji playerId)
                (leave_current playerId st)).
  assert (single st2) as S2.
  { apply single_alter; [|done]. intros pl. unfold special_emoji.
    by case_decide. }
  assert (players st2 !! playerId = Some (special_emoji pl1)) as Hpl2
    by (cbn; by rewrite lookup_alter_eq, Hpl1).
  assert (Player.roomCode (special_emoji pl1) = None) as Hrc2
    by (unfold special_emoji; by case_decide).
  destruct (rooms st2 !! toUpperCase roomCode) as [room|] eqn:Hroom;
    [|done].
  cbn [snd].
  pose proof (roomless st2 playerId _ S2 Hpl2 Hrc2 _ _ Hroom) as Hout.
  rewrite (proj2 (includes_false _ _) Hout). simpl negb. cbv iota.
  apply (single_enter st2 playerId (special_emoji pl1)); try done.
  all: first
    [ by apply (single_codes _ S2 _ _ Hroom)
    | by (intros q pl Hq Hqrc; rewrite Hroom)
    | rewrite Hroom; split; [done|]; intros q; cbn;
      by rewrite elem_of_app, list_elem_of_singleton ].
Qed.

Lemma assign_roles_single cookie reqCode shufflePlayers shuffleRoles st :
  wf st → single st →
  (∀ l, shufflePlayers l ≡ₚ l) → (∀ l, shuffleRoles l ≡ₚ l) →
  single (assign_roles cookie reqCode shufflePlayers shuffleRoles st).2.
Proof.
  intros W S HP HR. unfold assign_roles. guards; try done.
  set (eligible := filter _ (Room.players room)).
  set (sp := shufflePlayers eligible).
  set (sr := shuffleRoles (Room.selectedRoles room)).
  apply (single_same_room _ room); try done.
  destruct (wf_rooms _ W _ _ Hroom) as [_ Hnd].
  assert (NoDup sp) as Hndsp.
  { unfold sp. rewrite HP. by apply NoDup_filter. }
  assert (length sp = length sr) as Hlen.
  { match goal with
    | H : negb (_ =? _) = false |- _ =>
        apply negb_false_iff, Nat.eqb_eq in H; unfold sp, sr;
        rewrite HP, HR; exact H
    end. }
  destruct (assign_loop_spec sp sr
              (clear_roles (Room.players room) (playerRoles st))
              (length sr) Hndsp Hlen (le_n _)) as [_ Hout].
  destruct S as [S1 S2 S3 S4]. split; cbn; try done.
  intros q role Hrole.
  destruct (decide (q ∈ sp)) as [Hq|Hq].
  - exists (toUpperCase reqCode), room. split; [done|].
    unfold sp in Hq. rewrite HP in Hq.
    by apply list_elem_of_filter in Hq as [_ Hq].
  - rewrite (Hout q Hq), clear_roles_lookup in Hrole.
    case_decide; [done | by eapply S4].
Qed.

Lemma handle_single roleSets req st :
  wf st → tidy st → single st → sound st req →
  single (handle roleSets req st).2.
Proof.
  intros W T S Hsound. destruct req; simpl in *.
  - unfold get_session. guards; [done|].
    destruct Hsound as [Hne Hfresh]. destruct S as [S1 S2 S3 S4].
    split; cbn; try done.
    + intros c r q Hr Hq. destruct (S2 c r q Hr Hq) as (pl & Hpl & Hrc).
      exists pl. rewrite lookup_insert_ne; [done | congruence].
    + intros q pl [[<- <-]|[_ Hpl]]%lookup_insert_Some; [done | eauto].
  - unfold post_username. guards; [|done]. by apply single_alter.
  - unfold post_emoji. guards; try done. by apply single_alter.
  - by apply room_create_single.
  - by apply room_join_single.
  - unfold room_leave.
    destruct (session st cookie) as [playerId|] eqn:Hsess; [|done].
    destruct (session_inv _ _ _ Hsess) as (_ & _ & [player Hpl]).
    by destruct (leave_current_single playerId st player W T S Hpl).
  - unfold get_room. guards; done.
  - unfold post_player_order. guards; try done. by apply (single_side st).
  - unfold post_role_set. guards; try done.
    by apply (single_same_room _ room).
  - unfold post_selected_roles. guards; try done;
      by apply (single_same_room _ room).
  - destruct Hsound. by apply assign_roles_single.
  - unfold my_role. guards; done.
  - unfold grimoire. guards; done.
  - unfold reset_roles. guards; try done.
    apply (single_same_room _ room); try done.
    apply (single_side (with_playerRoles
             (λ _, clear_roles (Room.players room) (playerRoles st)) st));
      try done.
    apply single_fewer_roles; [|done].
    intros q role. rewrite clear_roles_lookup. by case_decide.
  - unfold kill_player. guards; try done. by apply (single_side st).
  - unfold revive_player. guards; try done. by apply (single_side st).
  - unfold mark_drunk. guards; try done. by apply (single_side st).
  - unfold unmark_drunk. guards; try done. by apply (single_side st).
  - unfold post_chat. guards; try done; by apply (single_side st).
  - unfold get_chat. guards; done.
Qed.

Lemma sound_reachable_single roleSets st :
  sound_reachable roleSets st → single st.
Proof.
  induction 1 as [|st req R IH Hs]; [apply single_init|].
  pose proof (sound_reachable_reachable _ _ R) as R'.
  apply handle_single; try done;
    [by eapply reachable_wf | by eapply reachable_tidy].
Qed.

Lemma demo_room_sound : sound_reachable demo_roleSets demo_room.
Proof.
  apply sound_run_reachable; [constructor|].
  repeat split; try discriminate; try (vm_compute; reflexivity).
  by repeat constructor.
Defined.

Lemma demo_assigned_sound : sound_reachable demo_roleSets demo_assigned.
Proof.
  apply sound_run_reachable; [|repeat split; apply reverse_Permutation].
  apply sound_run_reachable; [apply demo_room_sound | by repeat split].
Defined.

(** ** What sound runs give *)

(** X22: when ids are fresh and room codes come from the generator, a
    player is a member of one room at most: the record of every member
    of a room names that room, and no second room lists the player. *)
Theorem player_in_one_room roleSets st code room playerId :
  sound_reachable roleSets st →
  rooms st !! code = Some room →
  playerId ∈ Room.players room →
  (∃ player, players st !! playerId = Some player
             ∧ Player.roomCode player = Some code)
  ∧ ∀ other room',
      rooms st !! other = Some room' → playerId ∈ Room.players room' →
      other = code.
Proof.
  intros R Hroom Hin. pose proof (sound_reachable_single _ _ R) as S.
  destruct (single_member _ S _ _ _ Hroom Hin) as (pl & Hpl & Hrc).
  split; [eauto|]. intros other room' Hroom' Hin'.
  destruct (single_member _ S _ _ _ Hroom' Hin') as (pl' & Hpl' & Hrc').
  congruence.
Qed.

Lemma player_in_one_room_witness :
  ∃ player, players demo_room !! "p" = Some player
            ∧ Player.roomCode player = Some "ABCD".
Proof.
  apply (player_in_one_room demo_roleSets demo_room "ABCD" demo_lobby_room).
  - apply demo_room_sound.
  - vm_compute; reflexivity.
  - right; left.
Defined.

(** X23: in such a run the host flag cached in a player record is never
    stale: it is up exactly when the record names a live room whose host
    is that player. *)
Theorem host_flag_accurate roleSets st playerId player :
  sound_reachable roleSets st →
  players st !! playerId = Some player →
  Player.isHost player = true
  ↔ ∃ code room, Player.roomCode player = Some code
      ∧ rooms st !! code = Some room ∧ Room.hostId room = playerId.
Proof.
  intros R Hpl. pose proof (sound_reachable_single _ _ R) as S.
  rewrite (single_host _ S _ _ Hpl).
  destruct (Player.roomCode player) as [code|].
  - destruct (rooms st !! code) as [room|] eqn:Hroom.
    + rewrite bool_decide_eq_true. split.
      * intros Hh. by exists code, room.
      * intros (c & r & [= <-] & Hr & Hh). congruence.
    + split; [done|]. intros (c & r & [= <-] & Hr & _). congruence.
  - split; [done|]. by intros (c & r & [=] & _).
Qed.

Lemma host_flag_accurate_witness :
  Player.isHost (Player.mk "h" None "🐶" (Some "ABCD") true) = true
  ↔ ∃ code room,
      Player.roomCode (Player.mk "h" None "🐶" (Some "ABCD") true)
      = Some code
      ∧ rooms demo_room !! code = Some room ∧ Room.hostId room = "h".
Proof.
  apply (host_flag_accurate demo_roleSets demo_room "h").
  - apply demo_room_sound.
  - vm_compute; reflexivity.
Defined.

(** X24: in such a run, with shuffles that rearrange their array, only
    members hold roles: whoever has a role is a member of the room their
    record names, and a player whose record names no room has none. *)
Theorem role_holder_is_member roleSets st playerId :
  sound_reachable roleSets st →
  (∀ role, playerRoles st !! playerId = Some role →
     ∃ code room player,
       rooms st !! code = Some room ∧ playerId ∈ Room.players room
       ∧ players st !! playerId = Some player
       ∧ Player.roomCode player = Some code)
  ∧ (∀ player, players st !! playerId = Some player →
       Player.roomCode player = None → playerRoles st !! playerId = None).
Proof.
  intros R. pose proof (sound_reachable_single _ _ R) as S.
  assert (∀ role, playerRoles st !! playerId = Some role →
     ∃ code room player,
       rooms st !! code = Some room ∧ playerId ∈ Room.players room
       ∧ players st !! playerId = Some player
       ∧ Player.roomCode player = Some code) as Hmem.
  { intros role Hrole.
    destruct (single_roles _ S _ _ Hrole) as (code & room & Hroom & Hin).
    destruct (single_member _ S _ _ _ Hroom Hin) as (pl & Hpl & Hrc).
    by exists code, room, pl. }
  split; [done|]. intros player Hpl Hrc.
  destruct (playerRoles st !! playerId) as [role|] eqn:Hrole; [|done].
  destruct (Hmem role eq_refl) as (c & r & pl & _ & _ & Hpl' & Hrc').
  congruence.
Qed.

Lemma role_holder_is_member_witness :
  ∃ code room player,
    rooms demo_assigned !! code = Some room ∧ "p" ∈ Room.players room
    ∧ players demo_assigned !! "p" = Some player
    ∧ Player.roomCode player = Some code.
Proof.
  destruct (role_holder_is_member demo_roleSets demo_assigned "p")
    as [Hmem _]; [apply demo_assigned_sound|].
  apply (Hmem (Role.mk "Chef" "cooks" "Townsfolk")).
  vm_compute; reflexivity.
Defined.

(** X25: in such a run every live room is stored under a code of four
    letters of the generator's alphabet, which upper-casing leaves
    alone, so the room can be reached under its own code: the room view
    for that code answers with that room. *)
Theorem live_room_addressable roleSets st code room :
  sound_reachable roleSets st →
  rooms st !! code = Some room →
  is_room_code code = true
  ∧ toUpperCase code = code
  ∧ Room.code room = code
  ∧ ∃ name roomPlayers shown setRoles,
      get_room roleSets code st
      = (RoomDataJson room name roomPlayers shown setRoles, st).
Proof.
  intros R Hroom. pose proof (sound_reachable_single _ _ R) as S.
  pose proof (reachable_tidy _ _ (sound_reachable_reachable _ _ R)) as T.
  pose proof (single_codes _ S _ _ Hroom) as Hcode.
  destruct (is_room_code_upper _ Hcode) as [Hup _].
  split_and!; [done | done | by apply (tidy_rooms _ T _ _ Hroom) |].
  unfold get_room. rewrite Hup, Hroom. by do 4 eexists.
Qed.

Lemma live_room_addressable_witness :
  is_room_code "ABCD" = true
  ∧ toUpperCase "ABCD" = "ABCD"
  ∧ Room.code demo_lobby_room = "ABCD"
  ∧ ∃ name roomPlayers shown setRoles,
      get_room demo_roleSets "ABCD" demo_room
      = (RoomDataJson demo_lobby_room name roomPlayers shown setRoles,
         demo_room).
Proof.
  apply (live_room_addressable demo_roleSets demo_room "ABCD").
  - apply demo_room_sound.
  - vm_compute; reflexivity.
Defined.

(** ** The client *)

(** X26: the reference distribution shown to the host exists exactly
    from five players on; from 5 to 15 players its four numbers add up
    to the player count, above 15 they add up to 15; and it always has
    one demon and at least one minion. *)
Theorem role_distribution_adds_up playerCount :
  match getRoleDistribution playerCount with
  | None => playerCount < 5
  | Some d =>
      5 ≤ playerCount
      ∧ Distribution.Townsfolk d + Distribution.Outsiders d
        + Distribution.Minions d + Distribution.Demons d
        = Nat.min playerCount 15
      ∧ Distribution.Demons d = 1
      ∧ 1 ≤ Distribution.Minions d
  end.
Proof.
  unfold getRoleDistribution.
  destruct (playerCount <? 5) eqn:Hlow.
  { by apply Nat.ltb_lt in Hlow. }
  apply Nat.ltb_ge in Hlow.
  destruct (15 <=? playerCount) eqn:Hhigh.
  { apply Nat.leb_le in Hhigh. simpl. lia. }
  apply Nat.leb_gt in Hhigh.
  do 15 (destruct playerCount as [|playerCount]; [simpl; lia|]). lia.
Qed.

Lemma indexOf_Some l x i :
  indexOf l x = Some i → l !! i = Some x.
Proof.
  revert i. induction l as [|y l IH]; intros i; simpl; [done|].
  case_decide as Hy; [by intros [= <-]; subst|].
  destruct (indexOf l x) as [j|]; [|done]. intros [= <-]. by apply IH.
Qed.

Lemma indexOf_is_Some l x : x ∈ l → is_Some (indexOf l x).
Proof.
  induction 1 as [y l|y z l Hin IH]; simpl.
  - rewrite decide_True by done. eauto.
  - case_decide; [eauto|]. destruct IH as [j ->]. eauto.
Qed.

Lemma insert_permutation (l : list string) j y a :
  l !! j = Some y → y :: <[j := a]> l ≡ₚ a :: l.
Proof.
  revert j. induction l as [|b l IH]; intros j; [done|].
  destruct j as [|j]; simpl.
  - intros [= ->]. apply Permutation_swap.
  - intros Hj. rewrite Permutation_swap. rewrite (IH j Hj).
    apply Permutation_swap.
Qed.

Lemma swap_permutation (l : list string) i j x y :
  l !! i = Some x → l !! j = Some y →
  <[j := x]> (<[i := y]> l) ≡ₚ l.
Proof.
  revert i j. induction l as [|a l IH]; intros i j; [done|].
  destruct i as [|i], j as [|j]; simpl.
  - by intros [= ->] [= ->].
  - intros [= ->] Hj. by apply insert_permutation.
  - intros Hi [= ->]. by apply insert_permutation.
  - intros Hi Hj. by rewrite (IH i j Hi Hj).
Qed.

(** X27: [swapPlayers] posts nothing unless the client is the host in a
    room and both ids are in the order it shows; otherwise the order it
    posts is a rearrangement of the shown order with the two players at
    each other's first position.  When the shown order is a
    rearrangement of the member list, as the room view delivers it, the
    server stores the posted order as it is and the room view read next
    returns it. *)
Theorem swapPlayers_exchanges roleSets app playerId1 playerId2 swapped
    st cookie reqCode room :
  swapPlayers app playerId1 playerId2 = Some swapped →
  let currentOrder :=
    if 0 <? length (App.playerOrder app) then App.playerOrder app
    else Player.id <$> App.roomPlayers app in
  (∃ me, App.player app = Some me ∧ Player.isHost me = true)
  ∧ is_Some (App.room app)
  ∧ swapped ≡ₚ currentOrder
  ∧ (∃ index1 index2,
       indexOf currentOrder playerId1 = Some index1
       ∧ indexOf currentOrder playerId2 = Some index2
       ∧ swapped !! index2 = Some playerId1
       ∧ (index1 ≠ index2 → swapped !! index1 = Some playerId2)
       ∧ ∀ k, k ≠ index1 → k ≠ index2 → swapped !! k = currentOrder !! k)
  ∧ (session st cookie = Some (Room.hostId room) →
     rooms st !! toUpperCase reqCode = Some room →
     currentOrder ≡ₚ Room.players room →
     ∃ name roomPlayers setRoles,
       let posted := post_player_order cookie reqCode swapped st in
       posted.1 = OrderJson swapped
       ∧ get_room roleSets reqCode posted.2
         = (RoomDataJson room name roomPlayers swapped setRoles, posted.2)).
Proof.
  intros Hswap currentOrder. unfold swapPlayers in Hswap.
  destruct (App.player app) as [me|]; [|done].
  destruct (App.room app) as [r|]; [|done].
  destruct (Player.isHost me) eqn:Hhost; [|done]. simpl in Hswap.
  fold currentOrder in Hswap.
  destruct (indexOf currentOrder playerId1) as [index1|] eqn:H1; [|done].
  destruct (indexOf currentOrder playerId2) as [index2|] eqn:H2; [|done].
  pose proof (indexOf_Some _ _ _ H1) as Hl1.
  pose proof (indexOf_Some _ _ _ H2) as Hl2.
  rewrite Hl1, Hl2 in Hswap. injection Hswap as <-.
  pose proof (swap_permutation currentOrder index1 index2 _ _ Hl1 Hl2)
    as Hperm.
  assert (index1 < length currentOrder) by (by eapply lookup_lt_Some).
  assert (index2 < length currentOrder) by (by eapply lookup_lt_Some).
  split_and!; [eauto | eauto | done | |].
  - exists index1, index2. split_and!; try done.
    + apply list_lookup_insert_eq. by rewrite length_insert.
    + intros Hne. rewrite list_lookup_insert_ne by done.
      by apply list_lookup_insert_eq.
    + intros k Hk1 Hk2. by rewrite !list_lookup_insert_ne.
  - intros Hsess Hroom Hmembers.
    assert (post_player_order cookie reqCode
              (<[index2:=playerId1]> (<[index1:=playerId2]> currentOrder)) st
            = (OrderJson
                 (filter (λ id, includes (Room.players room) id = true)
                    (<[index2:=playerId1]>
                       (<[index1:=playerId2]> currentOrder))),
               with_playerOrder
                 (insert (toUpperCase reqCode)
                    (filter (λ id, includes (Room.players room) id = true)
                       (<[index2:=playerId1]>
                          (<[index1:=playerId2]> currentOrder)))) st))
      as Hpost.
    { unfold post_player_order. rewrite Hsess, Hroom.
      by rewrite decide_False by (intros H'; by apply H'). }
    destruct (filter_members_permutation
                (<[index2:=playerId1]> (<[index1:=playerId2]> currentOrder))
                (Room.players room)) as [Hkeep Hnone];
      [by rewrite Hperm|].
    rewrite Hkeep in Hpost. rewrite Hpost. cbn [fst snd].
    unfold get_room. cbn [rooms playerOrder with_playerOrder].
    rewrite Hroom, lookup_insert_eq.
    do 3 eexists. split; [done|]. unfold finalOrder.
    change (default (Room.players room) (Some ?l)) with l.
    by rewrite Hkeep, Hnone, app_nil_r.
Qed.

Lemma swapPlayers_exchanges_witness :
  swapPlayers demo_app "h" "p" = Some ["p"; "h"]
  ∧ ∃ name roomPlayers setRoles,
      get_room demo_roleSets "ABCD"
        (post_player_order (Some "h") "ABCD" ["p"; "h"] demo_room).2
      = (RoomDataJson demo_lobby_room name roomPlayers ["p"; "h"] setRoles,
         (post_player_order (Some "h") "ABCD" ["p"; "h"] demo_room).2).
Proof.
  split; [reflexivity|].
  destruct (swapPlayers_exchanges demo_roleSets demo_app "h" "p" ["p"; "h"]
              demo_room (Some "h") "ABCD" demo_lobby_room eq_refl)
    as (_ & _ & _ & _ & Hserver).
  destruct Hserver as (name & roomPlayers & setRoles & _ & Hget).
  - vm_compute; reflexivity.
  - vm_compute; reflexivity.
  - reflexivity.
  - by exists name, roomPlayers, setRoles.
Defined.
